(** * cdflow-commands: state backend resolution and deployment monitoring

    A shallow embedding of
      - [cdflow_commands/terragrunt.py]  ([LockTableFactory], [S3BucketFactory]),
      - [cdflow_commands/ecs_monitor.py] ([build_service_name], [ECSEventIterator]),
      - [cdflow_commands/account.py]     ([AccountScheme]),
    together with a model of [migrate_state], and the properties that the
    design document states about them.

    Conventions.
      - A Python [str] is a [string]; every character stands for the code
        point of the same number (0..255).  [len] is [String.length] and the
        slice [s[:n]] is [PyStr.slice_to n s].
      - A Python [dict] is a [gmap], a Python [set] a [gset].
      - A boto3 client is a record of answers, one field per operation; an
        operation either replies or raises [ClientError] with an error code.
      - Methods that call the cloud API run in a small state and error monad
        whose state carries the log of the calls issued so far. *)

From Stdlib Require Import ZArith Ascii String List Lia.
From stdpp Require Import gmap strings list fin_maps.

(** ** Python strings *)

Module PyStr.

(** [s[:n]] *)
Fixpoint slice_to (n : nat) (s : string) : string :=
  match n, s with
  | S n', String c s' => String c (slice_to n' s')
  | _, _ => EmptyString
  end.

(** [s.encode('utf-8')] for code points below 256: one byte below 128,
    two bytes from 128 on. *)
Definition encode_char (c : ascii) : list Z :=
  let n := Z.of_N (N_of_ascii c) in
  if (n <? 128)%Z then [n]
  else [Z.lor 192 (Z.shiftr n 6); Z.lor 128 (Z.land n 63)].

Fixpoint encode_utf8 (s : string) : list Z :=
  match s with
  | EmptyString => []
  | String c s' => encode_char c ++ encode_utf8 s'
  end.

(** [s.split(sep)] with a one-character separator: the pieces between the
    occurrences of [sep]; never the empty list. *)
Fixpoint split (sep : ascii) (s : string) : list string :=
  match s with
  | EmptyString => [EmptyString]
  | String c s' =>
      if Ascii.eqb c sep then EmptyString :: split sep s'
      else match split sep s' with
           | piece :: pieces => String c piece :: pieces
           | [] => [String c EmptyString]
           end
  end.

(** [str(n)] for a natural number. *)
Definition digit (n : nat) : ascii := ascii_of_nat (48 + n).

Fixpoint str_nat_aux (fuel n : nat) (acc : string) : string :=
  match fuel with
  | O => acc
  | S fuel' =>
      let acc' := String (digit (n mod 10)) acc in
      match n / 10 with
      | O => acc'
      | q => str_nat_aux fuel' q acc'
      end
  end.

Definition str_nat (n : nat) : string := str_nat_aux (S n) n EmptyString.

(** [all(p(c) for c in s)] *)
Fixpoint all_chars (p : ascii -> bool) (s : string) : bool :=
  match s with
  | EmptyString => true
  | String c s' => p c && all_chars p s'
  end.

(** A digit or a letter from [a] to [f]. *)
Definition is_hex (c : ascii) : bool :=
  let n := nat_of_ascii c in
  ((48 <=? n) && (n <=? 57)) || ((97 <=? n) && (n <=? 102)).

End PyStr.

(** ** hashlib.sha1

    SHA-1 (FIPS 180-4) on 32-bit words held in [Z], every addition and left
    shift reduced modulo [2^32]. *)

Module Sha1.
Local Open Scope Z_scope.

Definition wrap (x : Z) : Z := x mod 2 ^ 32.
Definition add32 (x y : Z) : Z := wrap (x + y).
Definition rotl (n x : Z) : Z :=
  Z.lor (wrap (Z.shiftl x n)) (Z.shiftr x (32 - n)).
Definition not32 (x : Z) : Z := Z.lxor x (2 ^ 32 - 1).

(** Message padding: the bit [1], zero bytes up to 56 modulo 64, then the
    bit length as a 64-bit big-endian integer. *)
Definition be_bytes (width : nat) (x : Z) : list Z :=
  map (fun i => Z.land (Z.shiftr x (8 * Z.of_nat i)) 255) (rev (seq 0 width)).

Definition pad (msg : list Z) : list Z :=
  let len := Z.of_nat (length msg) in
  let zeros := Z.to_nat ((55 - len) mod 64) in
  msg ++ [128] ++ repeat 0 zeros ++ be_bytes 8 (8 * len).

Fixpoint words (fuel : nat) (bs : list Z) : list Z :=
  match fuel, bs with
  | S fuel', b0 :: b1 :: b2 :: b3 :: rest =>
      (Z.shiftl b0 24 + Z.shiftl b1 16 + Z.shiftl b2 8 + b3)
        :: words fuel' rest
  | _, _ => []
  end.

Fixpoint blocks (fuel : nat) (ws : list Z) : list (list Z) :=
  match fuel, ws with
  | _, [] => []
  | O, _ => []
  | S fuel', _ => firstn 16 ws :: blocks fuel' (skipn 16 ws)
  end.

Record regs := Regs { ra : Z; rb : Z; rc : Z; rd : Z; re : Z }.

Definition init : regs :=
  Regs 1732584193 4023233417 2562383102 271733878 3285377520.

Definition f_k (t : nat) (b c d : Z) : Z * Z :=
  if (t <? 20)%nat then
    (Z.lor (Z.land b c) (Z.land (not32 b) d), 1518500249)
  else if (t <? 40)%nat then
    (Z.lxor (Z.lxor b c) d, 1859775393)
  else if (t <? 60)%nat then
    (Z.lor (Z.lor (Z.land b c) (Z.land b d)) (Z.land c d), 2400959708)
  else
    (Z.lxor (Z.lxor b c) d, 3395469782).

Definition step (t : nat) (w : Z) (r : regs) : regs :=
  let '(f, k) := f_k t (rb r) (rc r) (rd r) in
  let temp := add32 (add32 (add32 (add32 (rotl 5 (ra r)) f) (re r)) k) w in
  Regs temp (ra r) (rotl 30 (rb r)) (rc r) (rd r).

(** The message schedule is kept as a window of sixteen words
    [w_t .. w_(t+15)]; [w_(t+16)] is appended at every round. *)
Definition next_word (win : list Z) : Z :=
  rotl 1 (Z.lxor (Z.lxor (Z.lxor (nth 13 win 0) (nth 8 win 0))
                          (nth 2 win 0)) (nth 0 win 0)).

Fixpoint rounds (n t : nat) (win : list Z) (r : regs) : regs :=
  match n with
  | O => r
  | S n' =>
      rounds n' (S t) (skipn 1 win ++ [next_word win])
             (step t (nth 0 win 0) r)
  end.

Definition compress (h : regs) (block : list Z) : regs :=
  let r := rounds 80 0 block h in
  Regs (add32 (ra h) (ra r)) (add32 (rb h) (rb r)) (add32 (rc h) (rc r))
       (add32 (rd h) (rd r)) (add32 (re h) (re r)).

Definition digest_words (msg : list Z) : list Z :=
  let p := pad msg in
  let ws := words (length p) p in
  let h := fold_left compress (blocks (length ws) ws) init in
  [ra h; rb h; rc h; rd h; re h].

Definition hex_digit (x : Z) : ascii :=
  if x <? 10 then ascii_of_N (Z.to_N (48 + x))
  else ascii_of_N (Z.to_N (87 + x)).

Definition hex_word (w : Z) : string :=
  fold_right
    (fun i acc => String (hex_digit (Z.land (Z.shiftr w (4 * Z.of_nat i)) 15)) acc)
    EmptyString (rev (seq 0 8)).

(** [sha1(data).hexdigest()] *)
Definition hexdigest (data : list Z) : string :=
  fold_right (fun w acc => String.append (hex_word w) acc) EmptyString
             (digest_words data).

(** [sha1(s.encode('utf-8')).hexdigest()] *)
Definition sha1_hex (s : string) : string := hexdigest (PyStr.encode_utf8 s).

End Sha1.

(** ** Exceptions, results and the call monad *)

(** The exception classes that the code raises or lets through.  The last two
    are named by the design document; no statement of the code raises them. *)
Inductive exn : Type :=
  | ClientError (Code : option string)
  | WaiterError
  | AssertionError (msg : string)
  | Exception (msg : string)
  | IndexError
  | KeyError (key : string)
  | StopIteration
  | ImageDoesNotMatchError
  | IncorrectSchemaError (msg : string)
  | MissingTagError (msg : string)
  | MultipleBucketsError
  | UnknownEnvironmentError.

Inductive result (A : Type) : Type :=
  | Ok (a : A)
  | Raise (e : exn).
Arguments Ok {A} a.
Arguments Raise {A} e.

(** What a client operation answers: a reply, or a [ClientError] whose
    [response['Error']['Code']] is [Code] ([None] when the field is absent). *)
Inductive response (A : Type) : Type :=
  | Reply (a : A)
  | Error (Code : option string).
Arguments Reply {A} a.
Arguments Error {A} Code.

(** A computation over a state [S] that returns or raises; the state
    survives a raise, as the attributes of a Python object do. *)
Definition M (S A : Type) : Type := S -> result A * S.

Definition ret {S A} (a : A) : M S A := fun s => (Ok a, s).
Definition raise {S A} (e : exn) : M S A := fun s => (Raise e, s).
Definition bind {S A B} (c : M S A) (k : A -> M S B) : M S B :=
  fun s => match c s with
           | (Ok a, s') => k a s'
           | (Raise e, s') => (Raise e, s')
           end.

Notation "x <~ c ;; k" := (bind c (fun x => k))
  (at level 100, c at next level, right associativity).

(** [try: body except ClientError as e: handler] *)
Definition try_except_ClientError {S A}
    (body : M S A) (handler : option string -> M S A) : M S A :=
  fun s => match body s with
           | (Raise (ClientError code), s') => handler code s'
           | other => other
           end.

(** A client operation: the call is appended to the log, the answer is
    returned or raised. *)
Definition call {C A} (c : C) (r : response A) : M (list C) A :=
  fun log => (match r with
              | Reply a => Ok a
              | Error code => Raise (ClientError code)
              end, log ++ [c]).

(** A list comprehension [[x for x in xs if cond(x)]] whose condition may
    raise. *)
Fixpoint filterM {S A} (cond : A -> M S bool) (xs : list A) : M S (list A) :=
  match xs with
  | [] => ret []
  | x :: xs' =>
      keep <~ cond x ;;
      rest <~ filterM cond xs' ;;
      ret (if keep then x :: rest else rest)
  end.

Record tag := Tag { Key : string; Value : string }.

Global Instance tag_eq_dec : EqDecision tag.
Proof. solve_decision. Defined.

(** [{tag['Key']: tag['Value'] for tag in tags}]: a later entry replaces an
    earlier one with the same key. *)
Definition tags_dict (tags : list tag) : gmap string string :=
  foldl (fun d t => <[Key t := Value t]> d) ∅ tags.

(** ** cdflow_commands/terragrunt.py *)

Module Terragrunt.

Definition TAG_NAME : string := "is-cdflow-tfstate-bucket".
Definition TAG_VALUE : string := "true".
Definition NAME_PREFIX : string := "cdflow-tfstate".
Definition MAX_CREATION_ATTEMPTS : nat := 10.

(** *** The S3 client *)

Inductive s3_call : Type :=
  | ListBuckets
  | GetBucketTagging (Bucket : string)
  | GetBucketLocation (Bucket : string)
  | CreateBucket (Bucket : string) (LocationConstraint : string)
  | PutBucketTagging (Bucket : string) (TagSet : list tag).

(** The account as one call of the factory sees it.  [get_bucket_location]
    replies the [LocationConstraint] of the bucket, which may be [None]. *)
Record s3_client := {
  list_buckets : response (list string);
  get_bucket_tagging : string -> response (list tag);
  get_bucket_location : string -> response (option string);
  create_bucket : string -> string -> response unit;
  put_bucket_tagging : string -> list tag -> response unit
}.

(** *** class S3BucketFactory *)

Record S3BucketFactory := {
  _boto_s3_client : s3_client;
  _aws_region : string;
  _account_id : string
}.

Definition S3 := M (list s3_call).

Definition _generate_bucket_name (self : S3BucketFactory) (attempt : nat)
    : string :=
  let concatenated :=
    _aws_region self +:+ _account_id self +:+ PyStr.str_nat attempt in
  NAME_PREFIX +:+ "-" +:+ PyStr.slice_to 12 (Sha1.sha1_hex concatenated).

Definition _get_bucket_tags (self : S3BucketFactory) (bucket_name : string)
    : S3 (gmap string string) :=
  try_except_ClientError
    (tags <~ call (GetBucketTagging bucket_name)
                  (get_bucket_tagging (_boto_s3_client self) bucket_name) ;;
     ret (tags_dict tags))
    (fun code =>
       if decide (code = Some "NoSuchTagSet") then ret ∅
       else raise (ClientError code)).

Definition _bucket_has_tag (self : S3BucketFactory) (bucket_name : string)
    : S3 bool :=
  tags <~ _get_bucket_tags self bucket_name ;;
  ret (bool_decide (tags !! TAG_NAME = Some TAG_VALUE)).

Definition _bucket_in_current_region (self : S3BucketFactory)
    (bucket_name : string) : S3 bool :=
  region <~ call (GetBucketLocation bucket_name)
                 (get_bucket_location (_boto_s3_client self) bucket_name) ;;
  ret (bool_decide (region = Some (_aws_region self))).

Definition _attempt_to_create_bucket (self : S3BucketFactory)
    (bucket_name : string) : S3 bool :=
  try_except_ClientError
    (_ <~ call (CreateBucket bucket_name (_aws_region self))
               (create_bucket (_boto_s3_client self) bucket_name
                              (_aws_region self)) ;;
     ret true)
    (fun code =>
       if bool_decide (code = Some "BucketAlreadyExists")
          || bool_decide (code = Some "BucketAlreadyOwnedByYou")
       then ret false
       else raise (ClientError code)).

(** The body of [for attempt in range(MAX_CREATION_ATTEMPTS)] followed by
    the [raise] after the loop. *)
Fixpoint _create_bucket_loop (self : S3BucketFactory) (attempts : list nat)
    : S3 string :=
  match attempts with
  | [] =>
      raise (Exception ("could not create bucket after "
                        +:+ PyStr.str_nat MAX_CREATION_ATTEMPTS
                        +:+ " attempts"))
  | attempt :: rest =>
      let bucket_name := _generate_bucket_name self attempt in
      created <~ _attempt_to_create_bucket self bucket_name ;;
      if created : bool then ret bucket_name
      else _create_bucket_loop self rest
  end.

Definition _create_bucket (self : S3BucketFactory) : S3 string :=
  _create_bucket_loop self (seq 0 MAX_CREATION_ATTEMPTS).

Definition _tag_bucket (self : S3BucketFactory) (bucket_name : string)
    : S3 unit :=
  call (PutBucketTagging bucket_name [Tag TAG_NAME TAG_VALUE])
       (put_bucket_tagging (_boto_s3_client self) bucket_name
                           [Tag TAG_NAME TAG_VALUE]).

(** The condition of the set comprehension of [get_bucket_name]; [and]
    does not ask for the location of an untagged bucket. *)
Definition qualifies (self : S3BucketFactory) (bucket_name : string)
    : S3 bool :=
  tagged <~ _bucket_has_tag self bucket_name ;;
  if tagged : bool then _bucket_in_current_region self bucket_name
  else ret false.

(** The two sets are iterated in the order of [elements]; Python leaves
    the order of a set unspecified as well. *)
Definition get_bucket_name (self : S3BucketFactory) : S3 string :=
  listing <~ call ListBuckets (list_buckets (_boto_s3_client self)) ;;
  let buckets : gset string := list_to_set listing in
  found <~ filterM (qualifies self) (elements buckets) ;;
  let tagged_buckets : gset string := list_to_set found in
  if decide (size tagged_buckets <= 1) then
    if decide (size tagged_buckets = 1) then
      match elements tagged_buckets with
      | bucket_name :: _ => ret bucket_name
      | [] => raise IndexError
      end
    else
      bucket_name <~ _create_bucket self ;;
      _ <~ _tag_bucket self bucket_name ;;
      ret bucket_name
  else
    raise (AssertionError
             ("multiple buckets with " +:+ TAG_NAME +:+ "=" +:+ TAG_VALUE
              +:+ " tag found")).

(** *** What an account state means for the factory *)

Definition sentinel : tag := Tag TAG_NAME TAG_VALUE.

(** The bucket carries the tag [is-cdflow-tfstate-bucket=true]. *)
Definition carries_sentinel (self : S3BucketFactory) (bucket : string)
    : Prop :=
  exists tags,
    get_bucket_tagging (_boto_s3_client self) bucket = Reply tags
    /\ tags_dict tags !! TAG_NAME = Some TAG_VALUE.

(** The bucket has no tag set, or a tag set without the sentinel tag. *)
Definition lacks_sentinel (self : S3BucketFactory) (bucket : string)
    : Prop :=
  get_bucket_tagging (_boto_s3_client self) bucket
    = Error (Some "NoSuchTagSet")
  \/ exists tags,
       get_bucket_tagging (_boto_s3_client self) bucket = Reply tags
       /\ tags_dict tags !! TAG_NAME <> Some TAG_VALUE.

(** A tagged bucket of the caller's region. *)
Definition qualifying (self : S3BucketFactory) (bucket : string) : Prop :=
  carries_sentinel self bucket
  /\ get_bucket_location (_boto_s3_client self) bucket
     = Reply (Some (_aws_region self)).

(** A bucket that is untagged, or tagged and reported with another
    location constraint. *)
Definition set_aside (self : S3BucketFactory) (bucket : string) : Prop :=
  lacks_sentinel self bucket
  \/ (carries_sentinel self bucket
      /\ exists constraint,
           get_bucket_location (_boto_s3_client self) bucket
             = Reply constraint
           /\ constraint <> Some (_aws_region self)).

(** A lookup that the comprehension makes for the bucket is refused with
    [code]: the tag lookup, with another code than [NoSuchTagSet], or the
    location lookup of a bucket that carries the sentinel tag. *)
Definition lookup_refused (self : S3BucketFactory) (bucket : string)
    (code : option string) : Prop :=
  (get_bucket_tagging (_boto_s3_client self) bucket = Error code
   /\ code <> Some "NoSuchTagSet")
  \/ (carries_sentinel self bucket
      /\ get_bucket_location (_boto_s3_client self) bucket = Error code).

(** The verdict of [qualifies] when both lookups are answered. *)
Definition qualifiesb (self : S3BucketFactory) (bucket : string) : bool :=
  match get_bucket_tagging (_boto_s3_client self) bucket with
  | Reply tags =>
      bool_decide (tags_dict tags !! TAG_NAME = Some TAG_VALUE)
      && match get_bucket_location (_boto_s3_client self) bucket with
         | Reply constraint =>
             bool_decide (constraint = Some (_aws_region self))
         | Error _ => false
         end
  | Error _ => false
  end.

(** Calls that change the account. *)
Definition writes_bucket (c : s3_call) : bool :=
  match c with
  | CreateBucket _ _ | PutBucketTagging _ _ => true
  | _ => false
  end.

Definition quiet (c : s3_call) : Prop := writes_bucket c = false.

(** The storage API reports the name as taken, by the caller or by
    another tenant. *)
Definition name_taken (code : option string) : Prop :=
  code = Some "BucketAlreadyExists"
  \/ code = Some "BucketAlreadyOwnedByYou".

Definition refused (self : S3BucketFactory) (attempt : nat) : Prop :=
  exists code,
    create_bucket (_boto_s3_client self)
                  (_generate_bucket_name self attempt) (_aws_region self)
      = Error code
    /\ name_taken code.

Definition accepted (self : S3BucketFactory) (attempt : nat) : Prop :=
  create_bucket (_boto_s3_client self)
                (_generate_bucket_name self attempt) (_aws_region self)
    = Reply tt.

Definition creation (self : S3BucketFactory) (attempt : nat) : s3_call :=
  CreateBucket (_generate_bucket_name self attempt) (_aws_region self).

Definition multiple_buckets_message : string :=
  "multiple buckets with is-cdflow-tfstate-bucket=true tag found".

Definition attempts_exhausted_message : string :=
  "could not create bucket after 10 attempts".

(** *** Account states used as examples *)

(** One untagged bucket and one tagged bucket of another region; the
    first candidate name is taken by another tenant. *)
Definition account_with_collision : s3_client := {|
  list_buckets := Reply ["logs"; "state-elsewhere"];
  get_bucket_tagging := fun bucket =>
    if String.eqb bucket "state-elsewhere" then Reply [sentinel]
    else Error (Some "NoSuchTagSet");
  get_bucket_location := fun _ => Reply (Some "us-west-2");
  create_bucket := fun bucket _ =>
    if String.eqb bucket "cdflow-tfstate-c3ab7bee01ca"
    then Error (Some "BucketAlreadyExists") else Reply tt;
  put_bucket_tagging := fun _ _ => Reply tt
|}.

Definition factory_with_collision : S3BucketFactory := {|
  _boto_s3_client := account_with_collision;
  _aws_region := "eu-west-1";
  _account_id := "123456789"
|}.

(** Two tagged buckets of the caller's region. *)
Definition account_with_two_buckets : s3_client := {|
  list_buckets := Reply ["state-bucket"; "another-state-bucket"];
  get_bucket_tagging := fun _ => Reply [sentinel];
  get_bucket_location := fun _ => Reply (Some "eu-west-1");
  create_bucket := fun _ _ => Reply tt;
  put_bucket_tagging := fun _ _ => Reply tt
|}.

Definition factory_with_two_buckets : S3BucketFactory := {|
  _boto_s3_client := account_with_two_buckets;
  _aws_region := "eu-west-1";
  _account_id := "123456789"
|}.

(** Two tagged buckets of the caller's region beside a bucket whose tags
    may not be read. *)
Definition account_with_two_buckets_and_forbidden : s3_client := {|
  list_buckets :=
    Reply ["state-bucket"; "another-state-bucket"; "forbidden-bucket"];
  get_bucket_tagging := fun bucket =>
    if String.eqb bucket "forbidden-bucket" then Error (Some "AccessDenied")
    else Reply [sentinel];
  get_bucket_location := fun _ => Reply (Some "eu-west-1");
  create_bucket := fun _ _ => Reply tt;
  put_bucket_tagging := fun _ _ => Reply tt
|}.

Definition factory_with_two_buckets_and_forbidden : S3BucketFactory := {|
  _boto_s3_client := account_with_two_buckets_and_forbidden;
  _aws_region := "eu-west-1";
  _account_id := "123456789"
|}.

(** One tagged bucket in the US standard region, whose location
    constraint S3 reports as [None]. *)
Definition account_in_us_standard : s3_client := {|
  list_buckets := Reply ["dummy-bucket-name"];
  get_bucket_tagging := fun _ => Reply [sentinel];
  get_bucket_location := fun _ => Reply None;
  create_bucket := fun _ _ => Reply tt;
  put_bucket_tagging := fun _ _ => Reply tt
|}.

Definition factory_in_us_standard : S3BucketFactory := {|
  _boto_s3_client := account_in_us_standard;
  _aws_region := "us-east-1";
  _account_id := "123456789"
|}.

Global Instance s3_call_eq_dec : EqDecision s3_call.
Proof. solve_decision. Defined.

(** How often a call occurs in a log. *)
Definition occurrences (c : s3_call) (calls : list s3_call) : nat :=
  length (List.filter (fun c' => bool_decide (c' = c)) calls).

(** The account of [test_handle_untagged_buckets]: one bucket without a tag
    set and the state bucket of the region. *)
Definition account_with_state_bucket : s3_client := {|
  list_buckets := Reply ["another-bucket"; "state-bucket"];
  get_bucket_tagging := fun bucket =>
    if String.eqb bucket "state-bucket" then Reply [sentinel]
    else Error (Some "NoSuchTagSet");
  get_bucket_location := fun _ => Reply (Some "dummy-region-name");
  create_bucket := fun _ _ => Reply tt;
  put_bucket_tagging := fun _ _ => Reply tt
|}.

Definition factory_with_state_bucket : S3BucketFactory := {|
  _boto_s3_client := account_with_state_bucket;
  _aws_region := "dummy-region-name";
  _account_id := "123456789"
|}.

(** An account one of whose buckets may not be inspected. *)
Definition account_with_forbidden_bucket : s3_client := {|
  list_buckets := Reply ["another-bucket"; "state-bucket"];
  get_bucket_tagging := fun bucket =>
    if String.eqb bucket "state-bucket" then Reply [sentinel]
    else Error (Some "AccessDenied");
  get_bucket_location := fun _ => Reply (Some "dummy-region-name");
  create_bucket := fun _ _ => Reply tt;
  put_bucket_tagging := fun _ _ => Reply tt
|}.

Definition factory_with_forbidden_bucket : S3BucketFactory := {|
  _boto_s3_client := account_with_forbidden_bucket;
  _aws_region := "dummy-region-name";
  _account_id := "123456789"
|}.

(** An empty account in which buckets may be created but not tagged, and
    one in which the second creation is refused for another reason than a
    taken name. *)
Definition account_without_tagging : s3_client := {|
  list_buckets := Reply [];
  get_bucket_tagging := fun _ => Error (Some "NoSuchTagSet");
  get_bucket_location := fun _ => Reply (Some "eu-west-1");
  create_bucket := fun _ _ => Reply tt;
  put_bucket_tagging := fun _ _ => Error (Some "AccessDenied")
|}.

Definition factory_without_tagging : S3BucketFactory := {|
  _boto_s3_client := account_without_tagging;
  _aws_region := "eu-west-1";
  _account_id := "123456789"
|}.

Definition account_without_creation : s3_client := {|
  list_buckets := Reply [];
  get_bucket_tagging := fun _ => Error (Some "NoSuchTagSet");
  get_bucket_location := fun _ => Reply (Some "eu-west-1");
  create_bucket := fun bucket _ =>
    if String.eqb bucket "cdflow-tfstate-c3ab7bee01ca"
    then Error (Some "BucketAlreadyOwnedByYou")
    else Error (Some "TooManyBuckets");
  put_bucket_tagging := fun _ _ => Reply tt
|}.

Definition factory_without_creation : S3BucketFactory := {|
  _boto_s3_client := account_without_creation;
  _aws_region := "eu-west-1";
  _account_id := "123456789"
|}.

(** *** The DynamoDB client *)

Record attribute_definition := {
  AttributeName : string;
  AttributeType : string
}.

Record key_schema_element := { KeyAttributeName : string; KeyType : string }.

Record table_description := {
  AttributeDefinitions : list attribute_definition;
  TableName : string;
  TableArn : string
}.

Record create_table_request := {
  req_TableName : string;
  req_AttributeDefinitions : list attribute_definition;
  req_KeySchema : list key_schema_element;
  ReadCapacityUnits : Z;
  WriteCapacityUnits : Z
}.

Inductive dynamodb_call : Type :=
  | DescribeTable (TableName : string)
  | ListTagsOfResource (ResourceArn : string)
  | ListTables
  | CreateTable (request : create_table_request)
  | TagResource (ResourceArn : string) (Tags : list tag)
  | WaitTableExists (TableName : string).

(** [create_table] replies the [TableArn] of its [TableDescription];
    [wait_table_exists] is [get_waiter('table_exists').wait], which
    returns once the table is active and raises [WaiterError] ([false])
    when it gives up. *)
Record dynamodb_client := {
  describe_table : string -> response table_description;
  list_tags_of_resource : string -> response (list tag);
  list_tables : response (list string);
  create_table : create_table_request -> response string;
  tag_resource : string -> list tag -> response unit;
  wait_table_exists : string -> bool
}.

(** *** class LockTableFactory *)

(** The class attributes [TABLE_NAME], [TAG_NAME] and [TAG_VALUE]; the last
    two are prefixed here to tell them from the constants of the module. *)
Definition TABLE_NAME : string := "terraform_locks".
Definition LOCK_TAG_NAME : string := "cdflow_terraform_locks".
Definition LOCK_TAG_VALUE : string := "true".

Record LockTableFactory := { _client : dynamodb_client }.

Definition Dynamo := M (list dynamodb_call).

Definition _check_schema (table_definition : table_description)
    : Dynamo bool :=
  if existsb (fun attribute => String.eqb (AttributeName attribute) "LockID")
             (AttributeDefinitions table_definition)
  then ret true
  else raise (IncorrectSchemaError "No attribute LockID in table").

Definition _check_tag (self : LockTableFactory) (table_arn : string)
    : Dynamo bool :=
  tags <~ call (ListTagsOfResource table_arn)
               (list_tags_of_resource (_client self) table_arn) ;;
  if existsb (fun t => String.eqb (Key t) LOCK_TAG_NAME
                       && String.eqb (Value t) LOCK_TAG_VALUE) tags
  then ret true
  else raise (MissingTagError
                ("No tag " +:+ LOCK_TAG_NAME +:+ " found for " +:+ table_arn)).

Definition _try_to_get_table (self : LockTableFactory) (table_name : string)
    : Dynamo string :=
  table <~ call (DescribeTable table_name)
                (describe_table (_client self) table_name) ;;
  _ <~ _check_tag self (TableArn table) ;;
  _ <~ _check_schema table ;;
  ret (TableName table).

(** The body of [for table_name in tables['TableNames']] of
    [_get_fallback_table]; the method returns [None] when the loop ends. *)
Fixpoint _get_fallback_table_loop (self : LockTableFactory)
    (table_names : list string) : Dynamo (option string) :=
  match table_names with
  | [] => ret None
  | table_name :: rest =>
      fun log =>
        match _try_to_get_table self table_name log with
        | (Ok name, log') => (Ok (Some name), log')
        | (Raise (MissingTagError _), log') =>
            _get_fallback_table_loop self rest log'
        | (Raise e, log') => (Raise e, log')
        end
  end.

Definition _get_fallback_table (self : LockTableFactory)
    : Dynamo (option string) :=
  table_names <~ call ListTables (list_tables (_client self)) ;;
  _get_fallback_table_loop self table_names.

Definition _create_table (self : LockTableFactory) (table_name : string)
    : Dynamo string :=
  let request := {|
    req_TableName := table_name;
    req_AttributeDefinitions :=
      [{| AttributeName := "LockID"; AttributeType := "S" |}];
    req_KeySchema := [{| KeyAttributeName := "LockID"; KeyType := "HASH" |}];
    ReadCapacityUnits := 1;
    WriteCapacityUnits := 1
  |} in
  table_arn <~ call (CreateTable request)
                    (create_table (_client self) request) ;;
  _ <~ call (TagResource table_arn [Tag LOCK_TAG_NAME LOCK_TAG_VALUE])
            (tag_resource (_client self) table_arn
                          [Tag LOCK_TAG_NAME LOCK_TAG_VALUE]) ;;
  _ <~ (fun log =>
          (if wait_table_exists (_client self) table_name
           then Ok tt else Raise WaiterError,
           log ++ [WaitTableExists table_name])) ;;
  ret table_name.

Definition _resource_not_found (code : option string) : bool :=
  bool_decide (code = Some "ResourceNotFoundException").

Definition get_table_name (self : LockTableFactory) : Dynamo string :=
  try_except_ClientError
    (_try_to_get_table self TABLE_NAME)
    (fun code =>
       if _resource_not_found code then _create_table self TABLE_NAME
       else raise (ClientError code)).

(** *** What a table means for the factory *)

Definition lock_tag : tag := Tag LOCK_TAG_NAME LOCK_TAG_VALUE.

(** Some attribute definition of the table is named [LockID]. *)
Definition has_LockID (table : table_description) : Prop :=
  exists attribute,
    attribute ∈ AttributeDefinitions table
    /\ AttributeName attribute = "LockID".

(** The request [_create_table] sends for a table name. *)
Definition lock_table_request (table_name : string) : create_table_request :=
  {| req_TableName := table_name;
     req_AttributeDefinitions :=
       [{| AttributeName := "LockID"; AttributeType := "S" |}];
     req_KeySchema := [{| KeyAttributeName := "LockID"; KeyType := "HASH" |}];
     ReadCapacityUnits := 1;
     WriteCapacityUnits := 1 |}.

(** *** Tables used as examples *)

Definition lock_table_arn : string :=
  "arn:aws:dynamodb:eu-west-12:123456789:table/terraform_locks".

(** A table named [terraform_locks] with neither the attribute [LockID]
    nor the sentinel tag. *)
Definition foreign_table : dynamodb_client := {|
  describe_table := fun _ =>
    Reply {| AttributeDefinitions :=
               [{| AttributeName := "IncorrectColumn";
                   AttributeType := "S" |}];
             TableName := "terraform_locks";
             TableArn := lock_table_arn |};
  list_tags_of_resource := fun _ => Reply [];
  list_tables := Reply ["terraform_locks"];
  create_table := fun _ => Error (Some "ResourceInUseException");
  tag_resource := fun _ _ => Reply tt;
  wait_table_exists := fun _ => true
|}.

(** No table yet. *)
Definition missing_table : dynamodb_client := {|
  describe_table := fun _ => Error (Some "ResourceNotFoundException");
  list_tags_of_resource := fun _ => Error (Some "ResourceNotFoundException");
  list_tables := Reply [];
  create_table := fun _ => Reply lock_table_arn;
  tag_resource := fun _ _ => Reply tt;
  wait_table_exists := fun _ => true
|}.

(** *** Tables seen by the fallback scan *)

(** The table is found and its tags, which are listed, lack the sentinel
    tag. *)
Definition untagged_table (self : LockTableFactory) (table_name : string)
    : Prop :=
  exists table tags,
    describe_table (_client self) table_name = Reply table
    /\ list_tags_of_resource (_client self) (TableArn table) = Reply tags
    /\ lock_tag ∉ tags.

(** The table is found and carries the sentinel tag. *)
Definition tagged_table (self : LockTableFactory) (table_name : string)
    (table : table_description) : Prop :=
  describe_table (_client self) table_name = Reply table
  /\ exists tags,
       list_tags_of_resource (_client self) (TableArn table) = Reply tags
       /\ lock_tag ∈ tags.

(** The calls [_try_to_get_table] issues for a table name. *)
Definition inspection (self : LockTableFactory) (table_name : string)
    : list dynamodb_call :=
  match describe_table (_client self) table_name with
  | Reply table =>
      [DescribeTable table_name; ListTagsOfResource (TableArn table)]
  | Error _ => [DescribeTable table_name]
  end.

(** Calls that create or change a table. *)
Definition writes_table (c : dynamodb_call) : bool :=
  match c with
  | CreateTable _ | TagResource _ _ => true
  | _ => false
  end.

(** An account with four tables: [users] and [sessions] are untagged,
    [broken_locks] carries the sentinel tag but has no attribute [LockID],
    [team_locks] carries the tag and has the attribute. *)
Definition table_named (table_name : string) : table_description :=
  {| AttributeDefinitions :=
       [{| AttributeName :=
             if String.eqb table_name "team_locks" then "LockID" else "id";
           AttributeType := "S" |}];
     TableName := table_name;
     TableArn := "arn:" +:+ table_name |}.

Definition several_tables (listing : list string) : dynamodb_client := {|
  describe_table := fun table_name => Reply (table_named table_name);
  list_tags_of_resource := fun arn =>
    if String.eqb arn "arn:team_locks" || String.eqb arn "arn:broken_locks"
    then Reply [lock_tag] else Reply [];
  list_tables := Reply listing;
  create_table := fun _ => Error (Some "ResourceInUseException");
  tag_resource := fun _ _ => Reply tt;
  wait_table_exists := fun _ => true
|}.

(** The table [terraform_locks] is described, but the listing of its tags
    answers that the resource is not found. *)
Definition vanishing_table : dynamodb_client := {|
  describe_table := fun table_name => Reply (table_named table_name);
  list_tags_of_resource := fun _ => Error (Some "ResourceNotFoundException");
  list_tables := Reply ["terraform_locks"];
  create_table := fun _ => Reply lock_table_arn;
  tag_resource := fun _ _ => Reply tt;
  wait_table_exists := fun _ => true
|}.

(** No table yet, and one that never becomes active. *)
Definition stuck_table : dynamodb_client := {|
  describe_table := fun _ => Error (Some "ResourceNotFoundException");
  list_tags_of_resource := fun _ => Error (Some "ResourceNotFoundException");
  list_tables := Reply [];
  create_table := fun _ => Reply lock_table_arn;
  tag_resource := fun _ _ => Reply tt;
  wait_table_exists := fun _ => false
|}.

End Terragrunt.

(** ** cdflow_commands/ecs_monitor.py *)

Module EcsMonitor.

Definition build_service_name (environment component : string) : string :=
  let service_name := environment +:+ "-" +:+ component in
  if (32 <? String.length service_name)%nat then
    let service_name_hash := Sha1.sha1_hex service_name in
    PyStr.slice_to 24 service_name +:+ "tf"
      +:+ PyStr.slice_to 4 service_name_hash
  else service_name.

(** *** The ECS client *)

Record deployment := {
  status : string;
  taskDefinition : string;
  runningCount : Z;
  desiredCount : Z
}.

Record service := { deployments : list deployment }.

Record container_definition := { image : string }.

Inductive ecs_call : Type :=
  | DescribeServices (cluster : string) (services : list string)
  | DescribeTaskDefinition (taskDefinition : string).

(** What the service answers at one poll: [describe_services] replies
    [response['services']], [describe_task_definition] replies
    [response['taskDefinition']['containerDefinitions']]. *)
Record ecs_client := {
  describe_services : string -> list string -> response (list service);
  describe_task_definition : string -> response (list container_definition)
}.

Inductive event : Type :=
  | DoneEvent (running desired : Z)
  | InProgressEvent (running desired : Z).

(** *** class ECSEventIterator

    The attributes set by [__init__], the entries that
    [lru_cache(maxsize=10)] holds for this instance (most recently used
    first), and the calls issued through [_boto_session] so far.

    The table of [lru_cache] belongs to the method and is shared by all
    iterators of a process, keyed by the instance and the ARN.  The model
    follows one iterator and keeps the entries of that instance only: it
    describes a process in which no other iterator looks up a release
    image in between. *)
Record ECSEventIterator := {
  _cluster : string;
  _environment : string;
  _component : string;
  _version : string;
  _done : bool;
  _release_images : list (string * string);
  _calls : list ecs_call
}.

Definition __init__ (cluster environment component version : string)
    : ECSEventIterator :=
  {| _cluster := cluster; _environment := environment;
     _component := component; _version := version;
     _done := false; _release_images := []; _calls := [] |}.

Definition Ecs := M ECSEventIterator.

Definition set_done (self : ECSEventIterator) : ECSEventIterator :=
  {| _cluster := _cluster self; _environment := _environment self;
     _component := _component self; _version := _version self;
     _done := true; _release_images := _release_images self;
     _calls := _calls self |}.

Definition set_release_images (entries : list (string * string))
    (self : ECSEventIterator) : ECSEventIterator :=
  {| _cluster := _cluster self; _environment := _environment self;
     _component := _component self; _version := _version self;
     _done := _done self; _release_images := entries;
     _calls := _calls self |}.

Definition record_call (c : ecs_call) (self : ECSEventIterator)
    : ECSEventIterator :=
  {| _cluster := _cluster self; _environment := _environment self;
     _component := _component self; _version := _version self;
     _done := _done self; _release_images := _release_images self;
     _calls := _calls self ++ [c] |}.

(** A call through the ECS client of [_boto_session]. *)
Definition ecs_request {A} (c : ecs_call) (r : response A) : Ecs A :=
  fun self =>
    (match r with
     | Reply a => Ok a
     | Error code => Raise (ClientError code)
     end, record_call c self).

Definition service_name (self : ECSEventIterator) : string :=
  build_service_name (_environment self) (_component self).

(** [xs[i]] *)
Definition item {S A} (xs : list A) (i : nat) : M S A :=
  match xs !! i with
  | Some x => ret x
  | None => raise IndexError
  end.

(** The decorated body of [_get_release_image]. *)
Definition _get_release_image_uncached (ecs : ecs_client)
    (task_definition_arn : string) : Ecs string :=
  container_definitions <~
    ecs_request (DescribeTaskDefinition task_definition_arn)
                (describe_task_definition ecs task_definition_arn) ;;
  task_def <~ item container_definitions 0 ;;
  item (PyStr.split "/" (image task_def)) 1.

Definition cache_lookup (arn : string) (entries : list (string * string))
    : option string :=
  snd <$> List.find (fun e => String.eqb (fst e) arn) entries.

Definition cache_remove (arn : string) (entries : list (string * string))
    : list (string * string) :=
  List.filter (fun e => negb (String.eqb (fst e) arn)) entries.

(** [@lru_cache(maxsize=10)]: a hit answers from the cache and makes the
    entry the most recent one; a miss runs the body, stores its value and
    drops the least recently used entry beyond ten; a raise stores
    nothing. *)
Definition _get_release_image (ecs : ecs_client)
    (task_definition_arn : string) : Ecs string :=
  fun self =>
    match cache_lookup task_definition_arn (_release_images self) with
    | Some release_image =>
        (Ok release_image,
         set_release_images
           ((task_definition_arn, release_image)
              :: cache_remove task_definition_arn (_release_images self))
           self)
    | None =>
        match _get_release_image_uncached ecs task_definition_arn self with
        | (Ok release_image, self') =>
            (Ok release_image,
             set_release_images
               (take 10 ((task_definition_arn, release_image)
                           :: _release_images self'))
               self')
        | raised => raised
        end
    end.

Definition _get_primary_deployment (ecs : ecs_client) : Ecs deployment :=
  fun self =>
    (services <~ ecs_request
                   (DescribeServices (_cluster self) [service_name self])
                   (describe_services ecs (_cluster self)
                                      [service_name self]) ;;
     first_service <~ item services 0 ;;
     item (List.filter (fun d => String.eqb (status d) "PRIMARY")
                       (deployments first_service)) 0) self.

Definition __next__ (ecs : ecs_client) : Ecs event :=
  fun self =>
    if _done self then (Raise StopIteration, self)
    else
      (primary_deployment <~ _get_primary_deployment ecs ;;
       release_image <~
         _get_release_image ecs (taskDefinition primary_deployment) ;;
       if negb (String.eqb release_image
                           (_component self +:+ ":" +:+ _version self))
       then raise ImageDoesNotMatchError
       else
         let running := runningCount primary_deployment in
         let desired := desiredCount primary_deployment in
         if negb (running =? desired)%Z
         then ret (InProgressEvent running desired)
         else fun self' => (Ok (DoneEvent running desired), set_done self'))
        self.

(** How a [for event in iterator] loop ends. *)
Inductive ending : Type :=
  | Stopped                (* StopIteration *)
  | Failed (e : exn)       (* any other exception *)
  | Polling.               (* the answers given ran out *)

(** [for event in iterator], the [n]-th call of [__next__] seeing the
    [n]-th element of [polls]: the events yielded, how the loop ended and
    the iterator it left. *)
Fixpoint iterate (polls : list ecs_client) (self : ECSEventIterator)
    : list event * ending * ECSEventIterator :=
  match polls with
  | [] => ([], Polling, self)
  | ecs :: later =>
      match __next__ ecs self with
      | (Ok ev, self') =>
          let '(evs, e, final) := iterate later self' in
          (ev :: evs, e, final)
      | (Raise StopIteration, self') => ([], Stopped, self')
      | (Raise e, self') => ([], Failed e, self')
      end
  end.

(** *** What a poll sees *)

(** [d] is the first deployment with status [PRIMARY] of the first
    service that [describe_services] reports for the service name. *)
Definition primary_of (ecs : ecs_client) (self : ECSEventIterator)
    (d : deployment) : Prop :=
  exists first_service others,
    describe_services ecs (_cluster self) [service_name self]
      = Reply (first_service :: others)
    /\ head (List.filter (fun d => String.eqb (status d) "PRIMARY")
                         (deployments first_service)) = Some d.

(** [release_image] is what [_get_release_image] yields for the task
    definition: the cached value, or else the piece after the first ['/']
    of the image of the first container definition. *)
Definition release_image_of (ecs : ecs_client) (self : ECSEventIterator)
    (task_definition_arn release_image : string) : Prop :=
  cache_lookup task_definition_arn (_release_images self)
    = Some release_image
  \/ (cache_lookup task_definition_arn (_release_images self) = None
      /\ exists container others registry rest,
           describe_task_definition ecs task_definition_arn
             = Reply (container :: others)
           /\ PyStr.split "/" (image container)
              = registry :: release_image :: rest).

Definition is_in_progress (ev : event) : Prop :=
  match ev with
  | InProgressEvent _ _ => True
  | DoneEvent _ _ => False
  end.

(** Zero or more [InProgress] events, then one [Done] event when the loop
    was stopped by [StopIteration], none when it failed, and at most one
    while it is still polling. *)
Definition progress_then_done (evs : list event) (e : ending) : Prop :=
  exists progress,
    Forall is_in_progress progress
    /\ match e with
       | Stopped => exists running desired,
           evs = progress ++ [DoneEvent running desired]
       | Failed _ => evs = progress
       | Polling =>
           evs = progress
           \/ exists running desired,
                evs = progress ++ [DoneEvent running desired]
       end.

(** *** Polls used as examples *)

Definition poll (running desired : Z) (container_image : string)
    : ecs_client := {|
  describe_services := fun _ _ =>
    Reply [{| deployments :=
                [{| status := "ACTIVE"; taskDefinition := "arn:task:6";
                    runningCount := 1; desiredCount := 0 |};
                 {| status := "PRIMARY"; taskDefinition := "arn:task:7";
                    runningCount := running;
                    desiredCount := desired |}] |}];
  describe_task_definition := fun _ =>
    Reply [{| image := container_image |}]
|}.

(** A service whose deployments are all draining. *)
Definition poll_without_primary : ecs_client := {|
  describe_services := fun _ _ =>
    Reply [{| deployments :=
                [{| status := "ACTIVE"; taskDefinition := "arn:task:6";
                    runningCount := 1; desiredCount := 0 |}] |}];
  describe_task_definition := fun _ => Reply [{| image := "registry/svc:1.2.3" |}]
|}.

Definition monitor : ECSEventIterator :=
  __init__ "cluster" "live" "svc" "1.2.3".

End EcsMonitor.

(** ** cdflow_commands/account.py *)

Module AccountModule.

Record Account := { alias : string; id : string; role : string }.

Definition DEFAULT_ENV_KEY : string := "*".

Record raw_account := { raw_id : string; raw_role : string }.

(** The configuration [AccountScheme.create] reads; ['lambda-bucket'] is
    optional, and the values of ['environments'] are strings by their
    type. *)
Record raw_scheme := {
  raw_accounts : gmap string raw_account;
  raw_release_account : string;
  raw_release_bucket : string;
  raw_lambda_bucket : option string;
  raw_default_region : string;
  raw_environments : gmap string string
}.

(** A [dict], or a [defaultdict] with the account its factory returns. *)
Record environment_mapping := {
  entries : gmap string Account;
  default_factory : option Account
}.

Record AccountScheme := {
  accounts : list Account;
  release_account : Account;
  release_bucket : string;
  lambda_bucket : string;
  default_region : string;
  _environment_mapping : environment_mapping
}.

(** [d[key]] on a plain [dict] *)
Definition getitem {V} (d : gmap string V) (key : string) : result V :=
  match d !! key with
  | Some v => Ok v
  | None => Raise (KeyError key)
  end.

(** Truth value of [raw_scheme['environments'].get('*')] *)
Definition truthy (value : option string) : bool :=
  match value with
  | Some s => negb (String.eqb s EmptyString)
  | None => false
  end.

(** [{env: accounts[raw_scheme['environments'][env]] for env in ...}]:
    the first alias that is no key of [accounts] raises [KeyError].  The
    comprehension visits the environments in the order of their insertion,
    which a [gmap] does not record: with several undefined aliases the one
    reported here is the first in the order of [map_to_list]. *)
Definition map_environments (environments : gmap string string)
    (accounts : gmap string Account) : result (gmap string Account) :=
  match List.find (fun entry => bool_decide (accounts !! entry.2 = None))
                  (map_to_list environments) with
  | Some entry => Raise (KeyError entry.2)
  | None => Ok (omap (fun account_alias => accounts !! account_alias)
                     environments)
  end.

Definition _get_env_mapping (environments : gmap string string)
    (accounts : gmap string Account) : result environment_mapping :=
  let default_env_alias := environments !! DEFAULT_ENV_KEY in
  match map_environments environments accounts with
  | Raise e => Raise e
  | Ok mapping =>
      if truthy default_env_alias then
        match getitem accounts (default EmptyString default_env_alias) with
        | Raise e => Raise e
        | Ok default_env =>
            Ok {| entries := mapping; default_factory := Some default_env |}
        end
      else Ok {| entries := mapping; default_factory := None |}
  end.

Definition create (raw : raw_scheme) : result AccountScheme :=
  let accounts :=
    map_imap (fun account_alias account =>
                Some {| alias := account_alias; id := raw_id account;
                        role := raw_role account |})
             (raw_accounts raw) in
  match _get_env_mapping (raw_environments raw) accounts with
  | Raise e => Raise e
  | Ok mapping =>
      match getitem accounts (raw_release_account raw) with
      | Raise e => Raise e
      | Ok release =>
          Ok {| accounts := (map_to_list accounts).*2;
                release_account := release;
                release_bucket := raw_release_bucket raw;
                lambda_bucket := default EmptyString (raw_lambda_bucket raw);
                default_region := raw_default_region raw;
                _environment_mapping := mapping |}
      end
  end.

Definition set_entries (d : gmap string Account) (self : AccountScheme)
    : AccountScheme :=
  {| accounts := accounts self; release_account := release_account self;
     release_bucket := release_bucket self;
     lambda_bucket := lambda_bucket self;
     default_region := default_region self;
     _environment_mapping :=
       {| entries := d;
          default_factory :=
            default_factory (_environment_mapping self) |} |}.

(** [self._environment_mapping[environment]]; a [defaultdict] stores the
    value its factory returns for a missing key. *)
Definition account_for_environment (environment : string)
    : M AccountScheme Account :=
  fun self =>
    let mapping := _environment_mapping self in
    match entries mapping !! environment with
    | Some account => (Ok account, self)
    | None =>
        match default_factory mapping with
        | Some default_env =>
            (Ok default_env,
             set_entries (<[environment := default_env]> (entries mapping))
                         self)
        | None => (Raise (KeyError environment), self)
        end
    end.

Definition account_ids (self : AccountScheme) : list string :=
  map id (accounts self).

(** *** Schemes in use *)

(** The scheme holds the mapping that [_get_env_mapping] built from
    [environments] and [accounts], up to the entries that lookups of
    unlisted environments have stored for the default account since. *)
Definition serves (environments : gmap string string)
    (accounts : gmap string Account) (self : AccountScheme) : Prop :=
  exists built,
    _get_env_mapping environments accounts = Ok built
    /\ default_factory (_environment_mapping self) = default_factory built
    /\ forall env,
         entries (_environment_mapping self) !! env = entries built !! env
         \/ (entries built !! env = None
             /\ is_Some (default_factory built)
             /\ entries (_environment_mapping self) !! env
                = default_factory built).

(** *** Schemes used as examples *)

Definition dev : Account :=
  {| alias := "dev"; id := "123456789"; role := "admin" |}.
Definition prod : Account :=
  {| alias := "prod"; id := "987654321"; role := "admin" |}.

Definition example_accounts : gmap string Account :=
  {[ "dev" := dev; "prod" := prod ]}.

Definition environments_with_default : gmap string string :=
  {[ "live" := "prod"; "*" := "dev" ]}.

Definition environments_without_default : gmap string string :=
  {[ "live" := "prod" ]}.

Definition scheme_with (mapping : environment_mapping) : AccountScheme :=
  {| accounts := [dev; prod]; release_account := dev;
     release_bucket := "release-bucket"; lambda_bucket := "lambda-bucket";
     default_region := "eu-west-1"; _environment_mapping := mapping |}.

(** The raw scheme of the examples above, and one whose wildcard names the
    account with the empty alias. *)
Definition example_raw_scheme : raw_scheme :=
  {| raw_accounts :=
       {[ "dev" := {| raw_id := "123456789"; raw_role := "admin" |};
          "prod" := {| raw_id := "987654321"; raw_role := "admin" |} ]};
     raw_release_account := "dev";
     raw_release_bucket := "release-bucket";
     raw_lambda_bucket := Some "lambda-bucket";
     raw_default_region := "eu-west-1";
     raw_environments := environments_with_default |}.

Definition nameless : Account :=
  {| alias := EmptyString; id := "555555555"; role := "admin" |}.

Definition accounts_with_nameless : gmap string Account :=
  {[ EmptyString := nameless; "prod" := prod ]}.

Definition environments_with_empty_default : gmap string string :=
  {[ "live" := "prod"; "*" := EmptyString ]}.

End AccountModule.

(** ** migrate_state *)

Module State.

Record s3_object := { Body : string; LastModified : Z }.

(** The objects of the account, by bucket and key, and the writes issued
    so far (oldest first). *)
Record object_store := {
  objects : gmap (string * string) s3_object;
  writes : list (string * string)
}.

Record migration := {
  old_bucket : string;
  new_bucket : string;
  team : string;
  component : string;
  environments : list string
}.

Definition legacy_key (m : migration) (environment : string) : string :=
  environment +:+ "/" +:+ component m +:+ "/terraform.tfstate".

Definition destination (m : migration) (environment : string) : string :=
  team m +:+ "/" +:+ component m +:+ "/" +:+ environment.

Definition state_key (m : migration) (environment : string) : string :=
  destination m environment +:+ "/terraform.tfstate".

Definition marker_key (m : migration) (environment : string) : string :=
  destination m environment +:+ "/MIGRATED".

(** [Object(bucket, key).put(Body=body)] at time [now] *)
Definition put_object (bucket key body : string) (now : Z)
    (s : object_store) : object_store :=
  {| objects :=
       <[(bucket, key) := {| Body := body; LastModified := now |}]>
         (objects s);
     writes := writes s ++ [(bucket, key)] |}.

(** Modelled from the spec: the body of [migrate_state] for one
    environment ([cdflow_commands/state.py] is not among the sources; only
    its tests are).  A marker at the destination means the environment was
    migrated: skip.  No legacy object: skip.  Otherwise copy the legacy
    object to the destination key, then write the marker with body ["1"]. *)
Definition migrate_environment (m : migration) (now : Z)
    (s : object_store) (environment : string) : object_store :=
  match objects s !! (new_bucket m, marker_key m environment) with
  | Some _ => s
  | None =>
      match objects s !! (old_bucket m, legacy_key m environment) with
      | None => s
      | Some legacy =>
          put_object (new_bucket m) (marker_key m environment) "1" now
            (put_object (new_bucket m) (state_key m environment)
                        (Body legacy) now s)
      end
  end.

(** Modelled from the spec: [migrate_state], run at time [now] over every
    environment of the account scheme in turn. *)
Definition migrate_state (m : migration) (now : Z) (s : object_store)
    : object_store :=
  foldl (migrate_environment m now) s (environments m).

(** How many writes went to the object at [key] of the new bucket. *)
Definition writes_to (m : migration) (key : string) (s : object_store)
    : nat :=
  length (List.filter
            (fun w => bool_decide (w = (new_bucket m, key))) (writes s)).

(** *** A migration used as an example *)

Definition example_migration : migration :=
  {| old_bucket := "cdflow-tfstate"; new_bucket := "backend-s3-bucket";
     team := "a-team"; component := "a-service";
     environments := ["ci"; "qa"] |}.

(** The legacy bucket holds the state of [qa], written at time 0; the
    component was never deployed to [ci]. *)
Definition legacy_store : object_store :=
  {| objects :=
       {[ ("cdflow-tfstate", "qa/a-service/terraform.tfstate")
          := {| Body := "qa state"; LastModified := 0 |} ]};
     writes := [] |}.

End State.

(** * Properties *)

(** ** Known answers of SHA-1 *)

Example sha1_abc :
  Sha1.sha1_hex "abc" = "a9993e364706816aba3e25717850c26c9cd0d89d".
Proof. vm_compute. reflexivity. Qed.

Example sha1_empty :
  Sha1.sha1_hex EmptyString = "da39a3ee5e6b4b0d3255bfef95601890afd80709".
Proof. vm_compute. reflexivity. Qed.

Example sha1_fox :
  Sha1.sha1_hex "The quick brown fox jumps over the lazy dog"
  = "2fd4e1c67a2d28fced849ee1bb76e7391b93eb12".
Proof. vm_compute. reflexivity. Qed.

Example sha1_two_blocks :
  Sha1.sha1_hex "abcdbcdecdefdefgefghfghighijhijkijkljklmklmnlmnomnopnopq"
  = "84983e441c3bd26ebaae4aa1f95129e5e54670f1".
Proof. vm_compute. reflexivity. Qed.

Example sha1_latin1 :
  Sha1.sha1_hex (String (ascii_of_nat 233) "t" +:+ String (ascii_of_nat 233) EmptyString)
  = "64d0cbc5f02c3904ee4f439ca476480b67b5e3e1".
Proof. vm_compute. reflexivity. Qed.


(** ** Python strings *)

Lemma append_nil (t : string) : EmptyString +:+ t = t.
Proof. reflexivity. Qed.

Lemma append_cons (c : ascii) (s t : string) :
  String c s +:+ t = String c (s +:+ t).
Proof. reflexivity. Qed.

Lemma length_append (s t : string) :
  String.length (s +:+ t) = String.length s + String.length t.
Proof.
  induction s as [|c s IH]; [reflexivity|].
  rewrite append_cons. simpl. by rewrite IH.
Qed.

Lemma length_slice_to (n : nat) (s : string) :
  String.length (PyStr.slice_to n s) = Nat.min n (String.length s).
Proof.
  revert s. induction n as [|n IH]; intros [|c s]; simpl; auto.
Qed.

Lemma append_inj_l (p a b : string) : p +:+ a = p +:+ b -> a = b.
Proof.
  induction p as [|c p IH]; [done|].
  rewrite !append_cons. intros [= H]. auto.
Qed.

Lemma append_inj_r (a b t : string) : a +:+ t = b +:+ t -> a = b.
Proof.
  revert b. induction a as [|c a IH]; intros [|c' b];
    rewrite ?append_nil, ?append_cons; [done| | |].
  - intros H. apply (f_equal String.length) in H. simpl in H.
    rewrite length_append in H. lia.
  - intros H. apply (f_equal String.length) in H. simpl in H.
    rewrite length_append in H. lia.
  - intros [= -> H]. f_equal. auto.
Qed.

(** Of two strings with a common end, the shorter end is an end of the
    longer one. *)
Lemma append_suffix (a b s t : string) :
  a +:+ s = b +:+ t ->
  String.length s <= String.length t ->
  exists p, t = p +:+ s.
Proof.
  revert b. induction a as [|c a IH]; intros [|c' b];
    rewrite ?append_nil, ?append_cons.
  - intros -> _. by exists EmptyString.
  - intros -> Hlen. simpl in Hlen. rewrite length_append in Hlen. lia.
  - intros <- _. by exists (String c a).
  - intros [= _ H]. eauto.
Qed.

Lemma split_nonempty (sep : ascii) (s : string) : PyStr.split sep s <> [].
Proof.
  induction s as [|c s IH]; simpl; [done|].
  destruct (Ascii.eqb c sep); [done|].
  by destruct (PyStr.split sep s).
Qed.

(** The image of a container, [registry/name:tag]: the piece before the
    first separator is the registry, the pieces after it are those of the
    rest. *)
Lemma split_after_first (sep : ascii) (registry rest : string) :
  PyStr.split sep registry = [registry] ->
  PyStr.split sep (registry +:+ String sep rest)
  = registry :: PyStr.split sep rest.
Proof.
  induction registry as [|c registry IH].
  - intros _. rewrite append_nil. simpl. by rewrite Ascii.eqb_refl.
  - rewrite append_cons. simpl.
    destruct (Ascii.eqb c sep).
    + intros [=].
    + destruct (PyStr.split sep registry) as [|piece pieces] eqn:Hsplit;
        [by apply split_nonempty in Hsplit|].
      intros [= -> ->]. by rewrite IH.
Qed.

(** A string without the separator is its own single piece. *)
Lemma split_without_separator (sep : ascii) (s : string) :
  PyStr.all_chars (fun c => negb (Ascii.eqb c sep)) s = true ->
  PyStr.split sep s = [s].
Proof.
  induction s as [|c s IH]; simpl; [done|].
  rewrite andb_true_iff, negb_true_iff. intros [-> Hs].
  by rewrite (IH Hs).
Qed.

(** ** The shape of a SHA-1 hex digest *)

Lemma all_chars_append (p : ascii -> bool) (s t : string) :
  PyStr.all_chars p (s +:+ t) = PyStr.all_chars p s && PyStr.all_chars p t.
Proof.
  induction s as [|c s IH]; [reflexivity|].
  rewrite append_cons. simpl. by rewrite IH, andb_assoc.
Qed.

Lemma all_chars_slice_to (p : ascii -> bool) (n : nat) (s : string) :
  PyStr.all_chars p s = true -> PyStr.all_chars p (PyStr.slice_to n s) = true.
Proof.
  revert s. induction n as [|n IH]; intros [|c s]; simpl; try done.
  rewrite !andb_true_iff. intros [Hc Hs]. auto.
Qed.

Lemma hex_digit_is_hex (x : Z) :
  PyStr.is_hex (Sha1.hex_digit (Z.land x 15)) = true.
Proof.
  change 15%Z with (Z.ones 4). rewrite Z.land_ones by lia.
  pose proof (Z.mod_pos_bound x (2 ^ 4) ltac:(lia)) as Hbound.
  change (2 ^ 4)%Z with 16%Z in *.
  assert (Hcases : (x mod 16 = 0 \/ x mod 16 = 1 \/ x mod 16 = 2
                    \/ x mod 16 = 3 \/ x mod 16 = 4 \/ x mod 16 = 5
                    \/ x mod 16 = 6 \/ x mod 16 = 7 \/ x mod 16 = 8
                    \/ x mod 16 = 9 \/ x mod 16 = 10 \/ x mod 16 = 11
                    \/ x mod 16 = 12 \/ x mod 16 = 13 \/ x mod 16 = 14
                    \/ x mod 16 = 15)%Z) by lia.
  repeat (destruct Hcases as [-> | Hcases]; [reflexivity|]).
  by rewrite Hcases.
Qed.

Lemma hex_word_shape (w : Z) :
  String.length (Sha1.hex_word w) = 8
  /\ PyStr.all_chars PyStr.is_hex (Sha1.hex_word w) = true.
Proof.
  unfold Sha1.hex_word. cbn [seq rev app fold_right].
  split; [reflexivity|].
  cbn [PyStr.all_chars]. by rewrite !hex_digit_is_hex.
Qed.

(** A digest is forty characters long, each a digit or a letter from [a]
    to [f]. *)
Lemma hexdigest_shape (data : list Z) :
  String.length (Sha1.hexdigest data) = 40
  /\ PyStr.all_chars PyStr.is_hex (Sha1.hexdigest data) = true.
Proof.
  unfold Sha1.hexdigest, Sha1.digest_words. cbv zeta.
  cbn [fold_right].
  rewrite !length_append, !all_chars_append.
  split.
  - repeat match goal with
           | |- context [String.length (Sha1.hex_word ?w)] =>
               rewrite (proj1 (hex_word_shape w))
           end.
    reflexivity.
  - repeat match goal with
           | |- context [PyStr.all_chars _ (Sha1.hex_word ?w)] =>
               rewrite (proj2 (hex_word_shape w))
           end.
    reflexivity.
Qed.
(** ** The call monad *)

Lemma bind_ok {S A B} (c : M S A) (k : A -> M S B) s a s' :
  c s = (Ok a, s') -> bind c k s = k a s'.
Proof. intros Hc. unfold bind. rewrite Hc. reflexivity. Qed.

Lemma bind_raise {S A B} (c : M S A) (k : A -> M S B) s e s' :
  c s = (Raise e, s') -> bind c k s = (Raise e, s').
Proof. intros Hc. unfold bind. rewrite Hc. reflexivity. Qed.

(** ** S3BucketFactory *)

Module S3Facts.
Import Terragrunt.

Lemma qualifiesb_true self bucket :
  qualifiesb self bucket = true <-> qualifying self bucket.
Proof.
  unfold qualifiesb, qualifying, carries_sentinel. split.
  - destruct (get_bucket_tagging _ bucket) as [tags|code]; [|done].
    destruct (get_bucket_location _ bucket) as [constraint|code'].
    + rewrite andb_true_iff, !bool_decide_eq_true.
      intros [Htag ->]. eauto.
    + rewrite andb_false_r. done.
  - intros [(tags & -> & Htag) ->].
    rewrite andb_true_iff, !bool_decide_eq_true. done.
Qed.

Lemma set_aside_not_qualifying self bucket :
  set_aside self bucket -> qualifiesb self bucket = false.
Proof.
  intros Haside. apply not_true_is_false. rewrite qualifiesb_true.
  intros [(tags & Htags & Htag) Hloc].
  destruct Haside as [[Hnone | (tags' & Htags' & Hno)]
                     | [_ (constraint & Hloc' & Hne)]]; congruence.
Qed.

(** One step of the comprehension: two read-only lookups at most, and a
    verdict whenever the lookups are answered. *)
Lemma qualifies_run self bucket log :
  exists calls,
    Forall quiet calls
    /\ (qualifies self bucket log
          = (Ok (qualifiesb self bucket), log ++ calls)
        \/ (~ (qualifying self bucket \/ set_aside self bucket)
            /\ exists code,
                 qualifies self bucket log
                   = (Raise (ClientError code), log ++ calls))).
Proof.
  unfold qualifies, _bucket_has_tag, _get_bucket_tags,
    _bucket_in_current_region, try_except_ClientError, bind, call, ret,
    raise, qualifiesb, qualifying, set_aside, lacks_sentinel,
    carries_sentinel.
  destruct (get_bucket_tagging _ bucket) as [tags|code] eqn:Htags; simpl.
  - case_bool_decide as Htag; simpl.
    + destruct (get_bucket_location _ bucket) as [constraint|code']
        eqn:Hloc; simpl.
      * exists [GetBucketTagging bucket; GetBucketLocation bucket].
        split; [repeat constructor|]. left.
        rewrite <- app_assoc. reflexivity.
      * exists [GetBucketTagging bucket; GetBucketLocation bucket].
        split; [repeat constructor|]. right. split.
        -- intros [[_ ?] | [[? | (? & ? & ?)] | [_ (? & ? & _)]]];
             congruence.
        -- exists code'. rewrite <- app_assoc. reflexivity.
    + exists [GetBucketTagging bucket]. split; [repeat constructor|].
      left. reflexivity.
  - case_decide as Hcode; simpl.
    + exists [GetBucketTagging bucket]. split; [repeat constructor|].
      left. reflexivity.
    + exists [GetBucketTagging bucket]. split; [repeat constructor|].
      right. split; [|eauto].
      intros [[(? & ? & _) _]
             | [[? | (? & ? & _)] | [(? & ? & _) _]]]; congruence.
Qed.

(** The comprehension yields the qualifying names in order, or stops at
    the first lookup that is refused. *)
Lemma filterM_qualifies self buckets log :
  exists calls,
    Forall quiet calls
    /\ (filterM (qualifies self) buckets log
          = (Ok (List.filter (qualifiesb self) buckets), log ++ calls)
        \/ (~ Forall (fun b => qualifying self b \/ set_aside self b)
                     buckets
            /\ exists code,
                 filterM (qualifies self) buckets log
                   = (Raise (ClientError code), log ++ calls))).
Proof.
  revert log. induction buckets as [|b buckets IH]; intros log.
  - exists []. split; [constructor|]. left. simpl. unfold ret.
    rewrite app_nil_r. reflexivity.
  - destruct (qualifies_run self b log) as (calls1 & Hq1 & Hrun).
    destruct Hrun as [Hok | (Hbad & code & Hraise)].
    + destruct (IH (log ++ calls1)) as (calls2 & Hq2 & Hrest).
      exists (calls1 ++ calls2). split; [by apply Forall_app|].
      simpl. rewrite (bind_ok _ _ _ _ _ Hok).
      destruct Hrest as [Hok2 | (Hbad2 & code & Hraise2)].
      * left. rewrite (bind_ok _ _ _ _ _ Hok2). unfold ret.
        rewrite app_assoc. by destruct (qualifiesb self b).
      * right. split.
        -- intros Hall. apply Hbad2. by inversion Hall.
        -- exists code. rewrite (bind_raise _ _ _ _ _ Hraise2).
           by rewrite app_assoc.
    + exists calls1. split; [done|]. right. split.
      * intros Hall. apply Hbad. by inversion Hall.
      * exists code. simpl. by rewrite (bind_raise _ _ _ _ _ Hraise).
Qed.

Lemma generate_bucket_name_eq self attempt :
  _generate_bucket_name self attempt
  = "cdflow-tfstate-"
      +:+ PyStr.slice_to 12
            (Sha1.sha1_hex (_aws_region self +:+ _account_id self
                            +:+ PyStr.str_nat attempt)).
Proof. reflexivity. Qed.

Lemma attempt_refused self attempt log :
  refused self attempt ->
  _attempt_to_create_bucket self (_generate_bucket_name self attempt) log
  = (Ok false, log ++ [creation self attempt]).
Proof.
  intros (code & Hcreate & Htaken).
  unfold _attempt_to_create_bucket, try_except_ClientError, bind, call.
  rewrite Hcreate. simpl.
  destruct Htaken as [-> | ->]; reflexivity.
Qed.

Lemma attempt_accepted self attempt log :
  accepted self attempt ->
  _attempt_to_create_bucket self (_generate_bucket_name self attempt) log
  = (Ok true, log ++ [creation self attempt]).
Proof.
  intros Hcreate.
  unfold _attempt_to_create_bucket, try_except_ClientError, bind, call.
  rewrite Hcreate. reflexivity.
Qed.

(** The loop walks through the refused attempts and returns at the first
    accepted one. *)
Lemma create_bucket_loop_accepted self taken attempt rest log :
  Forall (refused self) taken ->
  accepted self attempt ->
  _create_bucket_loop self (taken ++ attempt :: rest) log
  = (Ok (_generate_bucket_name self attempt),
     log ++ map (creation self) (taken ++ [attempt])).
Proof.
  intros Htaken Hacc. revert log.
  induction Htaken as [|n taken Hn _ IH]; intros log; simpl.
  - rewrite (bind_ok _ _ _ _ _ (attempt_accepted self attempt log Hacc)).
    reflexivity.
  - rewrite (bind_ok _ _ _ _ _ (attempt_refused self n log Hn)).
    rewrite IH, <- app_assoc. reflexivity.
Qed.

Lemma create_bucket_loop_exhausted self attempts log :
  Forall (refused self) attempts ->
  _create_bucket_loop self attempts log
  = (Raise (Exception attempts_exhausted_message),
     log ++ map (creation self) attempts).
Proof.
  intros Htaken. revert log.
  induction Htaken as [|n taken Hn _ IH]; intros log; simpl.
  - rewrite app_nil_r. reflexivity.
  - rewrite (bind_ok _ _ _ _ _ (attempt_refused self n log Hn)).
    rewrite IH, <- app_assoc. reflexivity.
Qed.

Lemma create_bucket_accepted self attempt log :
  attempt < MAX_CREATION_ATTEMPTS ->
  Forall (refused self) (seq 0 attempt) ->
  accepted self attempt ->
  _create_bucket self log
  = (Ok (_generate_bucket_name self attempt),
     log ++ map (creation self) (seq 0 (S attempt))).
Proof.
  intros Hlt Htaken Hacc. unfold _create_bucket.
  replace MAX_CREATION_ATTEMPTS
    with (attempt + S (MAX_CREATION_ATTEMPTS - S attempt)) by lia.
  rewrite seq_app. simpl seq at 2.
  rewrite (create_bucket_loop_accepted _ _ _ _ _ Htaken Hacc).
  replace (S attempt) with (attempt + 1) by lia.
  rewrite seq_app. reflexivity.
Qed.

Lemma Forall_elements (P : string -> Prop) (listing : list string) :
  Forall P listing ->
  Forall P (elements (list_to_set listing : gset string)).
Proof.
  rewrite !Forall_forall. intros HP b Hb. apply HP.
  by apply elem_of_elements, elem_of_list_to_set in Hb.
Qed.

Lemma filter_set_aside self buckets :
  Forall (set_aside self) buckets ->
  List.filter (qualifiesb self) buckets = [].
Proof.
  induction 1 as [|b buckets Hb _ IH]; [done|]. simpl.
  by rewrite (set_aside_not_qualifying _ _ Hb).
Qed.

(** With nothing to reuse, [get_bucket_name] goes on to create and tag a
    bucket once the listed buckets have been looked up. *)
Lemma get_bucket_name_none_qualifying self listing log :
  list_buckets (_boto_s3_client self) = Reply listing ->
  Forall (set_aside self) listing ->
  exists lookups,
    Forall quiet lookups
    /\ get_bucket_name self log
       = (bucket_name <~ _create_bucket self ;;
          _ <~ _tag_bucket self bucket_name ;;
          ret bucket_name) (log ++ lookups).
Proof.
  intros Hlist Haside.
  pose proof (Forall_elements _ _ Haside) as Haside'.
  destruct (filterM_qualifies self
              (elements (list_to_set listing : gset string))
              (log ++ [ListBuckets])) as (calls & Hquiet & Hrun).
  exists (ListBuckets :: calls). split; [by constructor|].
  destruct Hrun as [Hok | (Hbad & _)].
  - unfold get_bucket_name.
    erewrite bind_ok; [|unfold call; rewrite Hlist; reflexivity].
    erewrite bind_ok; [|exact Hok].
    rewrite (filter_set_aside _ _ Haside').
    rewrite list_to_set_nil, size_empty.
    repeat case_decide; try lia.
    by rewrite <- app_assoc.
  - exfalso. apply Hbad. eapply Forall_impl; [exact Haside'|].
    intros b Hb. by right.
Qed.

(** Two distinct qualifying names make the set of tagged buckets larger
    than one. *)
Lemma two_qualifying_size self listing b1 b2 :
  b1 ∈ listing -> b2 ∈ listing -> b1 <> b2 ->
  qualifying self b1 -> qualifying self b2 ->
  ~ size (list_to_set
            (List.filter (qualifiesb self)
               (elements (list_to_set listing : gset string)))
          : gset string) <= 1.
Proof.
  intros Hin1 Hin2 Hne Hq1 Hq2.
  set (found := list_to_set _ : gset string).
  assert (Hmem : forall b, b ∈ listing -> qualifying self b -> b ∈ found).
  { intros b Hin Hq. apply elem_of_list_to_set, list_elem_of_In, filter_In.
    split; [|by apply qualifiesb_true].
    by apply list_elem_of_In, elem_of_elements, elem_of_list_to_set. }
  assert (Hsub : ({[b1]} ∪ {[b2]} : gset string) ⊆ found).
  { apply union_subseteq. split; apply singleton_subseteq_l; auto. }
  apply subseteq_size in Hsub.
  rewrite size_union, !size_singleton in Hsub; [lia|].
  set_solver.
Qed.

(** [get_bucket_name] with two qualifying buckets: it raises, after
    read-only calls; the exception is the failed [assert] unless a lookup
    was refused before. *)
Lemma get_bucket_name_two_qualifying self listing b1 b2 log :
  list_buckets (_boto_s3_client self) = Reply listing ->
  b1 ∈ listing -> b2 ∈ listing -> b1 <> b2 ->
  qualifying self b1 -> qualifying self b2 ->
  exists e calls,
    get_bucket_name self log = (Raise e, log ++ calls)
    /\ Forall quiet calls
    /\ (e = AssertionError multiple_buckets_message
        \/ (~ Forall (fun b => qualifying self b \/ set_aside self b)
                     listing
            /\ exists code, e = ClientError code)).
Proof.
  intros Hlist Hin1 Hin2 Hne Hq1 Hq2.
  destruct (filterM_qualifies self
              (elements (list_to_set listing : gset string))
              (log ++ [ListBuckets])) as (calls & Hquiet & Hrun).
  destruct Hrun as [Hok | (Hbad & code & Hraise)].
  - exists (AssertionError multiple_buckets_message), (ListBuckets :: calls).
    split; [|split; [by constructor|by left]].
    unfold get_bucket_name.
    erewrite bind_ok; [|unfold call; rewrite Hlist; reflexivity].
    erewrite bind_ok; [|exact Hok].
    pose proof (two_qualifying_size self listing b1 b2 Hin1 Hin2 Hne Hq1 Hq2).
    case_decide; [done|].
    by rewrite <- app_assoc.
  - exists (ClientError code), (ListBuckets :: calls).
    split; [|split; [by constructor|]].
    + unfold get_bucket_name.
      erewrite bind_ok; [|unfold call; rewrite Hlist; reflexivity].
      erewrite bind_raise; [|exact Hraise].
      by rewrite <- app_assoc.
    + right. split; [|eauto]. intros Hall. apply Hbad.
      by apply Forall_elements.
Qed.

(** C1.  When no listed bucket qualifies, [get_bucket_name] creates one.
    The candidate name of attempt [n] is ["cdflow-tfstate-"] followed by
    the first 12 hex characters of the SHA-1 of region, account id and [n]
    concatenated.  While the storage API answers that the name is taken
    ([BucketAlreadyExists] or [BucketAlreadyOwnedByYou]) the next
    candidate is tried; the first candidate that is accepted is tagged and
    returned, and ten refusals in a row end in a fatal [Exception]. *)
Theorem get_bucket_name_creates_with_retry
    (self : S3BucketFactory) (listing : list string) (log : list s3_call) :
  list_buckets (_boto_s3_client self) = Reply listing ->
  Forall (set_aside self) listing ->
  (forall n,
      _generate_bucket_name self n
      = "cdflow-tfstate-"
          +:+ PyStr.slice_to 12
                (Sha1.sha1_hex (_aws_region self +:+ _account_id self
                                +:+ PyStr.str_nat n)))
  /\ (forall attempt,
        attempt < 10 ->
        Forall (refused self) (seq 0 attempt) ->
        accepted self attempt ->
        put_bucket_tagging (_boto_s3_client self)
          (_generate_bucket_name self attempt) [sentinel] = Reply tt ->
        exists lookups,
          Forall quiet lookups
          /\ get_bucket_name self log
             = (Ok (_generate_bucket_name self attempt),
                log ++ lookups
                    ++ map (creation self) (seq 0 (S attempt))
                    ++ [PutBucketTagging
                          (_generate_bucket_name self attempt) [sentinel]]))
  /\ (Forall (refused self) (seq 0 10) ->
      exists lookups,
        Forall quiet lookups
        /\ get_bucket_name self log
           = (Raise (Exception "could not create bucket after 10 attempts"),
              log ++ lookups ++ map (creation self) (seq 0 10))).
Proof.
  intros Hlist Haside.
  destruct (get_bucket_name_none_qualifying self listing log Hlist Haside)
    as (lookups & Hquiet & Hrun).
  split; [intros n; apply generate_bucket_name_eq|]. split.
  - intros attempt Hlt Htaken Hacc Htag.
    exists lookups. split; [done|]. rewrite Hrun.
    erewrite bind_ok;
      [|by apply (create_bucket_accepted self attempt)].
    unfold _tag_bucket, bind, call, ret. fold sentinel. rewrite Htag.
    by rewrite <- !app_assoc.
  - intros Htaken. exists lookups. split; [done|]. rewrite Hrun.
    erewrite bind_raise;
      [|by apply (create_bucket_loop_exhausted self (seq 0 10))].
    by rewrite <- app_assoc.
Qed.

Lemma get_bucket_name_creates_with_retry_witness :
  exists lookups,
    Forall quiet lookups
    /\ get_bucket_name factory_with_collision []
       = (Ok "cdflow-tfstate-3b85b4502387",
          [] ++ lookups
             ++ [CreateBucket "cdflow-tfstate-c3ab7bee01ca" "eu-west-1";
                 CreateBucket "cdflow-tfstate-3b85b4502387" "eu-west-1"]
             ++ [PutBucketTagging "cdflow-tfstate-3b85b4502387" [sentinel]]).
Proof.
  assert (Haside : Forall (set_aside factory_with_collision)
                          ["logs"; "state-elsewhere"]).
  { constructor; [|constructor; [|constructor]].
    - left. left. reflexivity.
    - right. split.
      + exists [sentinel]. split; vm_compute; reflexivity.
      + exists (Some "us-west-2"). split; [reflexivity | discriminate]. }
  assert (Hrefused : Forall (refused factory_with_collision) (seq 0 1)).
  { constructor; [|constructor].
    exists (Some "BucketAlreadyExists").
    split; [vm_compute; reflexivity | left; reflexivity]. }
  assert (Haccepted : accepted factory_with_collision 1).
  { vm_compute. reflexivity. }
  exact (proj1 (proj2 (get_bucket_name_creates_with_retry
                         factory_with_collision ["logs"; "state-elsewhere"]
                         [] eq_refl Haside))
           1 ltac:(lia) Hrefused Haccepted eq_refl).
Defined.

(** A refused lookup leaves the bucket without a verdict. *)
Lemma lookup_refused_unanswered self bucket code :
  lookup_refused self bucket code ->
  ~ (qualifying self bucket \/ set_aside self bucket).
Proof.
  unfold lookup_refused, qualifying, set_aside, lacks_sentinel,
    carries_sentinel.
  intros [[Htags Hcode] | [(tags & Htags & Htag) Hloc]]
         [[(t & ? & ?) ?]
         | [[? | (t & ? & ?)] | [(t & ? & ?) (c & ? & ?)]]];
    congruence.
Qed.

(** One step of the comprehension: the verdict on a bucket whose lookups
    are answered, or the [ClientError] of the lookup that is refused. *)
Lemma qualifies_verdict self bucket log :
  exists calls,
    Forall quiet calls
    /\ (((qualifying self bucket \/ set_aside self bucket)
         /\ qualifies self bucket log
            = (Ok (qualifiesb self bucket), log ++ calls))
        \/ exists code,
             lookup_refused self bucket code
             /\ qualifies self bucket log
                = (Raise (ClientError code), log ++ calls)).
Proof.
  unfold qualifies, _bucket_has_tag, _get_bucket_tags,
    _bucket_in_current_region, try_except_ClientError, bind, call, ret,
    raise, qualifiesb, lookup_refused, qualifying, set_aside,
    lacks_sentinel, carries_sentinel.
  destruct (get_bucket_tagging _ bucket) as [tags|code] eqn:Htags; simpl.
  - case_bool_decide as Htag; simpl.
    + destruct (get_bucket_location _ bucket) as [constraint|code']
        eqn:Hloc; simpl.
      * exists [GetBucketTagging bucket; GetBucketLocation bucket].
        split; [repeat constructor|]. left. split.
        -- destruct (decide (constraint = Some (_aws_region self)))
             as [-> | Hne]; [left | right; right]; eauto 10.
        -- rewrite <- app_assoc. reflexivity.
      * exists [GetBucketTagging bucket; GetBucketLocation bucket].
        split; [repeat constructor|]. right. exists code'. split.
        -- right. eauto.
        -- rewrite <- app_assoc. reflexivity.
    + exists [GetBucketTagging bucket]. split; [repeat constructor|].
      left. split; [|reflexivity]. right. left. right. eauto.
  - case_decide as Hcode; simpl.
    + exists [GetBucketTagging bucket]. split; [repeat constructor|].
      left. split; [|reflexivity]. right. left. left. by subst.
    + exists [GetBucketTagging bucket]. split; [repeat constructor|].
      right. exists code. split; [by left | reflexivity].
Qed.

(** The comprehension yields the qualifying names when every lookup is
    answered, and otherwise raises the [ClientError] of a refused lookup
    of one of the buckets. *)
Lemma filterM_verdict self buckets : forall log,
  exists calls,
    Forall quiet calls
    /\ ((Forall (fun b => qualifying self b \/ set_aside self b) buckets
         /\ filterM (qualifies self) buckets log
            = (Ok (List.filter (qualifiesb self) buckets), log ++ calls))
        \/ exists bucket code,
             bucket ∈ buckets
             /\ lookup_refused self bucket code
             /\ filterM (qualifies self) buckets log
                = (Raise (ClientError code), log ++ calls)).
Proof.
  induction buckets as [|b buckets IH]; intros log.
  - exists []. split; [constructor|]. left. split; [constructor|].
    simpl. unfold ret. by rewrite app_nil_r.
  - destruct (qualifies_verdict self b log)
      as (calls1 & Hq1 & [[Hb Hok] | (code & Hrefused & Hraise)]).
    + destruct (IH (log ++ calls1))
        as (calls2 & Hq2 & [[Hall Hok2]
                           | (bucket & code & Hin & Hrefused & Hraise2)]).
      * exists (calls1 ++ calls2). split; [by apply Forall_app|].
        left. split; [by constructor|].
        simpl. rewrite (bind_ok _ _ _ _ _ Hok), (bind_ok _ _ _ _ _ Hok2).
        unfold ret. rewrite app_assoc. by destruct (qualifiesb self b).
      * exists (calls1 ++ calls2). split; [by apply Forall_app|].
        right. exists bucket, code. split; [by right|]. split; [done|].
        simpl. rewrite (bind_ok _ _ _ _ _ Hok).
        rewrite (bind_raise _ _ _ _ _ Hraise2). by rewrite app_assoc.
    + exists calls1. split; [done|]. right. exists b, code.
      split; [by left|]. split; [done|].
      simpl. by rewrite (bind_raise _ _ _ _ _ Hraise).
Qed.

(** C2, as the code has it.  With two or more listed buckets that carry
    the sentinel tag and lie in the caller's region, [get_bucket_name]
    raises after read-only calls: it returns no name and creates no
    bucket.  The exception is never [MultipleBucketsError].  It is the
    [AssertionError] of the [assert] whenever the lookups of all listed
    buckets are answered; otherwise it is the [ClientError] of a refused
    lookup of a listed bucket, with the code of that lookup. *)
Theorem get_bucket_name_multiple_buckets
    (self : S3BucketFactory) (listing : list string) (b1 b2 : string)
    (log : list s3_call) :
  list_buckets (_boto_s3_client self) = Reply listing ->
  b1 ∈ listing -> b2 ∈ listing -> b1 <> b2 ->
  qualifying self b1 -> qualifying self b2 ->
  exists e calls,
    get_bucket_name self log = (Raise e, log ++ calls)
    /\ Forall quiet calls
    /\ e <> MultipleBucketsError
    /\ (Forall (fun b => qualifying self b \/ set_aside self b) listing ->
        e = AssertionError
              "multiple buckets with is-cdflow-tfstate-bucket=true tag found")
    /\ (~ Forall (fun b => qualifying self b \/ set_aside self b) listing ->
        exists bucket code,
          bucket ∈ listing
          /\ lookup_refused self bucket code
          /\ e = ClientError code).
Proof.
  intros Hlist Hin1 Hin2 Hne Hq1 Hq2.
  assert (Hlisted : forall b,
             b ∈ elements (list_to_set listing : gset string)
             <-> b ∈ listing).
  { intros b. by rewrite elem_of_elements, elem_of_list_to_set. }
  destruct (filterM_verdict self
              (elements (list_to_set listing : gset string))
              (log ++ [ListBuckets]))
    as (calls & Hquiet & [[Hall Hok]
                         | (bucket & code & Hin & Hrefused & Hraise)]).
  - exists (AssertionError multiple_buckets_message), (ListBuckets :: calls).
    split; [|split; [by constructor|]].
    + unfold get_bucket_name.
      erewrite bind_ok; [|unfold call; rewrite Hlist; reflexivity].
      erewrite bind_ok; [|exact Hok].
      pose proof (two_qualifying_size self listing b1 b2
                    Hin1 Hin2 Hne Hq1 Hq2).
      case_decide; [done|].
      by rewrite <- app_assoc.
    + split; [discriminate|]. split; [done|].
      intros Hnot. exfalso. apply Hnot.
      rewrite Forall_forall in Hall. apply Forall_forall.
      intros b Hb. by apply Hall, Hlisted.
  - exists (ClientError code), (ListBuckets :: calls).
    split; [|split; [by constructor|]].
    + unfold get_bucket_name.
      erewrite bind_ok; [|unfold call; rewrite Hlist; reflexivity].
      erewrite bind_raise; [|exact Hraise].
      by rewrite <- app_assoc.
    + apply Hlisted in Hin.
      split; [discriminate|]. split.
      * intros Hall. rewrite Forall_forall in Hall.
        by destruct (lookup_refused_unanswered self bucket code Hrefused);
          apply Hall.
      * intros _. by exists bucket, code.
Qed.

Lemma two_buckets_qualify :
  qualifying factory_with_two_buckets "state-bucket"
  /\ qualifying factory_with_two_buckets "another-state-bucket".
Proof.
  split; (split; [exists [sentinel]; split; vm_compute; reflexivity
                 | reflexivity]).
Defined.

Lemma get_bucket_name_multiple_buckets_witness :
  exists e calls,
    get_bucket_name factory_with_two_buckets [] = (Raise e, [] ++ calls)
    /\ Forall quiet calls
    /\ e <> MultipleBucketsError
    /\ (Forall (fun b => qualifying factory_with_two_buckets b
                         \/ set_aside factory_with_two_buckets b)
               ["state-bucket"; "another-state-bucket"] ->
        e = AssertionError
              "multiple buckets with is-cdflow-tfstate-bucket=true tag found")
    /\ (~ Forall (fun b => qualifying factory_with_two_buckets b
                           \/ set_aside factory_with_two_buckets b)
                 ["state-bucket"; "another-state-bucket"] ->
        exists bucket code,
          bucket ∈ ["state-bucket"; "another-state-bucket"]
          /\ lookup_refused factory_with_two_buckets bucket code
          /\ e = ClientError code).
Proof.
  apply (get_bucket_name_multiple_buckets factory_with_two_buckets
           ["state-bucket"; "another-state-bucket"]
           "state-bucket" "another-state-bucket" []).
  - reflexivity.
  - apply list_elem_of_In. simpl. auto.
  - apply list_elem_of_In. simpl. auto.
  - discriminate.
  - exact (proj1 two_buckets_qualify).
  - exact (proj2 two_buckets_qualify).
Defined.

(** C2 as stated fails: with the two tagged buckets of the caller's region
    of [test_assertion_error_on_multiple_buckets], the exception raised is
    [AssertionError], not [MultipleBucketsError]. *)
Lemma get_bucket_name_multiple_buckets_counterexample :
  qualifying factory_with_two_buckets "state-bucket"
  /\ qualifying factory_with_two_buckets "another-state-bucket"
  /\ (get_bucket_name factory_with_two_buckets []).1
     = Raise (AssertionError
                "multiple buckets with is-cdflow-tfstate-bucket=true tag found")
  /\ (get_bucket_name factory_with_two_buckets []).1
     <> Raise MultipleBucketsError.
Proof.
  split; [exact (proj1 two_buckets_qualify)|].
  split; [exact (proj2 two_buckets_qualify)|].
  split; [vm_compute; reflexivity | vm_compute; discriminate].
Qed.

(** Two qualifying buckets beside one whose tags may not be read: the
    refusal is what [get_bucket_name] raises, and nothing was created. *)
Example get_bucket_name_two_buckets_and_forbidden :
  lookup_refused factory_with_two_buckets_and_forbidden "forbidden-bucket"
                 (Some "AccessDenied")
  /\ (get_bucket_name factory_with_two_buckets_and_forbidden []).1
     = Raise (ClientError (Some "AccessDenied"))
  /\ Forall quiet (get_bucket_name factory_with_two_buckets_and_forbidden []).2.
Proof.
  split; [left; split; [reflexivity | discriminate]|].
  split; [vm_compute; reflexivity|].
  vm_compute. repeat constructor.
Qed.

(** A [None] location constraint never equals the region of the caller. *)
Lemma none_location_never_qualifies self bucket :
  get_bucket_location (_boto_s3_client self) bucket = Reply None ->
  qualifiesb self bucket = false.
Proof.
  intros Hloc. unfold qualifiesb. rewrite Hloc.
  destruct (get_bucket_tagging _ bucket); [|done].
  by rewrite andb_false_r.
Qed.

(** C8, the code at the input of
    [test_existing_bucket_name_returned_when_in_us_standard_region]: the
    caller's region is ["us-east-1"], the only bucket carries the sentinel
    tag and its location constraint is reported as [None].  The bucket is
    not reused: a new bucket is created, tagged and returned. *)
Theorem get_bucket_name_us_standard :
  carries_sentinel factory_in_us_standard "dummy-bucket-name"
  /\ get_bucket_location account_in_us_standard "dummy-bucket-name"
     = Reply None
  /\ get_bucket_name factory_in_us_standard []
     = (Ok "cdflow-tfstate-a5c5b8ebc124",
        [ListBuckets;
         GetBucketTagging "dummy-bucket-name";
         GetBucketLocation "dummy-bucket-name";
         CreateBucket "cdflow-tfstate-a5c5b8ebc124" "us-east-1";
         PutBucketTagging "cdflow-tfstate-a5c5b8ebc124" [sentinel]]).
Proof.
  split; [|split].
  - exists [sentinel]. split; vm_compute; reflexivity.
  - reflexivity.
  - vm_compute. reflexivity.
Qed.

End S3Facts.

(** ** S3BucketFactory: reuse, failures and the calls it issues *)

Module S3More.
Import Terragrunt S3Facts.

(** A lookup that is refused raises the error of the refusal. *)
Lemma qualifies_refused self bucket code log :
  (get_bucket_tagging (_boto_s3_client self) bucket = Error code
   /\ code <> Some "NoSuchTagSet")
  \/ (carries_sentinel self bucket
      /\ get_bucket_location (_boto_s3_client self) bucket = Error code) ->
  exists calls,
    Forall quiet calls
    /\ qualifies self bucket log = (Raise (ClientError code), log ++ calls).
Proof.
  unfold qualifies, _bucket_has_tag, _get_bucket_tags,
    _bucket_in_current_region, try_except_ClientError, bind, call, ret,
    raise, carries_sentinel.
  intros [[Htags Hcode] | [(tags & Htags & Htag) Hloc]]; rewrite Htags; simpl.
  - rewrite decide_False; [|done]. simpl.
    exists [GetBucketTagging bucket]. split; [|done].
    by repeat constructor.
  - rewrite bool_decide_eq_true_2; [|done]. simpl. rewrite Hloc.
    exists [GetBucketTagging bucket; GetBucketLocation bucket].
    split; [by repeat constructor|]. by rewrite <- app_assoc.
Qed.

(** The location of a bucket is asked for only after its tag was found. *)
Lemma qualifies_calls self bucket log :
  exists r calls,
    qualifies self bucket log = (r, log ++ calls)
    /\ Forall quiet calls
    /\ forall b, GetBucketLocation b ∈ calls -> carries_sentinel self b.
Proof.
  unfold qualifies, _bucket_has_tag, _get_bucket_tags,
    _bucket_in_current_region, try_except_ClientError, bind, call, ret,
    raise, carries_sentinel.
  destruct (get_bucket_tagging _ bucket) as [tags|code] eqn:Htags; simpl.
  - case_bool_decide as Htag; simpl.
    + exists (match get_bucket_location (_boto_s3_client self) bucket with
              | Reply a => Ok (bool_decide (a = Some (_aws_region self)))
              | Error code => Raise (ClientError code)
              end), [GetBucketTagging bucket; GetBucketLocation bucket].
      rewrite <- app_assoc.
      split; [by destruct (get_bucket_location _ bucket)|].
      split; [by repeat constructor|].
      intros b Hb. apply list_elem_of_In in Hb. simpl in Hb.
      destruct Hb as [[=] | [[= <-] | []]]. eauto.
    + do 2 eexists. split; [reflexivity|]. split; [by repeat constructor|].
      intros b Hb. apply list_elem_of_In in Hb. simpl in Hb.
      by destruct Hb as [[=] | []].
  - case_decide; simpl.
    + do 2 eexists. split; [reflexivity|]. split; [by repeat constructor|].
      intros b Hb. apply list_elem_of_In in Hb. simpl in Hb.
      by destruct Hb as [[=] | []].
    + do 2 eexists. split; [reflexivity|]. split; [by repeat constructor|].
      intros b Hb. apply list_elem_of_In in Hb. simpl in Hb.
      by destruct Hb as [[=] | []].
Qed.

Lemma filterM_calls self buckets log :
  exists r calls,
    filterM (qualifies self) buckets log = (r, log ++ calls)
    /\ Forall quiet calls
    /\ forall b, GetBucketLocation b ∈ calls -> carries_sentinel self b.
Proof.
  revert log. induction buckets as [|x buckets IH]; intros log.
  - exists (Ok []), []. rewrite app_nil_r. split; [done|].
    split; [constructor|]. intros b Hb. by apply elem_of_nil in Hb.
  - destruct (qualifies_calls self x log) as (r1 & calls1 & Hrun1 & Hq1 & Hl1).
    simpl. unfold bind at 1. rewrite Hrun1.
    destruct r1 as [keep|e].
    + destruct (IH (log ++ calls1)) as (r2 & calls2 & Hrun2 & Hq2 & Hl2).
      unfold bind at 1. rewrite Hrun2.
      exists (match r2 with
              | Ok rest => Ok (if keep then x :: rest else rest)
              | Raise e => Raise e
              end), (calls1 ++ calls2).
      split; [destruct r2; by rewrite app_assoc|].
      split; [by apply Forall_app|].
      intros b Hb. apply elem_of_app in Hb as [Hb | Hb]; auto.
    + exists (Raise e), calls1. done.
Qed.

Lemma filterM_refused self buckets bucket code log :
  bucket ∈ buckets ->
  ((get_bucket_tagging (_boto_s3_client self) bucket = Error code
    /\ code <> Some "NoSuchTagSet")
   \/ (carries_sentinel self bucket
       /\ get_bucket_location (_boto_s3_client self) bucket = Error code)) ->
  exists code' calls,
    Forall quiet calls
    /\ filterM (qualifies self) buckets log
       = (Raise (ClientError code'), log ++ calls).
Proof.
  intros Hin Hrefused. revert log.
  induction buckets as [|x buckets IH]; intros log;
    [by apply elem_of_nil in Hin|].
  destruct (qualifies_run self x log) as (calls1 & Hq1 & Hrun).
  destruct Hrun as [Hok | (_ & code1 & Hraise)].
  - apply elem_of_cons in Hin as [<- | Hin].
    + destruct (qualifies_refused self bucket code log Hrefused)
        as (calls & _ & Hraise). congruence.
    + destruct (IH Hin (log ++ calls1)) as (code' & calls2 & Hq2 & Hrun2).
      exists code', (calls1 ++ calls2). split; [by apply Forall_app|].
      simpl. rewrite (bind_ok _ _ _ _ _ Hok).
      rewrite (bind_raise _ _ _ _ _ Hrun2). by rewrite app_assoc.
  - exists code1, calls1. split; [done|].
    simpl. by rewrite (bind_raise _ _ _ _ _ Hraise).
Qed.

(** X1.  A single qualifying bucket among buckets that are set aside is the
    name [get_bucket_name] returns, after read-only calls. *)
Theorem get_bucket_name_reuses
    (self : S3BucketFactory) (listing : list string) (bucket : string)
    (log : list s3_call) :
  list_buckets (_boto_s3_client self) = Reply listing ->
  bucket ∈ listing ->
  qualifying self bucket ->
  Forall (fun b => b = bucket \/ set_aside self b) listing ->
  exists lookups,
    Forall quiet lookups
    /\ get_bucket_name self log = (Ok bucket, log ++ lookups).
Proof.
  intros Hlist Hin Hq Hrest.
  destruct (filterM_qualifies self
              (elements (list_to_set listing : gset string))
              (log ++ [ListBuckets])) as (calls & Hquiet & Hrun).
  exists (ListBuckets :: calls). split; [by constructor|].
  destruct Hrun as [Hok | (Hbad & _)].
  - assert (Hfound : (list_to_set
                        (List.filter (qualifiesb self)
                           (elements (list_to_set listing : gset string)))
                      : gset string) = {[bucket]}).
    { apply set_eq. intros b.
      rewrite elem_of_list_to_set, list_elem_of_In, filter_In,
        <- list_elem_of_In, elem_of_elements, elem_of_list_to_set,
        elem_of_singleton.
      split.
      - intros [Hb Hqb]. rewrite Forall_forall in Hrest.
        destruct (Hrest b Hb) as [-> | Haside]; [done|].
        apply set_aside_not_qualifying in Haside. congruence.
      - intros ->. split; [done|]. by apply qualifiesb_true. }
    unfold get_bucket_name.
    erewrite bind_ok; [|unfold call; rewrite Hlist; reflexivity].
    erewrite bind_ok; [|exact Hok].
    rewrite Hfound, size_singleton, elements_singleton.
    repeat case_decide; try lia. unfold ret. by rewrite <- app_assoc.
  - exfalso. apply Hbad. apply Forall_elements.
    eapply Forall_impl; [exact Hrest|].
    intros b [-> | Haside]; [by left | by right].
Qed.

Lemma get_bucket_name_reuses_witness :
  exists lookups,
    Forall quiet lookups
    /\ get_bucket_name factory_with_state_bucket []
       = (Ok "state-bucket", [] ++ lookups).
Proof.
  apply (get_bucket_name_reuses factory_with_state_bucket
           ["another-bucket"; "state-bucket"]).
  - reflexivity.
  - apply list_elem_of_In. simpl. auto.
  - split; [exists [sentinel]; split; vm_compute; reflexivity | reflexivity].
  - constructor; [|constructor; [|constructor]].
    + right. left. left. reflexivity.
    + left. reflexivity.
Defined.

(** X2.  A tag lookup refused with another code than [NoSuchTagSet], or a
    refused location lookup of a tagged bucket, makes [get_bucket_name]
    raise a [ClientError] after read-only calls, whatever else the account
    holds. *)
Theorem get_bucket_name_refused_lookup
    (self : S3BucketFactory) (listing : list string) (bucket : string)
    (code : option string) (log : list s3_call) :
  list_buckets (_boto_s3_client self) = Reply listing ->
  bucket ∈ listing ->
  ((get_bucket_tagging (_boto_s3_client self) bucket = Error code
    /\ code <> Some "NoSuchTagSet")
   \/ (carries_sentinel self bucket
       /\ get_bucket_location (_boto_s3_client self) bucket = Error code)) ->
  exists code' calls,
    Forall quiet calls
    /\ get_bucket_name self log = (Raise (ClientError code'), log ++ calls).
Proof.
  intros Hlist Hin Hrefused.
  destruct (filterM_refused self
              (elements (list_to_set listing : gset string)) bucket code
              (log ++ [ListBuckets])) as (code' & calls & Hquiet & Hrun);
    [by apply elem_of_elements, elem_of_list_to_set | done |].
  exists code', (ListBuckets :: calls). split; [by constructor|].
  unfold get_bucket_name.
  erewrite bind_ok; [|unfold call; rewrite Hlist; reflexivity].
  erewrite bind_raise; [|exact Hrun]. by rewrite <- app_assoc.
Qed.

Lemma get_bucket_name_refused_lookup_witness :
  exists code' calls,
    Forall quiet calls
    /\ get_bucket_name factory_with_forbidden_bucket []
       = (Raise (ClientError code'), [] ++ calls).
Proof.
  apply (get_bucket_name_refused_lookup factory_with_forbidden_bucket
           ["another-bucket"; "state-bucket"] "another-bucket"
           (Some "AccessDenied")).
  - reflexivity.
  - apply list_elem_of_In. simpl. auto.
  - left. split; [reflexivity | discriminate].
Defined.

Lemma name_taken_decide code :
  (bool_decide (code = Some "BucketAlreadyExists")
   || bool_decide (code = Some "BucketAlreadyOwnedByYou")) = true
  <-> name_taken code.
Proof.
  unfold name_taken. rewrite orb_true_iff, !bool_decide_eq_true. done.
Qed.

(** Every way the creation loop can go, over the attempts
    [start, start + 1, ...]. *)
Lemma create_bucket_loop_run self n : forall start log,
  exists r k,
    k <= n
    /\ _create_bucket_loop self (seq start n) log
       = (r, log ++ map (creation self) (seq start k))
    /\ match r with
       | Ok name =>
           exists j,
             k = S j /\ Forall (refused self) (seq start j)
             /\ accepted self (start + j)
             /\ name = _generate_bucket_name self (start + j)
       | Raise e =>
           (k = n /\ Forall (refused self) (seq start n)
            /\ e = Exception attempts_exhausted_message)
           \/ exists j code,
                k = S j /\ Forall (refused self) (seq start j)
                /\ create_bucket (_boto_s3_client self)
                     (_generate_bucket_name self (start + j))
                     (_aws_region self) = Error code
                /\ ~ name_taken code
                /\ e = ClientError code
       end.
Proof.
  induction n as [|n IH]; intros start log.
  - exists (Raise (Exception attempts_exhausted_message)), 0.
    split; [done|]. split; [simpl; by rewrite app_nil_r|].
    left. split; [done|]. split; [constructor | done].
  - simpl seq.
    destruct (create_bucket (_boto_s3_client self)
                (_generate_bucket_name self start) (_aws_region self))
      as [[]|code] eqn:Hcreate.
    + exists (Ok (_generate_bucket_name self start)), 1.
      split; [lia|]. split.
      * simpl. by rewrite (bind_ok _ _ _ _ _
                             (attempt_accepted self start log Hcreate)).
      * exists 0. rewrite Nat.add_0_r. split; [done|].
        split; [constructor | done].
    + destruct (bool_decide (code = Some "BucketAlreadyExists")
                || bool_decide (code = Some "BucketAlreadyOwnedByYou"))
        eqn:Htaken.
      * assert (Hrefused : refused self start).
        { exists code. split; [done|]. by apply name_taken_decide. }
        destruct (IH (S start) (log ++ [creation self start]))
          as (r & k & Hk & Hrun & Hr).
        exists r, (S k). split; [lia|]. split.
        -- simpl. rewrite (bind_ok _ _ _ _ _
                             (attempt_refused self start log Hrefused)).
           rewrite Hrun. by rewrite <- app_assoc.
        -- destruct r as [name|e].
           ++ destruct Hr as (j & -> & Hj & Hacc & ->).
              exists (S j). rewrite Nat.add_succ_r. split; [done|].
              split; [simpl; by constructor | done].
           ++ destruct Hr as [(-> & Hall & ->)
                             | (j & code' & -> & Hj & Hc & Hn & ->)].
              ** left. split; [done|]. split; [simpl; by constructor|done].
              ** right. exists (S j), code'. rewrite Nat.add_succ_r.
                 split; [done|]. split; [simpl; by constructor | done].
      * exists (Raise (ClientError code)), 1.
        split; [lia|]. split.
        -- simpl. unfold bind, _attempt_to_create_bucket,
             try_except_ClientError, call. rewrite Hcreate. simpl.
           by rewrite Htaken.
        -- right. exists 0, code. rewrite Nat.add_0_r. split; [done|].
           split; [constructor|]. split; [done|]. split; [|done].
           intros Hname. apply name_taken_decide in Hname. congruence.
Qed.

(** Every way [get_bucket_name] can go: the listing, the lookups, then at
    most ten creations of successive candidates and at most one tagging, of
    the bucket created last. *)
Lemma get_bucket_name_run self log :
  exists r lookups attempts tagging,
    get_bucket_name self log
    = (r, log ++ ListBuckets :: lookups
              ++ map (creation self) (seq 0 attempts) ++ tagging)
    /\ Forall quiet lookups
    /\ (forall b, GetBucketLocation b ∈ lookups -> carries_sentinel self b)
    /\ attempts <= 10
    /\ (tagging = []
        \/ exists attempt,
             attempts = S attempt /\ accepted self attempt
             /\ tagging = [PutBucketTagging
                             (_generate_bucket_name self attempt) [sentinel]])
    /\ match r with
       | Ok name =>
           (attempts = 0 /\ tagging = [] /\ qualifying self name)
           \/ exists attempt,
                attempts = S attempt
                /\ name = _generate_bucket_name self attempt
                /\ Forall (refused self) (seq 0 attempt)
                /\ accepted self attempt
                /\ put_bucket_tagging (_boto_s3_client self) name [sentinel]
                   = Reply tt
                /\ tagging = [PutBucketTagging name [sentinel]]
       | Raise _ => True
       end.
Proof.
  unfold get_bucket_name.
  destruct (list_buckets (_boto_s3_client self)) as [listing|code] eqn:Hlist.
  2: { exists (Raise (ClientError code)), [], 0, [].
       split; [done|].
       split; [constructor|]. split; [intros b Hb; by apply elem_of_nil in Hb|].
       split; [lia|]. split; [by left | done]. }
  erewrite bind_ok; [|unfold call; reflexivity].
  destruct (filterM_calls self (elements (list_to_set listing : gset string))
              (log ++ [ListBuckets])) as (r1 & lookups & Hrun1 & Hq & Hloc).
  unfold bind at 1. rewrite Hrun1.
  destruct r1 as [found|e].
  2: { exists (Raise e), lookups, 0, []. simpl. rewrite app_nil_r.
       split; [by rewrite <- app_assoc|]. split; [done|]. split; [done|].
       split; [lia|]. split; [by left | done]. }
  assert (Hfound : forall b, b ∈ found -> qualifying self b).
  { destruct (filterM_qualifies self
                (elements (list_to_set listing : gset string))
                (log ++ [ListBuckets])) as (calls' & _ & [Hok | (_ & c & Hr)]);
      [|congruence].
    rewrite Hrun1 in Hok. injection Hok as -> _.
    intros b Hb. apply list_elem_of_In, filter_In in Hb as [_ Hb].
    by apply qualifiesb_true. }
  case_decide as Hsize.
  - case_decide as Hone.
    + destruct (elements (list_to_set found : gset string))
        as [|b others] eqn:Helements.
      * exists (Raise IndexError), lookups, 0, []. simpl. rewrite app_nil_r.
        split; [by rewrite <- app_assoc|]. split; [done|]. split; [done|].
        split; [lia|]. split; [by left | done].
      * exists (Ok b), lookups, 0, []. simpl. rewrite app_nil_r.
        split; [by rewrite <- app_assoc|]. split; [done|]. split; [done|].
        split; [lia|]. split; [by left|]. left. split; [done|].
        split; [done|]. apply Hfound.
        apply (elem_of_list_to_set (C:=gset string)), elem_of_elements.
        rewrite Helements. by left.
    + destruct (create_bucket_loop_run self 10 0
                  ((log ++ [ListBuckets]) ++ lookups))
        as (r & k & Hk & Hrun & Hr).
      unfold bind at 1. unfold _create_bucket, MAX_CREATION_ATTEMPTS.
      rewrite Hrun.
      destruct r as [name|e].
      * destruct Hr as (j & -> & Hj & Hacc & ->). simpl in Hacc.
        unfold _tag_bucket, bind, call, ret. simpl (0 + j). fold sentinel.
        destruct (put_bucket_tagging (_boto_s3_client self)
                    (_generate_bucket_name self j) [sentinel])
          as [[]|code] eqn:Htag.
        -- exists (Ok (_generate_bucket_name self j)), lookups, (S j),
             [PutBucketTagging (_generate_bucket_name self j) [sentinel]].
           split; [by rewrite <- !app_assoc|]. split; [done|].
           split; [done|]. split; [done|]. split; [right; by exists j|].
           right. by exists j.
        -- exists (Raise (ClientError code)), lookups, (S j),
             [PutBucketTagging (_generate_bucket_name self j) [sentinel]].
           split; [by rewrite <- !app_assoc|]. split; [done|].
           split; [done|]. split; [done|]. split; [right; by exists j|done].
      * exists (Raise e), lookups, k, []. rewrite app_nil_r.
        split; [by rewrite <- !app_assoc|]. split; [done|]. split; [done|].
        split; [done|]. split; [by left | done].
  - exists (Raise (AssertionError multiple_buckets_message)), lookups, 0, [].
    simpl. rewrite app_nil_r.
    split; [by rewrite <- app_assoc|]. split; [done|]. split; [done|].
    split; [lia|]. split; [by left | done].
Qed.

(** X3.  A name that [get_bucket_name] returns is either a listed bucket
    that carries the sentinel tag in the caller's region, found by
    read-only calls, or a candidate that this call has created (after the
    earlier candidates were refused as taken) and then tagged. *)
Theorem get_bucket_name_sound
    (self : S3BucketFactory) (log log' : list s3_call) (name : string) :
  get_bucket_name self log = (Ok name, log') ->
  (qualifying self name
   /\ exists lookups, Forall quiet lookups /\ log' = log ++ lookups)
  \/ exists attempt lookups,
       attempt < 10
       /\ name = _generate_bucket_name self attempt
       /\ Forall (refused self) (seq 0 attempt)
       /\ accepted self attempt
       /\ put_bucket_tagging (_boto_s3_client self) name [sentinel] = Reply tt
       /\ Forall quiet lookups
       /\ log' = log ++ lookups ++ map (creation self) (seq 0 (S attempt))
                     ++ [PutBucketTagging name [sentinel]].
Proof.
  intros Hrun.
  destruct (get_bucket_name_run self log)
    as (r & lookups & attempts & tagging & Heq & Hq & _ & Hle & _ & Hr).
  rewrite Hrun in Heq. injection Heq as <- ->.
  destruct Hr as [(-> & -> & Hqual)
                 | (attempt & -> & -> & Hrefused & Hacc & Htag & ->)].
  - left. split; [done|]. exists (ListBuckets :: lookups).
    split; [by constructor|]. simpl. by rewrite app_nil_r.
  - right. exists attempt, (ListBuckets :: lookups).
    split; [lia|]. do 4 (split; [done|]). split; [by constructor|].
    reflexivity.
Qed.

Lemma get_bucket_name_sound_witness :
  (qualifying factory_with_collision "cdflow-tfstate-3b85b4502387"
   /\ exists lookups,
        Forall quiet lookups
        /\ [ListBuckets; GetBucketTagging "state-elsewhere";
            GetBucketLocation "state-elsewhere"; GetBucketTagging "logs";
            CreateBucket "cdflow-tfstate-c3ab7bee01ca" "eu-west-1";
            CreateBucket "cdflow-tfstate-3b85b4502387" "eu-west-1";
            PutBucketTagging "cdflow-tfstate-3b85b4502387" [sentinel]]
           = [] ++ lookups)
  \/ exists attempt lookups,
       attempt < 10
       /\ "cdflow-tfstate-3b85b4502387"
          = _generate_bucket_name factory_with_collision attempt
       /\ Forall (refused factory_with_collision) (seq 0 attempt)
       /\ accepted factory_with_collision attempt
       /\ put_bucket_tagging account_with_collision
            "cdflow-tfstate-3b85b4502387" [sentinel] = Reply tt
       /\ Forall quiet lookups
       /\ [ListBuckets; GetBucketTagging "state-elsewhere";
           GetBucketLocation "state-elsewhere"; GetBucketTagging "logs";
           CreateBucket "cdflow-tfstate-c3ab7bee01ca" "eu-west-1";
           CreateBucket "cdflow-tfstate-3b85b4502387" "eu-west-1";
           PutBucketTagging "cdflow-tfstate-3b85b4502387" [sentinel]]
          = [] ++ lookups
               ++ map (creation factory_with_collision) (seq 0 (S attempt))
               ++ [PutBucketTagging "cdflow-tfstate-3b85b4502387" [sentinel]].
Proof.
  apply (get_bucket_name_sound factory_with_collision []).
  vm_compute. reflexivity.
Defined.

(** X4.  The calls of [get_bucket_name], whatever the account answers: the
    listing first, then read-only lookups, the location being asked only of
    buckets that carry the sentinel tag; then at most ten creations, of the
    candidates 0, 1, ... in turn; and at most one tagging, of a candidate
    whose creation was accepted. *)
Theorem get_bucket_name_calls (self : S3BucketFactory) (log : list s3_call) :
  exists lookups attempts tagging,
    (get_bucket_name self log).2
    = log ++ ListBuckets :: lookups
          ++ map (creation self) (seq 0 attempts) ++ tagging
    /\ Forall quiet lookups
    /\ (forall b, GetBucketLocation b ∈ lookups -> carries_sentinel self b)
    /\ attempts <= 10
    /\ (tagging = []
        \/ exists attempt,
             attempts = S attempt /\ accepted self attempt
             /\ tagging = [PutBucketTagging
                             (_generate_bucket_name self attempt) [sentinel]]).
Proof.
  destruct (get_bucket_name_run self log)
    as (r & lookups & attempts & tagging & Heq & Hq & Hloc & Hle & Htag & _).
  exists lookups, attempts, tagging. by rewrite Heq.
Qed.

Lemma create_bucket_loop_aborted self taken attempt rest code log :
  Forall (refused self) taken ->
  create_bucket (_boto_s3_client self) (_generate_bucket_name self attempt)
                (_aws_region self) = Error code ->
  ~ name_taken code ->
  _create_bucket_loop self (taken ++ attempt :: rest) log
  = (Raise (ClientError code),
     log ++ map (creation self) (taken ++ [attempt])).
Proof.
  intros Htaken Hcreate Hcode. revert log.
  induction Htaken as [|n taken Hn _ IH]; intros log; simpl.
  - unfold bind, _attempt_to_create_bucket, try_except_ClientError, call.
    rewrite Hcreate. simpl.
    destruct (bool_decide (code = Some "BucketAlreadyExists")
              || bool_decide (code = Some "BucketAlreadyOwnedByYou"))
      eqn:Htaken; [|done].
    by apply name_taken_decide in Htaken.
  - rewrite (bind_ok _ _ _ _ _ (attempt_refused self n log Hn)).
    rewrite IH, <- app_assoc. reflexivity.
Qed.

(** X5.  When no listed bucket qualifies and the creation of a candidate is
    refused with another code than the two for a taken name,
    [get_bucket_name] raises that [ClientError]: no later candidate is
    tried and nothing is tagged. *)
Theorem get_bucket_name_creation_refused
    (self : S3BucketFactory) (listing : list string) (attempt : nat)
    (code : option string) (log : list s3_call) :
  list_buckets (_boto_s3_client self) = Reply listing ->
  Forall (set_aside self) listing ->
  attempt < 10 ->
  Forall (refused self) (seq 0 attempt) ->
  create_bucket (_boto_s3_client self) (_generate_bucket_name self attempt)
                (_aws_region self) = Error code ->
  ~ name_taken code ->
  exists lookups,
    Forall quiet lookups
    /\ get_bucket_name self log
       = (Raise (ClientError code),
          log ++ lookups ++ map (creation self) (seq 0 (S attempt))).
Proof.
  intros Hlist Haside Hlt Htaken Hcreate Hcode.
  destruct (get_bucket_name_none_qualifying self listing log Hlist Haside)
    as (lookups & Hquiet & Hrun).
  exists lookups. split; [done|]. rewrite Hrun.
  assert (Hcreation : _create_bucket self (log ++ lookups)
            = (Raise (ClientError code),
               (log ++ lookups) ++ map (creation self) (seq 0 (S attempt)))).
  { unfold _create_bucket.
    replace MAX_CREATION_ATTEMPTS
      with (attempt + S (MAX_CREATION_ATTEMPTS - S attempt))
      by (unfold MAX_CREATION_ATTEMPTS; lia).
    rewrite seq_app. simpl seq at 2.
    rewrite (create_bucket_loop_aborted _ _ _ _ _ _ Htaken Hcreate Hcode).
    replace (S attempt) with (attempt + 1) by lia.
    by rewrite seq_app. }
  rewrite (bind_raise _ _ _ _ _ Hcreation). by rewrite <- app_assoc.
Qed.

Lemma get_bucket_name_creation_refused_witness :
  exists lookups,
    Forall quiet lookups
    /\ get_bucket_name factory_without_creation []
       = (Raise (ClientError (Some "TooManyBuckets")),
          [] ++ lookups
             ++ map (creation factory_without_creation) (seq 0 2)).
Proof.
  apply (get_bucket_name_creation_refused factory_without_creation [] 1).
  - reflexivity.
  - constructor.
  - lia.
  - constructor; [|constructor]. exists (Some "BucketAlreadyOwnedByYou").
    split; [vm_compute; reflexivity | right; reflexivity].
  - vm_compute. reflexivity.
  - intros [H | H]; discriminate.
Defined.

(** X6.  When the candidate is created but its tagging is refused,
    [get_bucket_name] raises the [ClientError] of the tagging: the bucket
    stays behind without the sentinel tag and no name is returned. *)
Theorem get_bucket_name_tagging_refused
    (self : S3BucketFactory) (listing : list string) (attempt : nat)
    (code : option string) (log : list s3_call) :
  list_buckets (_boto_s3_client self) = Reply listing ->
  Forall (set_aside self) listing ->
  attempt < 10 ->
  Forall (refused self) (seq 0 attempt) ->
  accepted self attempt ->
  put_bucket_tagging (_boto_s3_client self)
    (_generate_bucket_name self attempt) [sentinel] = Error code ->
  exists lookups,
    Forall quiet lookups
    /\ get_bucket_name self log
       = (Raise (ClientError code),
          log ++ lookups ++ map (creation self) (seq 0 (S attempt))
              ++ [PutBucketTagging
                    (_generate_bucket_name self attempt) [sentinel]]).
Proof.
  intros Hlist Haside Hlt Htaken Hacc Htag.
  destruct (get_bucket_name_none_qualifying self listing log Hlist Haside)
    as (lookups & Hquiet & Hrun).
  exists lookups. split; [done|]. rewrite Hrun.
  erewrite bind_ok; [|by apply (create_bucket_accepted self attempt)].
  unfold _tag_bucket, bind, call, ret. fold sentinel. rewrite Htag.
  by rewrite <- !app_assoc.
Qed.

Lemma get_bucket_name_tagging_refused_witness :
  exists lookups,
    Forall quiet lookups
    /\ get_bucket_name factory_without_tagging []
       = (Raise (ClientError (Some "AccessDenied")),
          [] ++ lookups
             ++ map (creation factory_without_tagging) (seq 0 1)
             ++ [PutBucketTagging
                   (_generate_bucket_name factory_without_tagging 0)
                   [sentinel]]).
Proof.
  apply (get_bucket_name_tagging_refused factory_without_tagging [] 0).
  - reflexivity.
  - constructor.
  - lia.
  - constructor.
  - vm_compute. reflexivity.
  - vm_compute. reflexivity.
Defined.

(** X7.  Every candidate name is ["cdflow-tfstate-"] followed by exactly
    twelve characters, each a digit or a letter from [a] to [f]: 27
    characters in all, whatever the region, the account id and the
    attempt. *)
Theorem generate_bucket_name_shape (self : S3BucketFactory) (attempt : nat) :
  exists suffix,
    _generate_bucket_name self attempt = "cdflow-tfstate-" +:+ suffix
    /\ String.length suffix = 12
    /\ PyStr.all_chars PyStr.is_hex suffix = true
    /\ String.length (_generate_bucket_name self attempt) = 27.
Proof.
  eexists. split; [apply generate_bucket_name_eq|].
  destruct (hexdigest_shape
              (PyStr.encode_utf8 (_aws_region self +:+ _account_id self
                                  +:+ PyStr.str_nat attempt)))
    as [Hlen Hhex].
  fold (Sha1.sha1_hex (_aws_region self +:+ _account_id self
                       +:+ PyStr.str_nat attempt)) in Hlen, Hhex.
  split; [by rewrite length_slice_to, Hlen|].
  split; [by apply all_chars_slice_to|].
  rewrite generate_bucket_name_eq, length_append, length_slice_to, Hlen.
  reflexivity.
Qed.

(** *** Every bucket is looked up once *)

Lemma occurrences_app c calls1 calls2 :
  occurrences c (calls1 ++ calls2)
  = occurrences c calls1 + occurrences c calls2.
Proof. unfold occurrences. by rewrite List.filter_app, length_app. Qed.

Lemma occurrences_absent c calls :
  c ∉ calls -> occurrences c calls = 0.
Proof.
  unfold occurrences. induction calls as [|c' calls IH]; [done|].
  intros Hnot. apply not_elem_of_cons in Hnot as [Hne Hnot]. simpl.
  rewrite bool_decide_eq_false_2; [|done]. auto.
Qed.

(** The calls of one step of the comprehension concern its own bucket. *)
Lemma qualifies_own_calls self bucket log :
  exists r calls,
    qualifies self bucket log = (r, log ++ calls)
    /\ (calls = [GetBucketTagging bucket]
        \/ calls = [GetBucketTagging bucket; GetBucketLocation bucket]).
Proof.
  unfold qualifies, _bucket_has_tag, _get_bucket_tags,
    _bucket_in_current_region, try_except_ClientError, bind, call, ret,
    raise.
  destruct (get_bucket_tagging _ bucket) as [tags|code]; simpl.
  - case_bool_decide; simpl.
    + exists (match get_bucket_location (_boto_s3_client self) bucket with
              | Reply a => Ok (bool_decide (a = Some (_aws_region self)))
              | Error code => Raise (ClientError code)
              end), [GetBucketTagging bucket; GetBucketLocation bucket].
      rewrite <- app_assoc.
      split; [by destruct (get_bucket_location _ bucket) | by right].
    + do 2 eexists. split; [reflexivity | by left].
  - case_decide; simpl; do 2 eexists; (split; [reflexivity | by left]).
Qed.

Lemma filterM_asks_once self buckets : forall log,
  NoDup buckets ->
  exists r calls,
    filterM (qualifies self) buckets log = (r, log ++ calls)
    /\ forall b,
         (occurrences (GetBucketTagging b) calls <= 1
          /\ occurrences (GetBucketLocation b) calls <= 1)
         /\ (b ∉ buckets ->
             occurrences (GetBucketTagging b) calls = 0
             /\ occurrences (GetBucketLocation b) calls = 0)
         /\ forall c, c ∈ calls -> writes_bucket c = false.
Proof.
  induction buckets as [|x buckets IH]; intros log Hnodup.
  - exists (Ok []), []. rewrite app_nil_r. split; [done|].
    intros b. repeat split; try done; try (unfold occurrences; simpl; lia).
    intros c Hc. by apply elem_of_nil in Hc.
  - apply NoDup_cons in Hnodup as [Hx Hnodup].
    destruct (qualifies_own_calls self x log) as (r1 & calls1 & Hrun1 & Hc1).
    assert (Hown : forall b,
               (b <> x ->
                occurrences (GetBucketTagging b) calls1 = 0
                /\ occurrences (GetBucketLocation b) calls1 = 0)
               /\ occurrences (GetBucketTagging b) calls1 <= 1
               /\ occurrences (GetBucketLocation b) calls1 <= 1
               /\ forall c, c ∈ calls1 -> writes_bucket c = false).
    { intros b. unfold occurrences.
      destruct Hc1 as [-> | ->]; simpl; repeat case_bool_decide;
        simplify_eq; simpl;
        (split; [intros Hne; first [done | split; lia]|]);
        (split; [lia|]); (split; [lia|]);
        intros c Hc;
        repeat (apply elem_of_cons in Hc as [-> | Hc]; [done|]);
        by apply elem_of_nil in Hc. }
    simpl. unfold bind at 1. rewrite Hrun1.
    destruct r1 as [keep|e].
    + destruct (IH (log ++ calls1) Hnodup) as (r2 & calls2 & Hrun2 & Hc2).
      unfold bind at 1. rewrite Hrun2.
      exists (match r2 with
              | Ok rest => Ok (if keep then x :: rest else rest)
              | Raise e => Raise e
              end), (calls1 ++ calls2).
      split; [destruct r2; by rewrite app_assoc|].
      intros b. rewrite !occurrences_app.
      destruct (Hown b) as (Hother & Ht1 & Hl1 & Hq1).
      destruct (Hc2 b) as ((Ht2 & Hl2) & Habsent & Hq2).
      split; [|split].
      * destruct (decide (b = x)) as [->|Hne].
        -- destruct (Habsent Hx) as [-> ->]. lia.
        -- destruct (Hother Hne) as [-> ->]. lia.
      * intros Hnot. apply not_elem_of_cons in Hnot as [Hne Hnot].
        destruct (Hother Hne) as [-> ->].
        destruct (Habsent Hnot) as [-> ->]. done.
      * intros c Hc. apply elem_of_app in Hc as [Hc | Hc]; auto.
    + exists (Raise e), calls1. split; [done|]. intros b.
      destruct (Hown b) as (Hother & Ht1 & Hl1 & Hq1).
      split; [done|]. split; [|done].
      intros Hnot. apply not_elem_of_cons in Hnot as [Hne Hnot]. auto.
Qed.

Lemma occurrences_of_writes c calls :
  writes_bucket c = false ->
  Forall (fun c' => writes_bucket c' = true) calls ->
  occurrences c calls = 0.
Proof.
  intros Hc Hcalls. apply occurrences_absent. intros Hin.
  rewrite Forall_forall in Hcalls. specialize (Hcalls c Hin). congruence.
Qed.

Lemma creations_write self attempts :
  Forall (fun c => writes_bucket c = true) (map (creation self) attempts).
Proof. apply Forall_forall. intros c Hc. apply list_elem_of_fmap in Hc as (n & -> & _). done. Qed.

Lemma get_bucket_name_split self log :
  exists r lookups writes,
    get_bucket_name self log = (r, log ++ ListBuckets :: lookups ++ writes)
    /\ (forall b,
          occurrences (GetBucketTagging b) lookups <= 1
          /\ occurrences (GetBucketLocation b) lookups <= 1)
    /\ Forall (fun c => writes_bucket c = true) writes.
Proof.
  unfold get_bucket_name.
  destruct (list_buckets (_boto_s3_client self)) as [listing|code] eqn:Hlist.
  2: { exists (Raise (ClientError code)), [], [].
       split; [done|]. split; [|constructor].
       intros b. unfold occurrences. simpl. lia. }
  erewrite bind_ok; [|unfold call; reflexivity].
  destruct (filterM_asks_once self
              (elements (list_to_set listing : gset string))
              (log ++ [ListBuckets]) (NoDup_elements _))
    as (r1 & lookups & Hrun1 & Hc).
  assert (Honce : forall b,
             occurrences (GetBucketTagging b) lookups <= 1
             /\ occurrences (GetBucketLocation b) lookups <= 1)
    by (intros b; apply (Hc b)).
  unfold bind at 1. rewrite Hrun1.
  destruct r1 as [found|e].
  2: { exists (Raise e), lookups, []. rewrite app_nil_r.
       split; [by rewrite <- app_assoc|]. split; [done|constructor]. }
  case_decide as Hsize.
  - case_decide as Hone.
    + destruct (elements (list_to_set found : gset string)) as [|b others].
      * exists (Raise IndexError), lookups, []. rewrite app_nil_r.
        split; [by rewrite <- app_assoc|]. split; [done|constructor].
      * exists (Ok b), lookups, []. rewrite app_nil_r.
        split; [by rewrite <- app_assoc|]. split; [done|constructor].
    + destruct (create_bucket_loop_run self 10 0
                  ((log ++ [ListBuckets]) ++ lookups))
        as (r & k & Hk & Hrun & Hr).
      unfold bind at 1. unfold _create_bucket, MAX_CREATION_ATTEMPTS.
      rewrite Hrun.
      destruct r as [name|e].
      * unfold _tag_bucket, bind, call, ret.
        destruct (put_bucket_tagging (_boto_s3_client self) name
                    [Tag TAG_NAME TAG_VALUE]) as [[]|code].
        -- exists (Ok name), lookups,
             (map (creation self) (seq 0 k)
              ++ [PutBucketTagging name [Tag TAG_NAME TAG_VALUE]]).
           split; [by rewrite <- !app_assoc|]. split; [done|].
           apply Forall_app. split; [apply creations_write|].
           by constructor.
        -- exists (Raise (ClientError code)), lookups,
             (map (creation self) (seq 0 k)
              ++ [PutBucketTagging name [Tag TAG_NAME TAG_VALUE]]).
           split; [by rewrite <- !app_assoc|]. split; [done|].
           apply Forall_app. split; [apply creations_write|].
           by constructor.
      * exists (Raise e), lookups, (map (creation self) (seq 0 k)).
        split; [by rewrite <- !app_assoc|]. split; [done|].
        apply creations_write.
  - exists (Raise (AssertionError
                     ("multiple buckets with " +:+ TAG_NAME +:+ "="
                      +:+ TAG_VALUE +:+ " tag found"))), lookups, [].
    rewrite app_nil_r.
    split; [by rewrite <- app_assoc|]. split; [done|constructor].
Qed.

(** X27.  [get_bucket_name] asks for the tags and for the location of a
    bucket at most once in a call, also when the listing names the bucket
    several times. *)
Theorem get_bucket_name_asks_once (self : S3BucketFactory)
    (log : list s3_call) :
  exists calls,
    (get_bucket_name self log).2 = log ++ calls
    /\ forall b,
         occurrences (GetBucketTagging b) calls <= 1
         /\ occurrences (GetBucketLocation b) calls <= 1.
Proof.
  destruct (get_bucket_name_split self log)
    as (r & lookups & writes & Hrun & Honce & Hwrites).
  exists (ListBuckets :: lookups ++ writes). rewrite Hrun. split; [done|].
  intros b. destruct (Honce b) as [Htags Hlocation].
  change (ListBuckets :: lookups ++ writes)
    with ([ListBuckets] ++ lookups ++ writes).
  rewrite !occurrences_app.
  rewrite (occurrences_of_writes (GetBucketTagging b) writes),
    (occurrences_of_writes (GetBucketLocation b) writes) by done.
  unfold occurrences at 1 3. simpl. lia.
Qed.

End S3More.

(** ** LockTableFactory *)

Module LockTableFacts.
Import Terragrunt.

Lemma check_schema_spec table log :
  (has_LockID table -> _check_schema table log = (Ok true, log))
  /\ (~ has_LockID table ->
      _check_schema table log
      = (Raise (IncorrectSchemaError "No attribute LockID in table"), log)).
Proof.
  unfold _check_schema, has_LockID.
  destruct (existsb _ (AttributeDefinitions table)) eqn:Hex.
  - split; [done|]. intros Hno. exfalso. apply Hno.
    apply existsb_exists in Hex as (attribute & Hin & Heq).
    exists attribute. split; [by apply list_elem_of_In|].
    by apply String.eqb_eq.
  - split; [|done]. intros (attribute & Hin & Heq).
    assert (existsb (fun a => String.eqb (AttributeName a) "LockID")
                    (AttributeDefinitions table) = true) as Htrue.
    { apply existsb_exists. exists attribute.
      split; [by apply list_elem_of_In|]. by apply String.eqb_eq. }
    congruence.
Qed.

Lemma check_tag_spec self table_arn tags log :
  list_tags_of_resource (_client self) table_arn = Reply tags ->
  (lock_tag ∈ tags ->
   _check_tag self table_arn log
   = (Ok true, log ++ [ListTagsOfResource table_arn]))
  /\ (lock_tag ∉ tags ->
      _check_tag self table_arn log
      = (Raise (MissingTagError
                  ("No tag cdflow_terraform_locks found for " +:+ table_arn)),
         log ++ [ListTagsOfResource table_arn])).
Proof.
  intros Htags. unfold _check_tag, bind, call. rewrite Htags.
  destruct (existsb _ tags) eqn:Hex.
  - split; [done|]. intros Hno. exfalso. apply Hno.
    apply existsb_exists in Hex as ([k v] & Hin & Heq).
    apply andb_true_iff in Heq as [Hk Hv].
    apply String.eqb_eq in Hk, Hv. simpl in Hk, Hv. subst.
    by apply list_elem_of_In.
  - split; [|done]. intros Hin.
    assert (existsb (fun t => String.eqb (Key t) LOCK_TAG_NAME
                              && String.eqb (Value t) LOCK_TAG_VALUE) tags
            = true) as Htrue.
    { apply existsb_exists. exists lock_tag.
      split; [by apply list_elem_of_In|]. reflexivity. }
    congruence.
Qed.

(** C4, as the code has it.  Describing [terraform_locks]:
    - the table is found and its tags are listed: [MissingTagError] when
      the tag [cdflow_terraform_locks=true] is absent, whatever the
      schema; [IncorrectSchemaError] when the tag is present and no
      attribute definition is named [LockID]; the table name otherwise;
    - [ResourceNotFoundException]: the table is created with the single
      hash key [LockID] of type [S] and throughput 1/1, tagged with the
      sentinel tag and waited for, then [terraform_locks] is returned;
    - any other error code: the same [ClientError] is raised. *)
Theorem get_table_name_cases (self : LockTableFactory)
    (log : list dynamodb_call) :
  (forall table tags,
      describe_table (_client self) "terraform_locks" = Reply table ->
      list_tags_of_resource (_client self) (TableArn table) = Reply tags ->
      let looked_up :=
        log ++ [DescribeTable "terraform_locks";
                ListTagsOfResource (TableArn table)] in
      (lock_tag ∉ tags ->
       get_table_name self log
       = (Raise (MissingTagError
                   ("No tag cdflow_terraform_locks found for "
                    +:+ TableArn table)), looked_up))
      /\ (lock_tag ∈ tags -> ~ has_LockID table ->
          get_table_name self log
          = (Raise (IncorrectSchemaError "No attribute LockID in table"),
             looked_up))
      /\ (lock_tag ∈ tags -> has_LockID table ->
          get_table_name self log = (Ok (TableName table), looked_up)))
  /\ (forall table_arn,
        describe_table (_client self) "terraform_locks"
          = Error (Some "ResourceNotFoundException") ->
        create_table (_client self) (lock_table_request "terraform_locks")
          = Reply table_arn ->
        tag_resource (_client self) table_arn [lock_tag] = Reply tt ->
        wait_table_exists (_client self) "terraform_locks" = true ->
        get_table_name self log
        = (Ok "terraform_locks",
           log ++ [DescribeTable "terraform_locks";
                   CreateTable
                     {| req_TableName := "terraform_locks";
                        req_AttributeDefinitions :=
                          [{| AttributeName := "LockID";
                              AttributeType := "S" |}];
                        req_KeySchema :=
                          [{| KeyAttributeName := "LockID";
                              KeyType := "HASH" |}];
                        ReadCapacityUnits := 1;
                        WriteCapacityUnits := 1 |};
                   TagResource table_arn [lock_tag];
                   WaitTableExists "terraform_locks"]))
  /\ (forall code,
        describe_table (_client self) "terraform_locks" = Error code ->
        code <> Some "ResourceNotFoundException" ->
        get_table_name self log
        = (Raise (ClientError code),
           log ++ [DescribeTable "terraform_locks"])).
Proof.
  split; [|split].
  - intros table tags Hdescribe Htags looked_up.
    destruct (check_tag_spec self (TableArn table) tags
                (log ++ [DescribeTable "terraform_locks"]) Htags)
      as [Htagged Huntagged].
    destruct (check_schema_spec table looked_up) as [Hschema Hnoschema].
    unfold looked_up in *. rewrite <- app_assoc in Htagged, Huntagged.
    unfold get_table_name, try_except_ClientError, _try_to_get_table.
    split; [|split].
    + intros Hno.
      erewrite bind_ok; [|unfold call, TABLE_NAME; rewrite Hdescribe; done].
      erewrite bind_raise; [|by apply Huntagged]. done.
    + intros Hin Hbad.
      erewrite bind_ok; [|unfold call, TABLE_NAME; rewrite Hdescribe; done].
      erewrite bind_ok; [|by apply Htagged].
      erewrite bind_raise; [|by apply Hnoschema]. done.
    + intros Hin Hgood.
      erewrite bind_ok; [|unfold call, TABLE_NAME; rewrite Hdescribe; done].
      erewrite bind_ok; [|by apply Htagged].
      erewrite bind_ok; [|by apply Hschema]. done.
  - intros table_arn Hdescribe Hcreate Htag Hwait.
    unfold get_table_name, try_except_ClientError, _try_to_get_table.
    erewrite bind_raise; [|unfold call, TABLE_NAME; rewrite Hdescribe; done].
    simpl. unfold _create_table, bind, call, ret, TABLE_NAME.
    fold (lock_table_request "terraform_locks"). rewrite Hcreate.
    fold lock_tag. rewrite Htag, Hwait.
    by rewrite <- !app_assoc.
  - intros code Hdescribe Hcode.
    unfold get_table_name, try_except_ClientError, _try_to_get_table.
    erewrite bind_raise; [|unfold call, TABLE_NAME; rewrite Hdescribe; done].
    unfold _resource_not_found. by rewrite bool_decide_eq_false_2.
Qed.

Lemma get_table_name_cases_witness :
  get_table_name {| _client := missing_table |} []
  = (Ok "terraform_locks",
     [] ++ [DescribeTable "terraform_locks";
            CreateTable
              {| req_TableName := "terraform_locks";
                 req_AttributeDefinitions :=
                   [{| AttributeName := "LockID"; AttributeType := "S" |}];
                 req_KeySchema :=
                   [{| KeyAttributeName := "LockID"; KeyType := "HASH" |}];
                 ReadCapacityUnits := 1;
                 WriteCapacityUnits := 1 |};
            TagResource lock_table_arn [lock_tag];
            WaitTableExists "terraform_locks"]).
Proof.
  exact (proj1 (proj2 (get_table_name_cases
                         {| _client := missing_table |} []))
           lock_table_arn eq_refl eq_refl eq_refl eq_refl).
Defined.

(** C4 as stated fails: a table named [terraform_locks] without the
    attribute [LockID] and without the sentinel tag makes
    [get_table_name] raise [MissingTagError], not [IncorrectSchemaError];
    the tag is checked before the schema. *)
Lemma get_table_name_counterexample :
  (exists table,
      describe_table foreign_table "terraform_locks" = Reply table
      /\ ~ has_LockID table)
  /\ (get_table_name {| _client := foreign_table |} []).1
     = Raise (MissingTagError
                ("No tag cdflow_terraform_locks found for "
                 +:+ lock_table_arn))
  /\ forall msg,
       (get_table_name {| _client := foreign_table |} []).1
       <> Raise (IncorrectSchemaError msg).
Proof.
  split; [|split].
  - eexists. split; [reflexivity|].
    intros (attribute & Hin & Hname). simpl in Hin.
    apply list_elem_of_In in Hin. simpl in Hin.
    destruct Hin as [<- | []]. discriminate.
  - reflexivity.
  - intros msg. vm_compute. discriminate.
Qed.

End LockTableFacts.

(** ** LockTableFactory: the fallback scan, the handler and creation *)

Module LockTableMore.
Import Terragrunt LockTableFacts.

Lemma try_to_get_table_untagged self table_name log :
  untagged_table self table_name ->
  exists msg,
    _try_to_get_table self table_name log
    = (Raise (MissingTagError msg), log ++ inspection self table_name).
Proof.
  intros (table & tags & Hdescribe & Htags & Hno).
  destruct (check_tag_spec self (TableArn table) tags
              (log ++ [DescribeTable table_name]) Htags) as [_ Huntagged].
  eexists. unfold _try_to_get_table, inspection. rewrite Hdescribe.
  erewrite bind_ok; [|unfold call; reflexivity].
  erewrite bind_raise; [|by apply Huntagged].
  by rewrite <- app_assoc.
Qed.

Lemma try_to_get_table_tagged self table_name table log :
  tagged_table self table_name table ->
  (has_LockID table ->
   _try_to_get_table self table_name log
   = (Ok (TableName table), log ++ inspection self table_name))
  /\ (~ has_LockID table ->
      _try_to_get_table self table_name log
      = (Raise (IncorrectSchemaError "No attribute LockID in table"),
         log ++ inspection self table_name)).
Proof.
  intros (Hdescribe & tags & Htags & Hin).
  destruct (check_tag_spec self (TableArn table) tags
              (log ++ [DescribeTable table_name]) Htags) as [Htagged _].
  destruct (check_schema_spec table
              ((log ++ [DescribeTable table_name])
                 ++ [ListTagsOfResource (TableArn table)]))
    as [Hschema Hnoschema].
  unfold _try_to_get_table, inspection. rewrite Hdescribe.
  split; intros Hlock.
  - erewrite bind_ok; [|unfold call; reflexivity].
    erewrite bind_ok; [|by apply Htagged].
    erewrite bind_ok; [|by apply Hschema].
    unfold ret. by rewrite <- app_assoc.
  - erewrite bind_ok; [|unfold call; reflexivity].
    erewrite bind_ok; [|by apply Htagged].
    erewrite bind_raise; [|by apply Hnoschema].
    by rewrite <- app_assoc.
Qed.

Lemma try_to_get_table_refused self table_name code log :
  describe_table (_client self) table_name = Error code ->
  _try_to_get_table self table_name log
  = (Raise (ClientError code), log ++ inspection self table_name).
Proof.
  intros Hdescribe. unfold _try_to_get_table, inspection, bind, call.
  by rewrite Hdescribe.
Qed.

(** The scan passes over untagged tables. *)
Lemma fallback_loop_skips self skipped rest log :
  Forall (untagged_table self) skipped ->
  _get_fallback_table_loop self (skipped ++ rest) log
  = _get_fallback_table_loop self rest
      (log ++ flat_map (inspection self) skipped).
Proof.
  intros Hskipped. revert log.
  induction Hskipped as [|n skipped Hn _ IH]; intros log; simpl.
  - by rewrite app_nil_r.
  - destruct (try_to_get_table_untagged self n log Hn) as (msg & ->).
    by rewrite IH, <- app_assoc.
Qed.

(** X8.  [_get_fallback_table] returns the name of the first listed table
    that carries the sentinel tag, provided it has the attribute [LockID];
    the untagged tables before it are passed over and the tables after it
    are never described. *)
Theorem fallback_returns_first_tagged
    (self : LockTableFactory) (skipped rest : list string)
    (table_name : string) (table : table_description)
    (log : list dynamodb_call) :
  list_tables (_client self) = Reply (skipped ++ table_name :: rest) ->
  Forall (untagged_table self) skipped ->
  tagged_table self table_name table ->
  has_LockID table ->
  _get_fallback_table self log
  = (Ok (Some (TableName table)),
     log ++ ListTables
         :: flat_map (inspection self) (skipped ++ [table_name])).
Proof.
  intros Hlist Hskipped Htagged Hlock.
  unfold _get_fallback_table.
  erewrite bind_ok; [|unfold call; rewrite Hlist; reflexivity].
  rewrite (fallback_loop_skips _ _ _ _ Hskipped). simpl.
  rewrite (proj1 (try_to_get_table_tagged self table_name table _ Htagged)
             Hlock).
  rewrite flat_map_app. simpl. rewrite app_nil_r.
  by rewrite <- !app_assoc.
Qed.

Lemma fallback_returns_first_tagged_witness :
  _get_fallback_table
    {| _client := several_tables
                    ["users"; "sessions"; "team_locks"; "broken_locks"] |} []
  = (Ok (Some "team_locks"),
     [] ++ ListTables
        :: flat_map
             (inspection
                {| _client := several_tables
                                ["users"; "sessions"; "team_locks";
                                 "broken_locks"] |})
             (["users"; "sessions"] ++ ["team_locks"])).
Proof.
  refine (fallback_returns_first_tagged
            {| _client := several_tables
                            ["users"; "sessions"; "team_locks";
                             "broken_locks"] |}
            ["users"; "sessions"] ["broken_locks"] "team_locks"
            (table_named "team_locks") [] eq_refl _ _ _).
  - constructor; [|constructor; [|constructor]].
    + exists (table_named "users"), []. repeat split; try reflexivity.
      apply not_elem_of_nil.
    + exists (table_named "sessions"), []. repeat split; try reflexivity.
      apply not_elem_of_nil.
  - split; [reflexivity|]. exists [lock_tag]. split; [reflexivity|].
    by left.
  - eexists. split; [by left | reflexivity].
Defined.

(** X9.  When every listed table is found without the sentinel tag,
    [_get_fallback_table] returns [None]: each table was described and its
    tags listed once, and nothing was created or tagged. *)
Theorem fallback_returns_none
    (self : LockTableFactory) (table_names : list string)
    (log : list dynamodb_call) :
  list_tables (_client self) = Reply table_names ->
  Forall (untagged_table self) table_names ->
  _get_fallback_table self log
  = (Ok None, log ++ ListTables :: flat_map (inspection self) table_names)
  /\ Forall (fun c => writes_table c = false)
            (ListTables :: flat_map (inspection self) table_names).
Proof.
  intros Hlist Hnames. split.
  - unfold _get_fallback_table.
    erewrite bind_ok; [|unfold call; rewrite Hlist; reflexivity].
    rewrite <- (app_nil_r table_names) at 1.
    rewrite (fallback_loop_skips _ _ _ _ Hnames). simpl. unfold ret.
    by rewrite <- app_assoc.
  - constructor; [done|]. clear Hlist Hnames.
    induction table_names as [|n names IH]; [constructor|].
    simpl. apply Forall_app. split; [|done].
    unfold inspection. destruct (describe_table _ n); by repeat constructor.
Qed.

Lemma fallback_returns_none_witness :
  _get_fallback_table {| _client := several_tables ["users"; "sessions"] |} []
  = (Ok None,
     [] ++ ListTables
        :: flat_map
             (inspection {| _client := several_tables ["users"; "sessions"] |})
             ["users"; "sessions"])
  /\ Forall (fun c => writes_table c = false)
            (ListTables
               :: flat_map
                    (inspection
                       {| _client := several_tables ["users"; "sessions"] |})
                    ["users"; "sessions"]).
Proof.
  refine (fallback_returns_none
            {| _client := several_tables ["users"; "sessions"] |}
            ["users"; "sessions"] [] eq_refl _).
  constructor; [|constructor; [|constructor]].
  - exists (table_named "users"), []. repeat split; try reflexivity.
    apply not_elem_of_nil.
  - exists (table_named "sessions"), []. repeat split; try reflexivity.
    apply not_elem_of_nil.
Defined.

(** X10.  The scan passes over untagged tables only.  A tagged table
    without the attribute [LockID] ends it with [IncorrectSchemaError], and
    a table whose description is refused ends it with that [ClientError],
    whatever tables are listed after it. *)
Theorem fallback_stops_at_error
    (self : LockTableFactory) (skipped rest : list string)
    (table_name : string) (log : list dynamodb_call) :
  list_tables (_client self) = Reply (skipped ++ table_name :: rest) ->
  Forall (untagged_table self) skipped ->
  (forall table,
      tagged_table self table_name table -> ~ has_LockID table ->
      _get_fallback_table self log
      = (Raise (IncorrectSchemaError "No attribute LockID in table"),
         log ++ ListTables
             :: flat_map (inspection self) (skipped ++ [table_name])))
  /\ (forall code,
        describe_table (_client self) table_name = Error code ->
        _get_fallback_table self log
        = (Raise (ClientError code),
           log ++ ListTables
               :: flat_map (inspection self) (skipped ++ [table_name]))).
Proof.
  intros Hlist Hskipped.
  assert (Hstart : _get_fallback_table self log
            = _get_fallback_table_loop self (table_name :: rest)
                ((log ++ [ListTables]) ++ flat_map (inspection self) skipped)).
  { unfold _get_fallback_table.
    erewrite bind_ok; [|unfold call; rewrite Hlist; reflexivity].
    by rewrite (fallback_loop_skips _ _ _ _ Hskipped). }
  rewrite Hstart. split.
  - intros table Htagged Hlock. simpl.
    rewrite (proj2 (try_to_get_table_tagged self table_name table _ Htagged)
               Hlock).
    rewrite flat_map_app. simpl. rewrite app_nil_r.
    by rewrite <- !app_assoc.
  - intros code Hdescribe. simpl.
    rewrite (try_to_get_table_refused self table_name code _ Hdescribe).
    rewrite flat_map_app. simpl. rewrite app_nil_r.
    by rewrite <- !app_assoc.
Qed.

Lemma fallback_stops_at_error_witness :
  _get_fallback_table
    {| _client := several_tables ["users"; "broken_locks"; "team_locks"] |} []
  = (Raise (IncorrectSchemaError "No attribute LockID in table"),
     [] ++ ListTables
        :: flat_map
             (inspection
                {| _client := several_tables
                                ["users"; "broken_locks"; "team_locks"] |})
             (["users"] ++ ["broken_locks"])).
Proof.
  refine (proj1 (fallback_stops_at_error
                   {| _client := several_tables
                                   ["users"; "broken_locks"; "team_locks"] |}
                   ["users"] ["team_locks"] "broken_locks" [] eq_refl _)
            (table_named "broken_locks") _ _).
  - constructor; [|constructor].
    exists (table_named "users"), []. repeat split; try reflexivity.
    apply not_elem_of_nil.
  - split; [reflexivity|]. exists [lock_tag]. split; [reflexivity|].
    by left.
  - intros (attribute & Hin & Hname).
    apply list_elem_of_In in Hin. simpl in Hin.
    destruct Hin as [<- | []]. discriminate.
Defined.

(** The creation path, for every answer of the three calls. *)
Lemma create_table_run self log :
  _create_table self "terraform_locks" log
  = match create_table (_client self) (lock_table_request "terraform_locks")
    with
    | Error code =>
        (Raise (ClientError code),
         log ++ [CreateTable (lock_table_request "terraform_locks")])
    | Reply table_arn =>
        match tag_resource (_client self) table_arn [lock_tag] with
        | Error code =>
            (Raise (ClientError code),
             log ++ [CreateTable (lock_table_request "terraform_locks");
                     TagResource table_arn [lock_tag]])
        | Reply _ =>
            (if wait_table_exists (_client self) "terraform_locks"
             then Ok "terraform_locks" else Raise WaiterError,
             log ++ [CreateTable (lock_table_request "terraform_locks");
                     TagResource table_arn [lock_tag];
                     WaitTableExists "terraform_locks"])
        end
    end.
Proof.
  unfold _create_table, bind, call, ret.
  fold (lock_table_request "terraform_locks"). fold lock_tag.
  destruct (create_table _ _) as [table_arn|code]; [|done].
  destruct (tag_resource _ table_arn _) as [[]|code];
    [|by rewrite <- app_assoc].
  destruct (wait_table_exists _ _); by rewrite <- !app_assoc.
Qed.

Lemma try_to_get_table_tags_refused self table_name table code log :
  describe_table (_client self) table_name = Reply table ->
  list_tags_of_resource (_client self) (TableArn table) = Error code ->
  _try_to_get_table self table_name log
  = (Raise (ClientError code),
     log ++ [DescribeTable table_name; ListTagsOfResource (TableArn table)]).
Proof.
  intros Hdescribe Htags. unfold _try_to_get_table.
  erewrite bind_ok; [|unfold call; rewrite Hdescribe; reflexivity].
  erewrite bind_raise;
    [|unfold _check_tag; apply bind_raise; unfold call;
      rewrite Htags; reflexivity].
  by rewrite <- app_assoc.
Qed.

(** X11.  A name that [get_table_name] returns is either the name of the
    described table, which then carries the sentinel tag and has the
    attribute [LockID] and was not changed, or [terraform_locks] after the
    table was created, tagged and waited for, in this order, as the last
    three calls. *)
Theorem get_table_name_sound
    (self : LockTableFactory) (log log' : list dynamodb_call)
    (name : string) :
  get_table_name self log = (Ok name, log') ->
  (exists table,
      tagged_table self "terraform_locks" table
      /\ has_LockID table
      /\ name = TableName table
      /\ log' = log ++ [DescribeTable "terraform_locks";
                        ListTagsOfResource (TableArn table)])
  \/ (exists table_arn before,
        name = "terraform_locks"
        /\ create_table (_client self) (lock_table_request "terraform_locks")
           = Reply table_arn
        /\ tag_resource (_client self) table_arn [lock_tag] = Reply tt
        /\ wait_table_exists (_client self) "terraform_locks" = true
        /\ Forall (fun c => writes_table c = false) before
        /\ log' = log ++ before
                      ++ [CreateTable (lock_table_request "terraform_locks");
                          TagResource table_arn [lock_tag];
                          WaitTableExists "terraform_locks"]).
Proof.
  unfold get_table_name, try_except_ClientError, _resource_not_found,
    TABLE_NAME.
  destruct (describe_table (_client self) "terraform_locks")
    as [table|code] eqn:Hdescribe.
  - destruct (list_tags_of_resource (_client self) (TableArn table))
      as [tags|code] eqn:Htags.
    + destruct (check_tag_spec self (TableArn table) tags
                  (log ++ [DescribeTable "terraform_locks"]) Htags)
        as [Htagged Huntagged].
      destruct (decide (lock_tag ∈ tags)) as [Hin|Hno].
      * assert (Hgood : tagged_table self "terraform_locks" table).
        { split; [done|]. by exists tags. }
        destruct (try_to_get_table_tagged self "terraform_locks" table log
                    Hgood) as [Hok Hbad].
        destruct (existsb
                    (fun a => String.eqb (AttributeName a) "LockID")
                    (AttributeDefinitions table)) eqn:Hex.
        -- assert (Hlock : has_LockID table).
           { apply existsb_exists in Hex as (a & Ha & Heq).
             exists a. split; [by apply list_elem_of_In|].
             by apply String.eqb_eq. }
           rewrite (Hok Hlock). intros [= <- <-]. left. exists table.
           unfold inspection. by rewrite Hdescribe.
        -- assert (Hlock : ~ has_LockID table).
           { intros (a & Ha & Heq).
             assert (existsb
                       (fun a => String.eqb (AttributeName a) "LockID")
                       (AttributeDefinitions table) = true) as Htrue.
             { apply existsb_exists. exists a.
               split; [by apply list_elem_of_In | by apply String.eqb_eq]. }
             congruence. }
           by rewrite (Hbad Hlock).
      * destruct (try_to_get_table_untagged self "terraform_locks" log)
          as (msg & ->); [|done].
        by exists table, tags.
    + rewrite (try_to_get_table_tags_refused _ _ _ _ _ Hdescribe Htags).
      cbv beta iota. case_bool_decide; [|done].
      rewrite create_table_run.
      destruct (create_table _ _) as [table_arn|c] eqn:Hcreate; [|done].
      destruct (tag_resource _ table_arn _) as [[]|c] eqn:Htag; [|done].
      destruct (wait_table_exists _ _) eqn:Hwait; [|done].
      intros [= <- <-]. right.
      exists table_arn, [DescribeTable "terraform_locks";
                         ListTagsOfResource (TableArn table)].
      do 4 (split; [done|]).
      split; [constructor; [done|]; constructor; [done|]; constructor|].
      by rewrite <- !app_assoc.
  - rewrite (try_to_get_table_refused _ _ _ _ Hdescribe).
    unfold inspection. rewrite Hdescribe.
    cbv beta iota. case_bool_decide; [|done].
    rewrite create_table_run.
    destruct (create_table _ _) as [table_arn|c] eqn:Hcreate; [|done].
    destruct (tag_resource _ table_arn _) as [[]|c] eqn:Htag; [|done].
    destruct (wait_table_exists _ _) eqn:Hwait; [|done].
    intros [= <- <-]. right.
    exists table_arn, [DescribeTable "terraform_locks"].
    do 4 (split; [done|]).
    split; [constructor; [done|]; constructor|].
    by rewrite <- !app_assoc.
Qed.

Lemma get_table_name_sound_witness :
  (exists table,
      tagged_table {| _client := missing_table |} "terraform_locks" table
      /\ has_LockID table
      /\ "terraform_locks" = TableName table
      /\ [DescribeTable "terraform_locks";
          CreateTable (lock_table_request "terraform_locks");
          TagResource lock_table_arn [lock_tag];
          WaitTableExists "terraform_locks"]
         = [] ++ [DescribeTable "terraform_locks";
                  ListTagsOfResource (TableArn table)])
  \/ (exists table_arn before,
        "terraform_locks" = "terraform_locks"
        /\ create_table missing_table (lock_table_request "terraform_locks")
           = Reply table_arn
        /\ tag_resource missing_table table_arn [lock_tag] = Reply tt
        /\ wait_table_exists missing_table "terraform_locks" = true
        /\ Forall (fun c => writes_table c = false) before
        /\ [DescribeTable "terraform_locks";
            CreateTable (lock_table_request "terraform_locks");
            TagResource lock_table_arn [lock_tag];
            WaitTableExists "terraform_locks"]
           = [] ++ before
                ++ [CreateTable (lock_table_request "terraform_locks");
                    TagResource table_arn [lock_tag];
                    WaitTableExists "terraform_locks"]).
Proof.
  apply (get_table_name_sound {| _client := missing_table |} []).
  reflexivity.
Defined.

(** X12.  The handler of [get_table_name] also covers the listing of the
    tags.  When the table is described but the listing of its tags answers
    [ResourceNotFoundException], the table is created as if it were
    missing; any other error code of the listing is raised as it is. *)
Theorem get_table_name_tag_listing_refused
    (self : LockTableFactory) (table : table_description)
    (code : option string) (log : list dynamodb_call) :
  describe_table (_client self) "terraform_locks" = Reply table ->
  list_tags_of_resource (_client self) (TableArn table) = Error code ->
  (code = Some "ResourceNotFoundException" ->
   get_table_name self log
   = _create_table self "terraform_locks"
       (log ++ [DescribeTable "terraform_locks";
                ListTagsOfResource (TableArn table)]))
  /\ (code <> Some "ResourceNotFoundException" ->
      get_table_name self log
      = (Raise (ClientError code),
         log ++ [DescribeTable "terraform_locks";
                 ListTagsOfResource (TableArn table)])).
Proof.
  intros Hdescribe Htags.
  unfold get_table_name, try_except_ClientError, _resource_not_found,
    TABLE_NAME.
  rewrite (try_to_get_table_tags_refused _ _ _ _ _ Hdescribe Htags).
  cbv beta iota. split; intros Hcode.
  - by rewrite bool_decide_eq_true_2.
  - by rewrite bool_decide_eq_false_2.
Qed.

Lemma get_table_name_tag_listing_refused_witness :
  get_table_name {| _client := vanishing_table |} []
  = _create_table {| _client := vanishing_table |} "terraform_locks"
      ([] ++ [DescribeTable "terraform_locks";
              ListTagsOfResource "arn:terraform_locks"]).
Proof.
  exact (proj1 (get_table_name_tag_listing_refused
                  {| _client := vanishing_table |}
                  (table_named "terraform_locks")
                  (Some "ResourceNotFoundException") [] eq_refl eq_refl)
           eq_refl).
Defined.

(** X13.  When the table is missing, a failure on the way stops the
    creation: a refused [create_table] is raised before anything is tagged,
    a refused [tag_resource] is raised before the waiter is called, and a
    waiter that gives up raises [WaiterError]; no name is returned. *)
Theorem get_table_name_creation_fails
    (self : LockTableFactory) (log : list dynamodb_call) :
  describe_table (_client self) "terraform_locks"
    = Error (Some "ResourceNotFoundException") ->
  (forall code,
      create_table (_client self) (lock_table_request "terraform_locks")
        = Error code ->
      get_table_name self log
      = (Raise (ClientError code),
         log ++ [DescribeTable "terraform_locks";
                 CreateTable (lock_table_request "terraform_locks")]))
  /\ (forall table_arn code,
        create_table (_client self) (lock_table_request "terraform_locks")
          = Reply table_arn ->
        tag_resource (_client self) table_arn [lock_tag] = Error code ->
        get_table_name self log
        = (Raise (ClientError code),
           log ++ [DescribeTable "terraform_locks";
                   CreateTable (lock_table_request "terraform_locks");
                   TagResource table_arn [lock_tag]]))
  /\ (forall table_arn,
        create_table (_client self) (lock_table_request "terraform_locks")
          = Reply table_arn ->
        tag_resource (_client self) table_arn [lock_tag] = Reply tt ->
        wait_table_exists (_client self) "terraform_locks" = false ->
        get_table_name self log
        = (Raise WaiterError,
           log ++ [DescribeTable "terraform_locks";
                   CreateTable (lock_table_request "terraform_locks");
                   TagResource table_arn [lock_tag];
                   WaitTableExists "terraform_locks"])).
Proof.
  intros Hdescribe.
  assert (Hrun : get_table_name self log
            = _create_table self "terraform_locks"
                (log ++ [DescribeTable "terraform_locks"])).
  { unfold get_table_name, try_except_ClientError, _try_to_get_table,
      TABLE_NAME.
    erewrite bind_raise; [|unfold call; rewrite Hdescribe; reflexivity].
    reflexivity. }
  rewrite Hrun, create_table_run. split; [|split].
  - intros code ->. by rewrite <- app_assoc.
  - intros table_arn code -> ->. by rewrite <- app_assoc.
  - intros table_arn -> -> ->. by rewrite <- app_assoc.
Qed.

Lemma get_table_name_creation_fails_witness :
  get_table_name {| _client := stuck_table |} []
  = (Raise WaiterError,
     [] ++ [DescribeTable "terraform_locks";
            CreateTable (lock_table_request "terraform_locks");
            TagResource lock_table_arn [lock_tag];
            WaitTableExists "terraform_locks"]).
Proof.
  exact (proj2 (proj2 (get_table_name_creation_fails
                         {| _client := stuck_table |} [] eq_refl))
           lock_table_arn eq_refl eq_refl eq_refl).
Defined.

End LockTableMore.

(** ** build_service_name and ECSEventIterator *)

Module EcsFacts.
Import EcsMonitor.

(** C7.  [build_service_name] is a function of (environment, component).
    When ['environment-component'] is longer than 32 characters the result
    is its first 24 characters, then ["tf"], then the first 4 hex
    characters of the SHA-1 of the whole name; its length is at most 32. *)
Theorem build_service_name_collapses (environment component : string) :
  32 < String.length (environment +:+ "-" +:+ component) ->
  (forall environment' component',
      environment' = environment -> component' = component ->
      build_service_name environment' component'
      = build_service_name environment component)
  /\ build_service_name environment component
     = PyStr.slice_to 24 (environment +:+ "-" +:+ component)
         +:+ "tf"
         +:+ PyStr.slice_to 4
               (Sha1.sha1_hex (environment +:+ "-" +:+ component))
  /\ String.length (build_service_name environment component) <= 32.
Proof.
  intros Hlong.
  assert (Heq : build_service_name environment component
                = PyStr.slice_to 24 (environment +:+ "-" +:+ component)
                    +:+ "tf"
                    +:+ PyStr.slice_to 4
                          (Sha1.sha1_hex
                             (environment +:+ "-" +:+ component))).
  { unfold build_service_name.
    destruct (Nat.ltb_spec 32
                (String.length (environment +:+ "-" +:+ component)));
      [reflexivity | lia]. }
  split; [by intros ? ? -> ->|]. split; [exact Heq|].
  rewrite Heq, !length_append, !length_slice_to.
  change (String.length "tf") with 2. lia.
Qed.

Lemma build_service_name_collapses_witness :
  build_service_name "an-environment-name" "a-rather-long-component-name"
  = "an-environment-name-a-ratf142c".
Proof.
  rewrite (proj1 (proj2 (build_service_name_collapses
                           "an-environment-name"
                           "a-rather-long-component-name"
                           ltac:(simpl; lia)))).
  vm_compute. reflexivity.
Defined.

(** Exceptions that the lookups of a poll can raise. *)
Lemma item_run {S A} (xs : list A) (i : nat) (s : S) :
  (exists x, xs !! i = Some x /\ item xs i s = (Ok x, s))
  \/ (xs !! i = None /\ item xs i s = (Raise IndexError, s)).
Proof. unfold item. destruct (xs !! i); [left | right]; eauto. Qed.

Lemma primary_deployment_run ecs self :
  exists r,
    _get_primary_deployment ecs self
    = (r, record_call
            (DescribeServices (_cluster self) [service_name self]) self)
    /\ forall e, r = Raise e ->
                 e = IndexError \/ exists code, e = ClientError code.
Proof.
  unfold _get_primary_deployment, bind, ecs_request.
  destruct (describe_services _ _ _) as [services|code].
  - destruct (item_run services 0
                (record_call
                   (DescribeServices (_cluster self) [service_name self])
                   self)) as [(svc & _ & ->) | [_ ->]].
    + match goal with |- context [item ?xs 0 ?s] =>
        destruct (item_run xs 0 s) as [(d & _ & ->) | [_ ->]] end.
      * eexists. split; [reflexivity|]. discriminate.
      * eexists. split; [reflexivity|]. intros e [= <-]. by left.
    + eexists. split; [reflexivity|]. intros e [= <-]. by left.
  - eexists. split; [reflexivity|]. intros e [= <-]. right. eauto.
Qed.

Lemma release_image_run ecs arn self :
  exists r self',
    _get_release_image ecs arn self = (r, self')
    /\ _done self' = _done self
    /\ forall e, r = Raise e ->
                 e = IndexError \/ exists code, e = ClientError code.
Proof.
  unfold _get_release_image, _get_release_image_uncached, bind, ecs_request.
  destruct (cache_lookup arn (_release_images self)) as [cached|].
  - do 2 eexists. split; [reflexivity|]. split; [done|]. discriminate.
  - destruct (describe_task_definition ecs arn) as [containers|code].
    + destruct (item_run containers 0
                  (record_call (DescribeTaskDefinition arn) self))
        as [(c & _ & ->) | [_ ->]].
      * match goal with |- context [item ?xs 1 ?s] =>
          destruct (item_run xs 1 s) as [(img & _ & ->) | [_ ->]] end.
        -- do 2 eexists. split; [reflexivity|]. split; [done|]. discriminate.
        -- do 2 eexists. split; [reflexivity|]. split; [done|].
           intros e [= <-]. by left.
      * do 2 eexists. split; [reflexivity|]. split; [done|].
        intros e [= <-]. by left.
    + do 2 eexists. split; [reflexivity|]. split; [done|].
      intros e [= <-]. right. eauto.
Qed.

Lemma primary_deployment_found ecs self d :
  primary_of ecs self d ->
  _get_primary_deployment ecs self
  = (Ok d, record_call
             (DescribeServices (_cluster self) [service_name self]) self).
Proof.
  intros (svc & others & Hdescribe & Hhead).
  unfold _get_primary_deployment, bind, ecs_request. rewrite Hdescribe.
  simpl. unfold item.
  destruct (List.filter _ (deployments svc)) as [|d' ds]; [done|].
  simpl in *. by inversion Hhead.
Qed.

Lemma release_image_found ecs self arn release_image :
  release_image_of ecs self arn release_image ->
  exists self',
    _get_release_image ecs arn self = (Ok release_image, self')
    /\ _done self' = _done self.
Proof.
  unfold _get_release_image, _get_release_image_uncached, bind, ecs_request.
  intros [-> | (-> & c & others & registry & rest & -> & Hsplit)].
  - eexists. split; [reflexivity | done].
  - simpl. rewrite Hsplit. simpl. eexists. split; [reflexivity | done].
Qed.

(** An image [registry/name:tag] that is looked up for the first time has
    the release image [name:tag]. *)
Lemma release_image_of_fresh ecs self arn container others registry name_tag :
  cache_lookup arn (_release_images self) = None ->
  describe_task_definition ecs arn = Reply (container :: others) ->
  image container = registry +:+ "/" +:+ name_tag ->
  PyStr.split "/" registry = [registry] ->
  PyStr.split "/" name_tag = [name_tag] ->
  release_image_of ecs self arn name_tag.
Proof.
  intros Hmiss Hdescribe Himage Hregistry Hname. right. split; [done|].
  exists container, others, registry, [].
  split; [done|]. rewrite Himage, append_cons, append_nil.
  by rewrite split_after_first, Hname.
Qed.

(** The latch: an iterator that is done stops without a call. *)
Lemma next_when_done ecs self :
  _done self = true -> __next__ ecs self = (Raise StopIteration, self).
Proof. intros Hdone. unfold __next__. by rewrite Hdone. Qed.

(** The four ways a call of [__next__] can go. *)
Lemma next_cases ecs self :
  (_done self = true /\ __next__ ecs self = (Raise StopIteration, self))
  \/ (_done self = false
      /\ exists self',
           _done self' = false
           /\ ((exists e, e <> StopIteration
                          /\ __next__ ecs self = (Raise e, self'))
               \/ exists running desired,
                    __next__ ecs self
                    = (Ok (InProgressEvent running desired), self')))
  \/ (_done self = false
      /\ exists running desired self',
           _done self' = true
           /\ __next__ ecs self = (Ok (DoneEvent running desired), self')).
Proof.
  destruct (_done self) eqn:Hdone; [left; by rewrite next_when_done|].
  right.
  remember (__next__ ecs self) as out eqn:Hout.
  unfold __next__ in Hout. rewrite Hdone in Hout.
  destruct (primary_deployment_run ecs self) as (r & Hprimary & Hexn).
  unfold bind at 1 in Hout. rewrite Hprimary in Hout.
  destruct r as [d|e].
  - cbv beta iota in Hout. unfold bind at 1 in Hout.
    destruct (release_image_run ecs (taskDefinition d)
                (record_call
                   (DescribeServices (_cluster self) [service_name self])
                   self))
      as (r' & self' & Himage & Hdone' & Hexn').
    rewrite Himage in Hout. simpl in Hdone'.
    rewrite Hdone in Hdone'.
    destruct r' as [release_image|e].
    + destruct (negb (String.eqb release_image _)).
      * left. split; [done|]. exists self'. split; [done|]. left.
        exists ImageDoesNotMatchError. by split.
      * destruct (negb (runningCount d =? desiredCount d)%Z).
        -- left. split; [done|]. exists self'. split; [done|]. right.
           by do 2 eexists.
        -- right. split; [done|]. do 3 eexists. split; [|exact Hout].
           reflexivity.
    + left. split; [done|]. exists self'. split; [done|]. left.
      exists e. split; [|done].
      destruct (Hexn' e eq_refl) as [-> | (code & ->)]; discriminate.
  - left. split; [done|]. eexists. split; [|left; exists e; split;
                                             [|exact Hout]].
    + done.
    + destruct (Hexn e eq_refl) as [-> | (code & ->)]; discriminate.
Qed.

(** A poll whose primary deployment is found goes by the outcome of
    [_get_release_image]. *)
Lemma next_at_release_image ecs self d release_image self' :
  _done self = false ->
  primary_of ecs self d ->
  _get_release_image ecs (taskDefinition d)
    (record_call (DescribeServices (_cluster self) [service_name self]) self)
  = (Ok release_image, self') ->
  __next__ ecs self
  = (if negb (String.eqb release_image
                (_component self +:+ ":" +:+ _version self))
     then raise ImageDoesNotMatchError
     else if negb (runningCount d =? desiredCount d)%Z
          then ret (InProgressEvent (runningCount d) (desiredCount d))
          else fun s => (Ok (DoneEvent (runningCount d) (desiredCount d)),
                         set_done s)) self'.
Proof.
  intros Hdone Hprimary Hrun. unfold __next__. rewrite Hdone.
  rewrite (bind_ok _ _ _ _ _ (primary_deployment_found _ _ _ Hprimary)).
  by rewrite (bind_ok _ _ _ _ _ Hrun).
Qed.

Lemma next_release_image_raises ecs self d e self' :
  _done self = false ->
  primary_of ecs self d ->
  _get_release_image ecs (taskDefinition d)
    (record_call (DescribeServices (_cluster self) [service_name self]) self)
  = (Raise e, self') ->
  __next__ ecs self = (Raise e, self').
Proof.
  intros Hdone Hprimary Hrun. unfold __next__. rewrite Hdone.
  rewrite (bind_ok _ _ _ _ _ (primary_deployment_found _ _ _ Hprimary)).
  by apply bind_raise.
Qed.

(** C5, as the code has it.  A poll of an iterator that is not done and
    whose service has the primary deployment [d] does not compare the
    container image with ['<component>:<version>'] but its release image:
    the value cached for the task definition of [d], or else the piece
    between the first and the second ['/'] of the image of the first
    container definition.
    - The release image differs from ['<component>:<version>']:
      [ImageDoesNotMatchError], no event, whatever the counts are.
    - It is equal and [runningCount != desiredCount]: [InProgress].
    - It is equal and [runningCount == desiredCount]: [Done], and the
      latch is set.
    - The task definition is not cached and has no container definition,
      or the image of its first container holds no ['/']: [IndexError],
      also when that image is ['<component>:<version>'] itself.
    - The task definition is not cached and describing it is refused:
      that [ClientError]. *)
Theorem next_event_by_image_and_counts
    (ecs : ecs_client) (self : ECSEventIterator) (d : deployment) :
  _done self = false ->
  primary_of ecs self d ->
  let asked :=
    record_call (DescribeServices (_cluster self) [service_name self])
                self in
  (forall release_image,
      release_image_of ecs self (taskDefinition d) release_image ->
      (release_image <> _component self +:+ ":" +:+ _version self ->
       exists self',
         __next__ ecs self = (Raise ImageDoesNotMatchError, self')
         /\ _done self' = false)
      /\ (release_image = _component self +:+ ":" +:+ _version self ->
          runningCount d <> desiredCount d ->
          exists self',
            __next__ ecs self
            = (Ok (InProgressEvent (runningCount d) (desiredCount d)),
               self')
            /\ _done self' = false)
      /\ (release_image = _component self +:+ ":" +:+ _version self ->
          runningCount d = desiredCount d ->
          exists self',
            __next__ ecs self
            = (Ok (DoneEvent (runningCount d) (desiredCount d)), self')
            /\ _done self' = true))
  /\ (cache_lookup (taskDefinition d) (_release_images self) = None ->
      (describe_task_definition ecs (taskDefinition d) = Reply []
       \/ exists container others,
            describe_task_definition ecs (taskDefinition d)
              = Reply (container :: others)
            /\ PyStr.all_chars (fun c => negb (Ascii.eqb c "/"))
                               (image container) = true) ->
      __next__ ecs self
      = (Raise IndexError,
         record_call (DescribeTaskDefinition (taskDefinition d)) asked))
  /\ (forall code,
        cache_lookup (taskDefinition d) (_release_images self) = None ->
        describe_task_definition ecs (taskDefinition d) = Error code ->
        __next__ ecs self
        = (Raise (ClientError code),
           record_call (DescribeTaskDefinition (taskDefinition d)) asked)).
Proof.
  intros Hdone Hprimary asked. split; [|split].
  - intros release_image Himage.
    destruct (release_image_found ecs asked (taskDefinition d)
                release_image Himage) as (self' & Hrun & Hdone').
    simpl in Hdone'. rewrite Hdone in Hdone'.
    rewrite (next_at_release_image _ _ _ _ _ Hdone Hprimary Hrun).
    split; [|split].
    + intros Hne. apply String.eqb_neq in Hne. rewrite Hne. simpl.
      by exists self'.
    + intros Heq Hcounts. apply String.eqb_eq in Heq. rewrite Heq.
      apply Z.eqb_neq in Hcounts. rewrite Hcounts. simpl. by exists self'.
    + intros Heq Hcounts. apply String.eqb_eq in Heq. rewrite Heq.
      apply Z.eqb_eq in Hcounts. rewrite Hcounts. simpl.
      by exists (set_done self').
  - intros Hmiss Himage.
    apply (next_release_image_raises _ _ d); [done | done |].
    unfold _get_release_image. fold asked.
    replace (_release_images asked) with (_release_images self)
      by reflexivity.
    rewrite Hmiss.
    unfold _get_release_image_uncached, bind, ecs_request.
    destruct Himage as [-> | (container & others & -> & Hslash)];
      [reflexivity|].
    simpl. by rewrite (split_without_separator _ _ Hslash).
  - intros code Hmiss Hdescribe.
    apply (next_release_image_raises _ _ d); [done | done |].
    unfold _get_release_image. fold asked.
    replace (_release_images asked) with (_release_images self)
      by reflexivity.
    rewrite Hmiss.
    unfold _get_release_image_uncached, bind, ecs_request.
    by rewrite Hdescribe.
Qed.

Lemma next_event_by_image_and_counts_witness :
  exists self',
    __next__ (poll 3 3 "registry.example.com/svc:1.2.3") monitor
    = (Ok (DoneEvent 3 3), self')
    /\ _done self' = true.
Proof.
  refine (proj2 (proj2 (proj1 (next_event_by_image_and_counts
                                 (poll 3 3 "registry.example.com/svc:1.2.3")
                                 monitor
                                 {| status := "PRIMARY";
                                    taskDefinition := "arn:task:7";
                                    runningCount := 3; desiredCount := 3 |}
                                 eq_refl _)
                          "svc:1.2.3" _))
            eq_refl eq_refl).
  - do 2 eexists. split; reflexivity.
  - right. split; [reflexivity|]. do 4 eexists. split; reflexivity.
Defined.

(** C5 as stated fails.  The primary deployment runs 3 of 3 desired tasks
    and the image of its container is ['svc:1.2.3'], which equals
    ['<component>:<version>'] for the component [svc] at version [1.2.3];
    the poll raises [IndexError] instead of returning [Done(3, 3)],
    because the image has no piece after a ['/']. *)
Lemma next_event_by_image_and_counts_counterexample :
  _done monitor = false
  /\ primary_of (poll 3 3 "svc:1.2.3") monitor
       {| status := "PRIMARY"; taskDefinition := "arn:task:7";
          runningCount := 3; desiredCount := 3 |}
  /\ describe_task_definition (poll 3 3 "svc:1.2.3") "arn:task:7"
     = Reply [{| image := "svc:1.2.3" |}]
  /\ "svc:1.2.3" = _component monitor +:+ ":" +:+ _version monitor
  /\ (__next__ (poll 3 3 "svc:1.2.3") monitor).1 = Raise IndexError
  /\ (__next__ (poll 3 3 "svc:1.2.3") monitor).1 <> Ok (DoneEvent 3 3).
Proof.
  split; [reflexivity|].
  split; [do 2 eexists; split; reflexivity|].
  split; [reflexivity|]. split; [reflexivity|].
  split; [vm_compute; reflexivity | vm_compute; discriminate].
Qed.

(** C10.  A poll of an iterator that is not done for which
    [describe_services] reports no service, or a first service none of
    whose deployments has status [PRIMARY], raises [IndexError]. *)
Theorem next_without_primary_deployment
    (ecs : ecs_client) (self : ECSEventIterator) (services : list service) :
  _done self = false ->
  describe_services ecs (_cluster self) [service_name self]
    = Reply services ->
  (services = []
   \/ exists first_service others,
        services = first_service :: others
        /\ Forall (fun d => status d <> "PRIMARY")
                  (deployments first_service)) ->
  __next__ ecs self
  = (Raise IndexError,
     record_call (DescribeServices (_cluster self) [service_name self])
                 self).
Proof.
  intros Hdone Hdescribe Hmissing.
  unfold __next__. rewrite Hdone.
  apply bind_raise.
  unfold _get_primary_deployment, bind, ecs_request. rewrite Hdescribe.
  destruct Hmissing as [-> | (first_service & others & -> & Hnone)];
    [reflexivity|].
  simpl. unfold item.
  replace (List.filter _ (deployments first_service)) with (@nil deployment);
    [reflexivity|].
  symmetry. induction Hnone as [|d ds Hd _ IH]; [reflexivity|].
  simpl. apply String.eqb_neq in Hd. by rewrite Hd.
Qed.

Lemma next_without_primary_deployment_witness :
  __next__ poll_without_primary monitor
  = (Raise IndexError,
     record_call (DescribeServices "cluster" ["live-svc"]) monitor).
Proof.
  refine (next_without_primary_deployment poll_without_primary monitor
            _ eq_refl eq_refl _).
  right. do 2 eexists. split; [reflexivity|].
  constructor; [discriminate | constructor].
Defined.

Lemma iterate_step ecs later self :
  iterate (ecs :: later) self
  = match __next__ ecs self with
    | (Ok ev, self') =>
        let '(evs, e, final) := iterate later self' in (ev :: evs, e, final)
    | (Raise StopIteration, self') => ([], Stopped, self')
    | (Raise e, self') => ([], Failed e, self')
    end.
Proof. reflexivity. Qed.

Lemma iterate_shape polls : forall self,
  _done self = false ->
  progress_then_done (iterate polls self).1.1 (iterate polls self).1.2.
Proof.
  induction polls as [|ecs later IH]; intros self Hdone.
  - exists []. split; [constructor|]. by left.
  - rewrite iterate_step.
    destruct (next_cases ecs self)
      as [[Hd _] | [(_ & self' & Hdone' & Hrun)
                   | (_ & running & desired & self' & Hdone' & Hrun)]];
      [congruence| |].
    + destruct Hrun as [(e & He & ->) | (running & desired & ->)].
      * exists []. split; [constructor|]. by destruct e.
      * specialize (IH self' Hdone').
        destruct (iterate later self') as [[evs e] final]. simpl in *.
        destruct IH as (progress & Hprogress & Hshape).
        exists (InProgressEvent running desired :: progress).
        split; [by constructor|].
        destruct e; simpl; [| by subst |].
        -- destruct Hshape as (r & d & ->). by exists r, d.
        -- destruct Hshape as [-> | (r & d & ->)]; [by left|].
           right. by exists r, d.
    + rewrite Hrun. exists []. split; [constructor|].
      destruct later as [|ecs' later']; simpl.
      * right. by exists running, desired.
      * rewrite (next_when_done ecs' self' Hdone'). simpl.
        by exists running, desired.
Qed.

(** C6.  Once [__next__] has returned a [Done] event, every later call
    raises [StopIteration] and leaves the iterator as it is, the log of
    its API calls included.  The events of a loop over the iterator are
    zero or more [InProgress] events followed by exactly one [Done] event
    when the loop ends by [StopIteration], and [InProgress] events only
    when it ends in an error. *)
Theorem done_event_is_last (polls : list ecs_client)
    (self : ECSEventIterator) :
  _done self = false ->
  (forall ecs running desired self',
      __next__ ecs self = (Ok (DoneEvent running desired), self') ->
      forall ecs', __next__ ecs' self' = (Raise StopIteration, self'))
  /\ progress_then_done (iterate polls self).1.1 (iterate polls self).1.2.
Proof.
  intros Hdone. split; [|by apply iterate_shape].
  intros ecs running desired self' Hrun ecs'.
  apply next_when_done.
  destruct (next_cases ecs self)
    as [[_ Hstop] | [(_ & self'' & _ & [(e & _ & Hraise) | (r & d & Hin)])
                    | (_ & r & d & self'' & Hdone'' & Hdone_ev)]];
    congruence.
Qed.

Lemma done_event_is_last_witness :
  progress_then_done
    (iterate [poll 1 3 "registry.example.com/svc:1.2.3";
              poll 3 3 "registry.example.com/svc:1.2.3";
              poll 3 3 "registry.example.com/svc:1.2.3"] monitor).1.1
    (iterate [poll 1 3 "registry.example.com/svc:1.2.3";
              poll 3 3 "registry.example.com/svc:1.2.3";
              poll 3 3 "registry.example.com/svc:1.2.3"] monitor).1.2.
Proof.
  exact (proj2 (done_event_is_last
                  [poll 1 3 "registry.example.com/svc:1.2.3";
                   poll 3 3 "registry.example.com/svc:1.2.3";
                   poll 3 3 "registry.example.com/svc:1.2.3"]
                  monitor eq_refl)).
Defined.

Example iterate_example :
  (iterate [poll 1 3 "registry.example.com/svc:1.2.3";
            poll 3 3 "registry.example.com/svc:1.2.3";
            poll 3 3 "registry.example.com/svc:1.2.3"] monitor).1
  = ([InProgressEvent 1 3; DoneEvent 3 3], Stopped).
Proof. vm_compute. reflexivity. Qed.

End EcsFacts.

(** ** build_service_name and ECSEventIterator: lengths, the cache, the calls *)

Module EcsMore.
Import EcsMonitor EcsFacts.

(** X14.  A service name of at most 32 characters is returned as it is and
    a longer one is collapsed to exactly 30 characters, so that the result
    never exceeds 32 characters. *)
Theorem build_service_name_length (environment component : string) :
  (String.length (environment +:+ "-" +:+ component) <= 32 ->
   build_service_name environment component
   = environment +:+ "-" +:+ component)
  /\ (32 < String.length (environment +:+ "-" +:+ component) ->
      String.length (build_service_name environment component) = 30)
  /\ String.length (build_service_name environment component) <= 32.
Proof.
  unfold build_service_name.
  destruct (Nat.ltb_spec 32
              (String.length (environment +:+ "-" +:+ component)))
    as [Hlong | Hshort].
  - assert (Hlen : String.length
                     (PyStr.slice_to 24 (environment +:+ "-" +:+ component)
                      +:+ "tf"
                      +:+ PyStr.slice_to 4
                            (Sha1.sha1_hex
                               (environment +:+ "-" +:+ component))) = 30).
    { rewrite !length_append, !length_slice_to.
      unfold Sha1.sha1_hex. rewrite (proj1 (hexdigest_shape _)).
      change (String.length "tf") with 2. lia. }
    split; [lia|]. split; [done | lia].
  - split; [done|]. split; [lia | done].
Qed.

Lemma build_service_name_length_witness :
  String.length
    (build_service_name "an-environment-name" "a-rather-long-component-name")
  = 30.
Proof.
  exact (proj1 (proj2 (build_service_name_length
                         "an-environment-name"
                         "a-rather-long-component-name"))
           ltac:(simpl; lia)).
Defined.

(** *** The cache of release images *)

Lemma cache_remove_shorter arn release_image entries :
  cache_lookup arn entries = Some release_image ->
  length (cache_remove arn entries) < length entries.
Proof.
  unfold cache_lookup, cache_remove.
  induction entries as [|[k v] entries IH]; simpl; [done|].
  destruct (String.eqb k arn); simpl.
  - intros _. pose proof (List.filter_length_le
                            (fun e => negb (String.eqb e.1 arn)) entries).
    lia.
  - intros Hfind. specialize (IH Hfind). lia.
Qed.

(** The body of [_get_release_image] leaves the cache alone and logs one
    call. *)
Lemma uncached_run ecs arn self :
  exists r,
    _get_release_image_uncached ecs arn self
    = (r, record_call (DescribeTaskDefinition arn) self)
    /\ forall e, r = Raise e ->
                 e = IndexError \/ exists code, e = ClientError code.
Proof.
  unfold _get_release_image_uncached, bind, ecs_request.
  destruct (describe_task_definition ecs arn) as [containers|code].
  - destruct (item_run containers 0
                (record_call (DescribeTaskDefinition arn) self))
      as [(c & _ & ->) | [_ ->]].
    + match goal with |- context [item ?xs 1 ?s] =>
        destruct (item_run xs 1 s) as [(img & _ & ->) | [_ ->]] end.
      * eexists. split; [reflexivity | discriminate].
      * eexists. split; [reflexivity|]. intros e [= <-]. by left.
    + eexists. split; [reflexivity|]. intros e [= <-]. by left.
  - eexists. split; [reflexivity|]. intros e [= <-]. right. eauto.
Qed.

Lemma release_image_bound ecs arn self :
  length (_release_images self) <= 10 ->
  length (_release_images (_get_release_image ecs arn self).2) <= 10.
Proof.
  intros Hbound. unfold _get_release_image.
  destruct (cache_lookup arn (_release_images self)) as [cached|] eqn:Hlookup.
  - simpl. pose proof (cache_remove_shorter _ _ _ Hlookup). lia.
  - destruct (uncached_run ecs arn self) as (r & -> & _).
    destruct r as [image|e]; simpl; [|done].
    rewrite length_take. lia.
Qed.

Lemma next_bound ecs self :
  length (_release_images self) <= 10 ->
  length (_release_images (__next__ ecs self).2) <= 10.
Proof.
  intros Hbound. unfold __next__.
  destruct (_done self); [done|].
  destruct (primary_deployment_run ecs self) as (r & Hprimary & _).
  unfold bind at 1. rewrite Hprimary.
  destruct r as [d|e]; [|done].
  cbv beta iota. unfold bind at 1.
  pose proof (release_image_bound ecs (taskDefinition d)
                (record_call
                   (DescribeServices (_cluster self) [service_name self])
                   self) Hbound) as Hnext.
  destruct (_get_release_image ecs (taskDefinition d) _) as [[image|e] self'];
    [|done].
  simpl in Hnext.
  destruct (negb (String.eqb image _)); [done|].
  by destruct (negb (runningCount d =? desiredCount d)%Z).
Qed.

(** X16.  The cache of release images never holds more than ten entries:
    a loop over an iterator that holds at most ten leaves at most ten,
    however many polls it makes and however it ends. *)
Theorem cache_stays_bounded (polls : list ecs_client)
    (self : ECSEventIterator) :
  length (_release_images self) <= 10 ->
  length (_release_images (iterate polls self).2) <= 10.
Proof.
  revert self. induction polls as [|ecs later IH]; intros self Hbound;
    [done|].
  rewrite iterate_step.
  pose proof (next_bound ecs self Hbound) as Hnext.
  destruct (__next__ ecs self) as [[ev|e] self']; simpl in Hnext.
  - specialize (IH self' Hnext).
    by destruct (iterate later self') as [[evs e] final].
  - by destruct e.
Qed.

Lemma cache_stays_bounded_witness :
  length (_release_images
            (iterate [poll 1 3 "registry.example.com/svc:1.2.3";
                      poll 3 3 "registry.example.com/svc:1.2.3"]
                     monitor).2) <= 10.
Proof.
  apply (cache_stays_bounded
           [poll 1 3 "registry.example.com/svc:1.2.3";
            poll 3 3 "registry.example.com/svc:1.2.3"] monitor).
  simpl. lia.
Defined.

(** *** The calls of a poll *)

Lemma primary_deployment_inv ecs self d self' :
  _get_primary_deployment ecs self = (Ok d, self') -> primary_of ecs self d.
Proof.
  unfold _get_primary_deployment, bind, ecs_request, primary_of.
  destruct (describe_services ecs (_cluster self) [service_name self])
    as [services|code]; [|done].
  destruct services as [|first_service others]; [done|].
  simpl. unfold item.
  destruct (List.filter _ (deployments first_service)) as [|d' ds] eqn:Hf;
    [done|].
  simpl. intros [= <- _]. exists first_service, others.
  split; [done|]. by rewrite Hf.
Qed.

(** [_get_release_image] changes the cache and the log only, and the log
    by one call at most. *)
Lemma release_image_frame ecs arn self :
  let self' := (_get_release_image ecs arn self).2 in
  _cluster self' = _cluster self /\ _environment self' = _environment self
  /\ _component self' = _component self /\ _version self' = _version self
  /\ _done self' = _done self
  /\ (_calls self' = _calls self
      \/ _calls self' = _calls self ++ [DescribeTaskDefinition arn]).
Proof.
  unfold _get_release_image.
  destruct (cache_lookup arn (_release_images self)) as [cached|].
  - simpl. repeat split; try done. by left.
  - destruct (uncached_run ecs arn self) as (r & -> & _).
    destruct r as [image|e]; simpl; repeat split; try done; by right.
Qed.

(** X17.  A poll of an iterator that is not done issues one
    [describe_services] call, for the service name computed from the
    environment and the component, and after it at most one
    [describe_task_definition] call, for the task definition of the primary
    deployment; the cluster, environment, component and version of the
    iterator never change. *)
Theorem next_calls (ecs : ecs_client) (self : ECSEventIterator) :
  _done self = false ->
  let self' := (__next__ ecs self).2 in
  (exists more,
      _calls self'
      = _calls self
          ++ DescribeServices (_cluster self)
               [build_service_name (_environment self) (_component self)]
          :: more
      /\ (more = []
          \/ exists d,
               primary_of ecs self d
               /\ more = [DescribeTaskDefinition (taskDefinition d)]))
  /\ _cluster self' = _cluster self /\ _environment self' = _environment self
  /\ _component self' = _component self /\ _version self' = _version self.
Proof.
  intros Hdone. cbv zeta.
  remember (__next__ ecs self) as out eqn:Hout.
  unfold __next__ in Hout. rewrite Hdone in Hout.
  destruct (primary_deployment_run ecs self) as (r & Hprimary & _).
  unfold bind at 1 in Hout. rewrite Hprimary in Hout.
  destruct r as [d|e].
  2: { subst out. split; [|done]. exists []. split; [done | by left]. }
  apply primary_deployment_inv in Hprimary.
  cbv beta iota in Hout. unfold bind at 1 in Hout.
  pose proof (release_image_frame ecs (taskDefinition d)
                (record_call
                   (DescribeServices (_cluster self) [service_name self])
                   self)) as Hframe.
  destruct (_get_release_image ecs (taskDefinition d) _) as [r self'].
  simpl in Hframe.
  destruct Hframe as (Hc & He & Hco & Hv & _ & Hcalls).
  assert (Hlog : exists more,
             _calls self'
             = _calls self
                 ++ DescribeServices (_cluster self)
                      [build_service_name (_environment self)
                                          (_component self)] :: more
             /\ (more = []
                 \/ exists d,
                      primary_of ecs self d
                      /\ more = [DescribeTaskDefinition (taskDefinition d)])).
  { destruct Hcalls as [-> | ->].
    - exists []. split; [done | by left].
    - exists [DescribeTaskDefinition (taskDefinition d)].
      split; [by rewrite <- app_assoc|]. right. by exists d. }
  destruct r as [image|e]; [|by subst out].
  destruct (negb (String.eqb image _)); [by subst out|].
  destruct (negb (runningCount d =? desiredCount d)%Z); by subst out.
Qed.

Lemma next_calls_witness :
  let self' := (__next__ (poll 1 3 "registry.example.com/svc:1.2.3")
                         monitor).2 in
  (exists more,
      _calls self'
      = _calls monitor
          ++ DescribeServices (_cluster monitor)
               [build_service_name (_environment monitor)
                                   (_component monitor)]
          :: more
      /\ (more = []
          \/ exists d,
               primary_of (poll 1 3 "registry.example.com/svc:1.2.3")
                          monitor d
               /\ more = [DescribeTaskDefinition (taskDefinition d)]))
  /\ _cluster self' = _cluster monitor
  /\ _environment self' = _environment monitor
  /\ _component self' = _component monitor
  /\ _version self' = _version monitor.
Proof.
  exact (next_calls (poll 1 3 "registry.example.com/svc:1.2.3") monitor
           eq_refl).
Defined.

(** X18.  The latch is set by a [Done] event and by nothing else: after a
    call of [__next__] the iterator is done exactly when it was done before
    or the call returned a [Done] event.  An [InProgress] event and any
    exception, [ImageDoesNotMatchError] included, leave it open. *)
Theorem latch_set_by_done_only (ecs : ecs_client) (self : ECSEventIterator) :
  _done (__next__ ecs self).2 = true
  <-> (_done self = true
       \/ exists running desired,
            (__next__ ecs self).1 = Ok (DoneEvent running desired)).
Proof.
  destruct (next_cases ecs self)
    as [[Hd ->] | [(Hd & self' & Hd' & [(e & _ & ->) | (r & d & ->)])
                  | (Hd & r & d & self' & Hd' & ->)]]; simpl.
  - split; [by left | done].
  - split; [congruence|]. intros [? | (? & ? & ?)]; congruence.
  - split; [congruence|]. intros [? | (? & ? & ?)]; congruence.
  - split; [|done]. intros _. right. by exists r, d.
Qed.

(** X19.  The errors of the two API calls are raised as they are: a refused
    [describe_services], or a refused [describe_task_definition] for a task
    definition that is not cached, makes [__next__] raise that
    [ClientError]; the iterator stays open and nothing is cached. *)
Theorem next_client_errors (ecs : ecs_client) (self : ECSEventIterator) :
  _done self = false ->
  (forall code,
      describe_services ecs (_cluster self) [service_name self] = Error code ->
      __next__ ecs self
      = (Raise (ClientError code),
         record_call (DescribeServices (_cluster self) [service_name self])
                     self))
  /\ (forall d code,
        primary_of ecs self d ->
        cache_lookup (taskDefinition d) (_release_images self) = None ->
        describe_task_definition ecs (taskDefinition d) = Error code ->
        __next__ ecs self
        = (Raise (ClientError code),
           record_call (DescribeTaskDefinition (taskDefinition d))
             (record_call
                (DescribeServices (_cluster self) [service_name self])
                self))).
Proof.
  intros Hdone. split.
  - intros code Hdescribe. unfold __next__. rewrite Hdone.
    apply bind_raise.
    unfold _get_primary_deployment, bind, ecs_request. by rewrite Hdescribe.
  - intros d code Hprimary Hmiss Hdescribe.
    unfold __next__. rewrite Hdone.
    rewrite (bind_ok _ _ _ _ _ (primary_deployment_found _ _ _ Hprimary)).
    apply bind_raise.
    unfold _get_release_image.
    cbn [_release_images record_call]. rewrite Hmiss.
    unfold _get_release_image_uncached, bind, ecs_request.
    by rewrite Hdescribe.
Qed.

Lemma next_client_errors_witness :
  __next__
    {| describe_services := fun _ _ => Error (Some "ClusterNotFoundException");
       describe_task_definition := fun _ => Reply [] |} monitor
  = (Raise (ClientError (Some "ClusterNotFoundException")),
     record_call (DescribeServices "cluster" ["live-svc"]) monitor).
Proof.
  exact (proj1 (next_client_errors
                  {| describe_services :=
                       fun _ _ => Error (Some "ClusterNotFoundException");
                     describe_task_definition := fun _ => Reply [] |}
                  monitor eq_refl)
           (Some "ClusterNotFoundException") eq_refl).
Defined.

(** X20.  An image reference that cannot be cut after a ['/'] cannot be
    monitored: when the task definition of the primary deployment is not
    cached and has no container definition, or the image of its first
    container holds no ['/'], [__next__] raises [IndexError], also when the
    image equals ['<component>:<version>']. *)
Theorem next_image_without_registry
    (ecs : ecs_client) (self : ECSEventIterator) (d : deployment) :
  _done self = false ->
  primary_of ecs self d ->
  cache_lookup (taskDefinition d) (_release_images self) = None ->
  (describe_task_definition ecs (taskDefinition d) = Reply []
   \/ exists container others,
        describe_task_definition ecs (taskDefinition d)
          = Reply (container :: others)
        /\ PyStr.all_chars (fun c => negb (Ascii.eqb c "/"))
                           (image container) = true) ->
  __next__ ecs self
  = (Raise IndexError,
     record_call (DescribeTaskDefinition (taskDefinition d))
       (record_call (DescribeServices (_cluster self) [service_name self])
                    self)).
Proof.
  intros Hdone Hprimary Hmiss Himage.
  unfold __next__. rewrite Hdone.
  rewrite (bind_ok _ _ _ _ _ (primary_deployment_found _ _ _ Hprimary)).
  apply bind_raise.
  unfold _get_release_image.
  cbn [_release_images record_call]. rewrite Hmiss.
  unfold _get_release_image_uncached, bind, ecs_request.
  destruct Himage as [-> | (container & others & -> & Hslash)];
    [reflexivity|].
  simpl. by rewrite (split_without_separator _ _ Hslash).
Qed.

Lemma next_image_without_registry_witness :
  __next__ (poll 3 3 "svc:1.2.3") monitor
  = (Raise IndexError,
     record_call (DescribeTaskDefinition "arn:task:7")
       (record_call (DescribeServices "cluster" ["live-svc"]) monitor)).
Proof.
  refine (next_image_without_registry (poll 3 3 "svc:1.2.3") monitor
            {| status := "PRIMARY"; taskDefinition := "arn:task:7";
               runningCount := 3; desiredCount := 3 |}
            eq_refl _ eq_refl _).
  - do 2 eexists. split; reflexivity.
  - right. do 2 eexists. split; reflexivity.
Defined.

End EcsMore.

(** ** AccountScheme *)

Module AccountFacts.
Import AccountModule.

(** The comprehension maps every environment to the account of its
    alias, and nothing else. *)
Lemma map_environments_lookup environments accounts mapping :
  map_environments environments accounts = Ok mapping ->
  forall env,
    match environments !! env with
    | Some account_alias =>
        exists account,
          accounts !! account_alias = Some account
          /\ mapping !! env = Some account
    | None => mapping !! env = None
    end.
Proof.
  unfold map_environments.
  destruct (List.find _ (map_to_list environments)) eqn:Hfind; [done|].
  intros [= <-] env. rewrite lookup_omap.
  destruct (environments !! env) as [account_alias|] eqn:Henv; [|done].
  simpl.
  pose proof (find_none _ _ Hfind (env, account_alias)) as Hknown.
  simpl in Hknown. rewrite bool_decide_eq_false in Hknown.
  destruct (accounts !! account_alias) as [account|] eqn:Hacc.
  - by exists account.
  - exfalso. apply Hknown; [|done].
    by apply list_elem_of_In, elem_of_map_to_list.
Qed.

Lemma get_env_mapping_entries environments accounts mapping :
  _get_env_mapping environments accounts = Ok mapping ->
  map_environments environments accounts = Ok (entries mapping).
Proof.
  unfold _get_env_mapping.
  destruct (map_environments environments accounts) as [m|e]; [|done].
  destruct (truthy _).
  - destruct (getitem accounts _); [|done]. by intros [= <-].
  - by intros [= <-].
Qed.

Lemma get_env_mapping_default environments accounts mapping :
  _get_env_mapping environments accounts = Ok mapping ->
  match environments !! "*" with
  | Some account_alias =>
      if String.eqb account_alias EmptyString then default_factory mapping = None
      else exists account,
             accounts !! account_alias = Some account
             /\ default_factory mapping = Some account
  | None => default_factory mapping = None
  end.
Proof.
  unfold _get_env_mapping, DEFAULT_ENV_KEY, truthy, getitem.
  destruct (map_environments environments accounts) as [m|e]; [|done].
  destruct (environments !! "*") as [account_alias|]; simpl.
  - destruct (String.eqb account_alias EmptyString); simpl.
    + by intros [= <-].
    + destruct (accounts !! account_alias) as [account|]; [|done].
      intros [= <-]. by exists account.
  - by intros [= <-].
Qed.

(** [create] stores the mapping that [_get_env_mapping] builds from the
    environments and the accounts of the raw scheme. *)
Lemma create_environment_mapping raw self :
  create raw = Ok self ->
  exists accounts,
    _get_env_mapping (raw_environments raw) accounts
    = Ok (_environment_mapping self).
Proof.
  unfold create. set (accounts := map_imap _ (raw_accounts raw)).
  intros Hcreate. exists accounts.
  destruct (_get_env_mapping (raw_environments raw) accounts)
    as [mapping|e]; [|done].
  destruct (getitem accounts (raw_release_account raw)); [|done].
  injection Hcreate as <-. reflexivity.
Qed.

Lemma serves_fresh environments accounts self :
  _get_env_mapping environments accounts = Ok (_environment_mapping self) ->
  serves environments accounts self.
Proof. intros Hbuilt. exists (_environment_mapping self). auto. Qed.

(** Lookups keep the scheme in use. *)
Lemma serves_after_lookup environments accounts self environment :
  serves environments accounts self ->
  serves environments accounts (account_for_environment environment self).2.
Proof.
  intros (built & Hbuilt & Hdefault & Hentries).
  unfold account_for_environment.
  destruct (entries (_environment_mapping self) !! environment) eqn:Hhit;
    [by exists built|].
  destruct (default_factory (_environment_mapping self)) as [d|] eqn:Hd;
    simpl.
  - exists built. split; [done|]. split; [simpl; congruence|].
    intros env. simpl.
    destruct (decide (environment = env)) as [<-|Hne].
    + rewrite lookup_insert_eq. right. rewrite <- Hdefault.
      destruct (Hentries environment) as [Heq | (Hnone & _ & _)];
        split; try congruence; eauto.
    + rewrite lookup_insert_ne; [|done]. apply Hentries.
  - exists built. split; [done|]. split; [congruence | done].
Qed.

(** C9, as the code has it.  For a scheme whose environment mapping was
    built by [_get_env_mapping], whatever lookups it has served since:
    - an environment of the raw mapping yields the account of its alias;
    - an environment without an entry yields the account of the wildcard
      ['*'] when the raw mapping has one (with a non-empty alias);
    - without a wildcard the lookup raises [KeyError]. *)
Theorem account_for_environment_cases
    (environments : gmap string string) (accounts : gmap string Account)
    (self : AccountScheme) :
  serves environments accounts self ->
  (forall env account_alias,
      environments !! env = Some account_alias ->
      exists account,
        accounts !! account_alias = Some account
        /\ account_for_environment env self = (Ok account, self))
  /\ (forall env account_alias,
        environments !! env = None ->
        environments !! "*" = Some account_alias ->
        account_alias <> EmptyString ->
        exists account,
          accounts !! account_alias = Some account
          /\ (account_for_environment env self).1 = Ok account)
  /\ (forall env,
        environments !! env = None ->
        environments !! "*" = None ->
        account_for_environment env self = (Raise (KeyError env), self)).
Proof.
  intros (built & Hbuilt & Hsame & Hserved).
  pose proof (map_environments_lookup _ _ _
                (get_env_mapping_entries _ _ _ Hbuilt)) as Hentries.
  pose proof (get_env_mapping_default _ _ _ Hbuilt) as Hdefault.
  split; [|split].
  - intros env account_alias Henv. specialize (Hentries env).
    rewrite Henv in Hentries. destruct Hentries as (account & Hacc & Hm).
    exists account. split; [done|].
    unfold account_for_environment.
    destruct (Hserved env) as [-> | (Hnone & _)]; [|congruence].
    by rewrite Hm.
  - intros env account_alias Henv Hstar Hne. specialize (Hentries env).
    rewrite Henv in Hentries. rewrite Hstar in Hdefault.
    apply String.eqb_neq in Hne. rewrite Hne in Hdefault.
    destruct Hdefault as (account & Hacc & Hd).
    exists account. split; [done|].
    unfold account_for_environment.
    destruct (Hserved env) as [-> | (_ & _ & ->)].
    + by rewrite Hentries, Hsame, Hd.
    + by rewrite Hd.
  - intros env Henv Hstar. specialize (Hentries env).
    rewrite Henv in Hentries. rewrite Hstar in Hdefault.
    unfold account_for_environment.
    destruct (Hserved env) as [-> | (_ & [d Hd] & _)]; [|congruence].
    by rewrite Hentries, Hsame, Hdefault.
Qed.

Lemma account_for_environment_cases_witness :
  exists account,
    example_accounts !! "dev" = Some account
    /\ (account_for_environment "ci"
          (scheme_with {| entries := {[ "live" := prod; "*" := dev ]};
                          default_factory := Some dev |})).1
       = Ok account.
Proof.
  refine (proj1 (proj2 (account_for_environment_cases
                          environments_with_default example_accounts
                          (scheme_with
                             {| entries := {[ "live" := prod; "*" := dev ]};
                                default_factory := Some dev |})
                          (serves_fresh _ _ _ _)))
            "ci" "dev" _ _ _).
  - vm_compute. reflexivity.
  - vm_compute. reflexivity.
  - vm_compute. reflexivity.
  - discriminate.
Defined.

(** C9 as stated fails: in a scheme without a wildcard, looking up an
    environment that has no entry raises [KeyError], not
    [UnknownEnvironmentError]. *)
Lemma account_for_environment_counterexample :
  environments_without_default !! "ci" = None
  /\ environments_without_default !! "*" = None
  /\ exists mapping,
       _get_env_mapping environments_without_default example_accounts
         = Ok mapping
       /\ (account_for_environment "ci" (scheme_with mapping)).1
          = Raise (KeyError "ci")
       /\ (account_for_environment "ci" (scheme_with mapping)).1
          <> Raise UnknownEnvironmentError.
Proof.
  split; [vm_compute; reflexivity|]. split; [vm_compute; reflexivity|].
  exists {| entries := {[ "live" := prod ]}; default_factory := None |}.
  split; [vm_compute; reflexivity|].
  split; [vm_compute; reflexivity | vm_compute; discriminate].
Qed.

End AccountFacts.

(** ** AccountScheme: what [create] builds and what lookups change *)

Module AccountMore.
Import AccountModule AccountFacts.

(** The accounts of a raw scheme, as [create] builds them. *)
Lemma built_accounts_lookup (raw : raw_scheme) (account_alias : string) :
  map_imap (fun account_alias account =>
              Some {| alias := account_alias; id := raw_id account;
                      role := raw_role account |})
           (raw_accounts raw) !! account_alias
  = (fun account => {| alias := account_alias; id := raw_id account;
                       role := raw_role account |})
      <$> raw_accounts raw !! account_alias.
Proof.
  rewrite map_lookup_imap. by destruct (raw_accounts raw !! account_alias).
Qed.

Lemma create_inv raw self :
  create raw = Ok self ->
  exists accounts mapping release,
    accounts = map_imap (fun account_alias account =>
                           Some {| alias := account_alias;
                                   id := raw_id account;
                                   role := raw_role account |})
                        (raw_accounts raw)
    /\ _get_env_mapping (raw_environments raw) accounts = Ok mapping
    /\ accounts !! raw_release_account raw = Some release
    /\ self = {| accounts := (map_to_list accounts).*2;
                 release_account := release;
                 release_bucket := raw_release_bucket raw;
                 lambda_bucket := default EmptyString (raw_lambda_bucket raw);
                 default_region := raw_default_region raw;
                 _environment_mapping := mapping |}.
Proof.
  unfold create. set (accounts := map_imap _ (raw_accounts raw)).
  destruct (_get_env_mapping (raw_environments raw) accounts)
    as [mapping|e] eqn:Hmapping; [|done].
  unfold getitem.
  destruct (accounts !! raw_release_account raw) as [release|] eqn:Hrelease;
    [|done].
  intros [= <-]. by exists accounts, mapping, release.
Qed.

Lemma elem_of_values {V} (m : gmap string V) (v : V) :
  v ∈ (map_to_list m).*2 <-> exists k, m !! k = Some v.
Proof.
  rewrite list_elem_of_fmap. split.
  - intros ([k v'] & -> & Hin). exists k. by apply elem_of_map_to_list.
  - intros (k & Hk). exists (k, v). split; [done|].
    by apply elem_of_map_to_list.
Qed.

(** X21.  In a scheme that [create] has built, the release account, every
    account of the environment mapping and the default account are members
    of [accounts]. *)
Theorem create_accounts_closed (raw : raw_scheme) (self : AccountScheme) :
  create raw = Ok self ->
  release_account self ∈ accounts self
  /\ (forall env account,
        entries (_environment_mapping self) !! env = Some account ->
        account ∈ accounts self)
  /\ (forall account,
        default_factory (_environment_mapping self) = Some account ->
        account ∈ accounts self).
Proof.
  intros Hcreate.
  destruct (create_inv raw self Hcreate)
    as (accounts & mapping & release & Haccounts & Hmapping & Hrelease & ->).
  simpl.
  pose proof (map_environments_lookup _ _ _
                (get_env_mapping_entries _ _ _ Hmapping)) as Hentries.
  pose proof (get_env_mapping_default _ _ _ Hmapping) as Hdefault.
  split; [|split].
  - apply elem_of_values. eauto.
  - intros env account Henv. specialize (Hentries env).
    destruct (raw_environments raw !! env) as [account_alias|];
      [|congruence].
    destruct Hentries as (account' & Hacc & Hm).
    apply elem_of_values. exists account_alias. congruence.
  - intros account Hd.
    destruct (raw_environments raw !! "*") as [account_alias|];
      [|congruence].
    destruct (String.eqb account_alias EmptyString); [congruence|].
    destruct Hdefault as (account' & Hacc & Hd').
    apply elem_of_values. exists account_alias. congruence.
Qed.

Lemma create_accounts_closed_witness :
  exists self,
    create example_raw_scheme = Ok self
    /\ release_account self ∈ accounts self
    /\ (forall env account,
          entries (_environment_mapping self) !! env = Some account ->
          account ∈ accounts self)
    /\ (forall account,
          default_factory (_environment_mapping self) = Some account ->
          account ∈ accounts self).
Proof.
  eexists. split; [vm_compute; reflexivity|].
  apply (create_accounts_closed example_raw_scheme).
  vm_compute. reflexivity.
Defined.

(** X22.  [create] succeeds exactly when the release account and the
    account of every environment are aliases of the raw scheme; otherwise
    it raises [KeyError] with an alias that the raw scheme does not
    define. *)
Theorem create_needs_defined_aliases (raw : raw_scheme) :
  ((exists self, create raw = Ok self)
   <-> (is_Some (raw_accounts raw !! raw_release_account raw)
        /\ forall env account_alias,
             raw_environments raw !! env = Some account_alias ->
             is_Some (raw_accounts raw !! account_alias)))
  /\ forall e,
       create raw = Raise e ->
       exists account_alias,
         e = KeyError account_alias
         /\ raw_accounts raw !! account_alias = None.
Proof.
  unfold create. set (accounts := map_imap _ (raw_accounts raw)).
  assert (Hlookup : forall k,
             accounts !! k = None <-> raw_accounts raw !! k = None).
  { intros k. unfold accounts. rewrite built_accounts_lookup.
    by destruct (raw_accounts raw !! k). }
  unfold _get_env_mapping, map_environments, getitem.
  destruct (List.find _ (map_to_list (raw_environments raw)))
    as [[env account_alias]|] eqn:Hfind.
  - apply find_some in Hfind as [Hin Hmissing].
    apply list_elem_of_In, elem_of_map_to_list in Hin.
    apply bool_decide_eq_true in Hmissing. simpl in Hmissing.
    split.
    + split; [by intros [self ?]|].
      intros [_ Hall]. destruct (Hall env account_alias Hin) as [a Ha].
      apply Hlookup in Hmissing. congruence.
    + intros e [= <-]. exists account_alias. split; [done|].
      by apply Hlookup.
  - assert (Hall : forall env account_alias,
               raw_environments raw !! env = Some account_alias ->
               is_Some (raw_accounts raw !! account_alias)).
    { intros env account_alias Henv.
      pose proof (find_none _ _ Hfind (env, account_alias)) as Hknown.
      simpl in Hknown. rewrite bool_decide_eq_false in Hknown.
      destruct (raw_accounts raw !! account_alias) eqn:Hraw; [eauto|].
      exfalso. apply Hknown; [|by apply Hlookup].
      by apply list_elem_of_In, elem_of_map_to_list. }
    destruct (truthy (raw_environments raw !! DEFAULT_ENV_KEY)) eqn:Htruthy.
    + destruct (raw_environments raw !! DEFAULT_ENV_KEY)
        as [default_alias|] eqn:Hstar; [|done].
      simpl. destruct (Hall _ _ Hstar) as [ra Hra].
      destruct (accounts !! default_alias) as [d|] eqn:Hd;
        [|apply Hlookup in Hd; congruence].
      destruct (accounts !! raw_release_account raw) as [release|]
        eqn:Hrelease.
      * split; [|done]. split; [|by eauto]. intros _. split; [|done].
        destruct (raw_accounts raw !! raw_release_account raw) eqn:Hraw;
          [eauto|]. apply Hlookup in Hraw. congruence.
      * split.
        -- split; [by intros [self ?]|]. intros [[a Ha] _].
           apply Hlookup in Hrelease. congruence.
        -- intros e [= <-]. exists (raw_release_account raw).
           split; [done|]. by apply Hlookup.
    + destruct (accounts !! raw_release_account raw) as [release|]
        eqn:Hrelease.
      * split; [|done]. split; [|by eauto]. intros _. split; [|done].
        destruct (raw_accounts raw !! raw_release_account raw) eqn:Hraw;
          [eauto|]. apply Hlookup in Hraw. congruence.
      * split.
        -- split; [by intros [self ?]|]. intros [[a Ha] _].
           apply Hlookup in Hrelease. congruence.
        -- intros e [= <-]. exists (raw_release_account raw).
           split; [done|]. by apply Hlookup.
Qed.

(** X23.  After [create], the account of a listed environment is the
    account of its alias in the raw scheme: its alias is that alias, its id
    and role are those of the raw account, and the lookup leaves the scheme
    as it is. *)
Theorem create_then_lookup (raw : raw_scheme) (self : AccountScheme)
    (env account_alias : string) (account : raw_account) :
  create raw = Ok self ->
  raw_environments raw !! env = Some account_alias ->
  raw_accounts raw !! account_alias = Some account ->
  account_for_environment env self
  = (Ok {| alias := account_alias; id := raw_id account;
           role := raw_role account |}, self).
Proof.
  intros Hcreate Henv Hraw.
  destruct (create_environment_mapping raw self Hcreate) as (accounts & Hm).
  destruct (create_inv raw self Hcreate)
    as (accounts' & mapping & release & Haccounts & Hmapping & _ & Hself).
  assert (Hsame : _environment_mapping self = mapping) by (by subst self).
  rewrite <- Hsame in Hmapping.
  destruct (proj1 (account_for_environment_cases _ _ _
                     (serves_fresh _ _ _ Hmapping)) env account_alias Henv)
    as (built & Hbuilt & ->).
  rewrite Haccounts, built_accounts_lookup, Hraw in Hbuilt.
  by injection Hbuilt as <-.
Qed.

Lemma create_then_lookup_witness :
  exists self,
    create example_raw_scheme = Ok self
    /\ account_for_environment "live" self = (Ok prod, self).
Proof.
  eexists. split; [vm_compute; reflexivity|].
  apply (create_then_lookup example_raw_scheme _ "live" "prod"
           {| raw_id := "987654321"; raw_role := "admin" |}).
  - vm_compute. reflexivity.
  - vm_compute. reflexivity.
  - vm_compute. reflexivity.
Defined.



(** X25.  A wildcard that names the empty alias gives no default: the
    mapping that [_get_env_mapping] builds is a plain dictionary, and the
    lookup of an environment without an entry raises [KeyError], although
    the raw mapping has the key ['*'] and the empty alias is an account. *)
Theorem empty_wildcard_alias_is_no_default
    (environments : gmap string string) (accounts : gmap string Account)
    (self : AccountScheme) (env : string) :
  _get_env_mapping environments accounts = Ok (_environment_mapping self) ->
  environments !! "*" = Some EmptyString ->
  environments !! env = None ->
  default_factory (_environment_mapping self) = None
  /\ account_for_environment env self = (Raise (KeyError env), self).
Proof.
  intros Hbuilt Hstar Henv.
  pose proof (get_env_mapping_default _ _ _ Hbuilt) as Hdefault.
  rewrite Hstar in Hdefault. simpl in Hdefault.
  pose proof (map_environments_lookup _ _ _
                (get_env_mapping_entries _ _ _ Hbuilt) env) as Hentries.
  rewrite Henv in Hentries.
  split; [done|]. unfold account_for_environment.
  by rewrite Hentries, Hdefault.
Qed.

Lemma empty_wildcard_alias_is_no_default_witness :
  default_factory
    (_environment_mapping
       (scheme_with {| entries := {[ "live" := prod; "*" := nameless ]};
                       default_factory := None |})) = None
  /\ account_for_environment "ci"
       (scheme_with {| entries := {[ "live" := prod; "*" := nameless ]};
                       default_factory := None |})
     = (Raise (KeyError "ci"),
        scheme_with {| entries := {[ "live" := prod; "*" := nameless ]};
                       default_factory := None |}).
Proof.
  apply (empty_wildcard_alias_is_no_default
           environments_with_empty_default accounts_with_nameless
           (scheme_with {| entries := {[ "live" := prod; "*" := nameless ]};
                           default_factory := None |}) "ci").
  - vm_compute. reflexivity.
  - vm_compute. reflexivity.
  - vm_compute. reflexivity.
Defined.

(** X26.  [account_ids] of a scheme that [create] has built lists the ids
    of the accounts of the raw scheme: one entry for every alias, and an id
    is listed exactly when some raw account has it. *)
Theorem account_ids_of_created (raw : raw_scheme) (self : AccountScheme) :
  create raw = Ok self ->
  length (account_ids self) = size (raw_accounts raw)
  /\ forall account_id,
       account_id ∈ account_ids self
       <-> exists account_alias account,
             raw_accounts raw !! account_alias = Some account
             /\ raw_id account = account_id.
Proof.
  intros Hcreate.
  destruct (create_inv raw self Hcreate)
    as (accounts & mapping & release & Haccounts & _ & _ & ->).
  unfold account_ids. simpl. split.
  - rewrite length_map, length_fmap, length_map_to_list.
    rewrite <- !(size_dom (D := gset string)). f_equal.
    subst accounts. apply dom_imap_L. intros k.
    rewrite elem_of_dom. split.
    + intros [ra Hra]. exists ra. split; [done | eauto].
    + intros (ra & Hra & _). eauto.
  - intros account_id. rewrite list_elem_of_In, in_map_iff. split.
    + intros (account & <- & Hin).
      apply list_elem_of_In, elem_of_values in Hin as (k & Hk).
      rewrite Haccounts, built_accounts_lookup in Hk.
      destruct (raw_accounts raw !! k) as [ra|] eqn:Hra; [|done].
      injection Hk as <-. by exists k, ra.
    + intros (k & ra & Hra & <-).
      exists {| alias := k; id := raw_id ra; role := raw_role ra |}.
      split; [done|]. apply list_elem_of_In, elem_of_values. exists k.
      by rewrite Haccounts, built_accounts_lookup, Hra.
Qed.

Lemma account_ids_of_created_witness :
  exists self,
    create example_raw_scheme = Ok self
    /\ length (account_ids self) = size (raw_accounts example_raw_scheme)
    /\ forall account_id,
         account_id ∈ account_ids self
         <-> exists account_alias account,
               raw_accounts example_raw_scheme !! account_alias
                 = Some account
               /\ raw_id account = account_id.
Proof.
  eexists. split; [vm_compute; reflexivity|].
  apply (account_ids_of_created example_raw_scheme).
  vm_compute. reflexivity.
Defined.

End AccountMore.

(** ** migrate_state *)

Module StateFacts.
Import State.

(** *** Keys *)

Lemma destination_inj m e e' : destination m e = destination m e' -> e = e'.
Proof.
  unfold destination. intros H.
  apply append_inj_l in H. rewrite ?append_cons, ?append_nil in H.
  injection H as H.
  apply append_inj_l in H. by injection H as H.
Qed.

Lemma state_key_inj m e e' : state_key m e = state_key m e' -> e = e'.
Proof. intros H. by apply append_inj_r, destination_inj in H. Qed.

Lemma marker_key_inj m e e' : marker_key m e = marker_key m e' -> e = e'.
Proof. intros H. by apply append_inj_r, destination_inj in H. Qed.

Lemma marker_is_no_state_key m e e' : marker_key m e <> state_key m e'.
Proof.
  unfold marker_key, state_key. intros H.
  apply append_suffix in H as [p Hp]; [|simpl; lia].
  assert (String.length p = 9) as Hlen.
  { apply (f_equal String.length) in Hp. rewrite length_append in Hp.
    simpl in Hp. lia. }
  do 10 (destruct p as [|? p]; simpl in Hlen; try lia).
  rewrite ?append_cons, ?append_nil in Hp. discriminate.
Qed.

(** *** One environment *)

Lemma migrate_environment_cases m now s x :
  migrate_environment m now s x = s
  \/ (objects s !! (new_bucket m, marker_key m x) = None
      /\ exists legacy,
           migrate_environment m now s x
           = put_object (new_bucket m) (marker_key m x) "1" now
               (put_object (new_bucket m) (state_key m x) (Body legacy)
                           now s)).
Proof.
  unfold migrate_environment.
  destruct (objects s !! (new_bucket m, marker_key m x)); [by left|].
  destruct (objects s !! (old_bucket m, legacy_key m x)) as [legacy|];
    [|by left].
  right. split; [done|]. by exists legacy.
Qed.

Lemma migrate_environment_skips m now s x :
  is_Some (objects s !! (new_bucket m, marker_key m x)) ->
  migrate_environment m now s x = s.
Proof. intros [o Ho]. unfold migrate_environment. by rewrite Ho. Qed.

Lemma writes_to_put m key bucket key' body now s :
  writes_to m key (put_object bucket key' body now s)
  = writes_to m key s
    + (if bool_decide ((bucket, key') = (new_bucket m, key)) then 1 else 0).
Proof.
  unfold writes_to, put_object. simpl.
  rewrite List.filter_app, length_app. simpl.
  by destruct (bool_decide _).
Qed.

(** The two writes of a migrated environment leave every other key of the
    new bucket alone. *)
Lemma migrated_elsewhere m now s x body key :
  key <> state_key m x -> key <> marker_key m x ->
  let s' := put_object (new_bucket m) (marker_key m x) "1" now
              (put_object (new_bucket m) (state_key m x) body now s) in
  objects s' !! (new_bucket m, key) = objects s !! (new_bucket m, key)
  /\ writes_to m key s' = writes_to m key s.
Proof.
  intros Hstate Hmarker s'. unfold s'. split.
  - simpl. rewrite !lookup_insert_ne; [done| |]; congruence.
  - rewrite !writes_to_put.
    rewrite !bool_decide_eq_false_2; [lia| |]; congruence.
Qed.

Lemma migrated_marker m now s x body :
  let s' := put_object (new_bucket m) (marker_key m x) "1" now
              (put_object (new_bucket m) (state_key m x) body now s) in
  is_Some (objects s' !! (new_bucket m, marker_key m x))
  /\ writes_to m (marker_key m x) s' = writes_to m (marker_key m x) s + 1.
Proof.
  intros s'. unfold s'. split.
  - simpl. rewrite lookup_insert_eq. eauto.
  - rewrite !writes_to_put.
    rewrite (bool_decide_eq_true_2
               ((new_bucket m, marker_key m x)
                = (new_bucket m, marker_key m x))); [|done].
    rewrite bool_decide_eq_false_2; [lia|].
    intros [= H]. by apply (marker_is_no_state_key m x x).
Qed.

(** *** A run *)

(** An environment that carries the marker is left alone by a run: no
    object and no write at its destination changes. *)
Lemma run_keeps_migrated m now e envs : forall s,
  is_Some (objects s !! (new_bucket m, marker_key m e)) ->
  let s' := foldl (migrate_environment m now) s envs in
  objects s' !! (new_bucket m, state_key m e)
    = objects s !! (new_bucket m, state_key m e)
  /\ objects s' !! (new_bucket m, marker_key m e)
     = objects s !! (new_bucket m, marker_key m e)
  /\ writes_to m (state_key m e) s' = writes_to m (state_key m e) s
  /\ writes_to m (marker_key m e) s' = writes_to m (marker_key m e) s.
Proof.
  induction envs as [|x envs IH]; intros s Hmarker; simpl; [done|].
  destruct (migrate_environment_cases m now s x)
    as [-> | (Hnone & legacy & ->)]; [by apply IH|].
  assert (x <> e) as Hne.
  { intros ->. destruct Hmarker as [o Ho]. congruence. }
  destruct (migrated_elsewhere m now s x (Body legacy) (state_key m e))
    as [Hobj1 Hw1].
  { intros H. by apply state_key_inj in H. }
  { intros H. symmetry in H. by apply marker_is_no_state_key in H. }
  destruct (migrated_elsewhere m now s x (Body legacy) (marker_key m e))
    as [Hobj2 Hw2].
  { apply marker_is_no_state_key. }
  { intros H. by apply marker_key_inj in H. }
  rewrite <- Hobj1, <- Hobj2, <- Hw1, <- Hw2.
  apply IH. by rewrite Hobj2.
Qed.

(** A run writes the marker of an environment at most once, and exactly
    once when the marker exists afterwards and did not before. *)
Lemma run_marks_once m now e envs : forall s,
  objects s !! (new_bucket m, marker_key m e) = None ->
  let s' := foldl (migrate_environment m now) s envs in
  (is_Some (objects s' !! (new_bucket m, marker_key m e)) ->
   writes_to m (marker_key m e) s' = writes_to m (marker_key m e) s + 1)
  /\ (objects s' !! (new_bucket m, marker_key m e) = None ->
      writes_to m (marker_key m e) s' = writes_to m (marker_key m e) s).
Proof.
  induction envs as [|x envs IH]; intros s Hnone; simpl.
  - split; [|done]. intros [o Ho]. congruence.
  - destruct (migrate_environment_cases m now s x)
      as [-> | (_ & legacy & ->)]; [by apply IH|].
    destruct (decide (x = e)) as [->|Hne].
    + destruct (migrated_marker m now s e (Body legacy)) as [Hsome Hw].
      destruct (run_keeps_migrated m now e envs _ Hsome)
        as (_ & Hobj & _ & Hw').
      split.
      * intros _. by rewrite Hw', Hw.
      * intros Hgone. rewrite Hobj in Hgone. destruct Hsome. congruence.
    + destruct (migrated_elsewhere m now s x (Body legacy) (marker_key m e))
        as [Hobj Hw].
      { apply marker_is_no_state_key. }
      { intros H. by apply marker_key_inj in H. }
      rewrite <- Hw. apply IH. by rewrite Hobj.
Qed.

(** C3.  Let the marker of an environment exist when [migrate_state] runs
    a second time.  The second run copies nothing to the destination
    state object, which keeps its content and its last-modified time, and
    writes no marker; over both runs the marker is written once if it did
    not exist before the first run, and never if it did. *)
Theorem migrate_state_idempotent
    (m : migration) (first second : Z) (s : object_store) (e : string) :
  let once := migrate_state m first s in
  let twice := migrate_state m second once in
  is_Some (objects once !! (new_bucket m, marker_key m e)) ->
  writes_to m (state_key m e) twice = writes_to m (state_key m e) once
  /\ objects twice !! (new_bucket m, state_key m e)
     = objects once !! (new_bucket m, state_key m e)
  /\ LastModified <$> objects twice !! (new_bucket m, state_key m e)
     = LastModified <$> objects once !! (new_bucket m, state_key m e)
  /\ writes_to m (marker_key m e) twice = writes_to m (marker_key m e) once
  /\ (objects s !! (new_bucket m, marker_key m e) = None ->
      writes_to m (marker_key m e) twice
      = writes_to m (marker_key m e) s + 1)
  /\ (is_Some (objects s !! (new_bucket m, marker_key m e)) ->
      writes_to m (marker_key m e) twice = writes_to m (marker_key m e) s).
Proof.
  intros once twice Hmarker.
  destruct (run_keeps_migrated m second e (environments m) once Hmarker)
    as (Hstate & _ & Hcopies & Hmarks).
  fold (migrate_state m second once) in Hstate, Hcopies, Hmarks.
  fold twice in Hstate, Hcopies, Hmarks.
  repeat split; try done.
  - by rewrite Hstate.
  - intros Hnone. rewrite Hmarks.
    by apply (run_marks_once m first e (environments m) s Hnone).
  - intros Hsome. rewrite Hmarks.
    by apply (run_keeps_migrated m first e (environments m) s Hsome).
Qed.

Lemma migrate_state_idempotent_witness :
  let once := migrate_state example_migration 1 legacy_store in
  let twice := migrate_state example_migration 2 once in
  writes_to example_migration (state_key example_migration "qa") twice
  = writes_to example_migration (state_key example_migration "qa") once
  /\ objects twice
       !! ("backend-s3-bucket", state_key example_migration "qa")
     = objects once
         !! ("backend-s3-bucket", state_key example_migration "qa")
  /\ LastModified
       <$> objects twice
             !! ("backend-s3-bucket", state_key example_migration "qa")
     = LastModified
         <$> objects once
               !! ("backend-s3-bucket", state_key example_migration "qa")
  /\ writes_to example_migration (marker_key example_migration "qa") twice
     = writes_to example_migration (marker_key example_migration "qa") once
  /\ (objects legacy_store
        !! ("backend-s3-bucket", marker_key example_migration "qa") = None ->
      writes_to example_migration (marker_key example_migration "qa") twice
      = writes_to example_migration (marker_key example_migration "qa")
          legacy_store + 1)
  /\ (is_Some (objects legacy_store
                 !! ("backend-s3-bucket",
                     marker_key example_migration "qa")) ->
      writes_to example_migration (marker_key example_migration "qa") twice
      = writes_to example_migration (marker_key example_migration "qa")
          legacy_store).
Proof.
  apply (migrate_state_idempotent example_migration 1 2 legacy_store "qa").
  vm_compute. eexists. reflexivity.
Defined.

(** The run of the example: the state of [qa] is copied and marked at
    time 1 and not touched at time 2; nothing is written for [ci]. *)
Example migrate_state_example :
  let twice :=
    migrate_state example_migration 2
      (migrate_state example_migration 1 legacy_store) in
  objects twice !! ("backend-s3-bucket", "a-team/a-service/qa/terraform.tfstate")
  = Some {| Body := "qa state"; LastModified := 1 |}
  /\ objects twice !! ("backend-s3-bucket", "a-team/a-service/qa/MIGRATED")
     = Some {| Body := "1"; LastModified := 1 |}
  /\ writes twice
     = [("backend-s3-bucket", "a-team/a-service/qa/terraform.tfstate");
        ("backend-s3-bucket", "a-team/a-service/qa/MIGRATED")].
Proof. vm_compute. repeat split. Qed.

End StateFacts.

(** ** migrate_state: what a run copies *)

Module StateMore.
Import State StateFacts.

(** The writes of a migrated environment do not reach the old bucket. *)
Lemma migrated_old_bucket m now s x body key :
  old_bucket m <> new_bucket m ->
  objects (put_object (new_bucket m) (marker_key m x) "1" now
             (put_object (new_bucket m) (state_key m x) body now s))
    !! (old_bucket m, key)
  = objects s !! (old_bucket m, key).
Proof.
  intros Hbuckets. simpl. rewrite !lookup_insert_ne; [done| |]; congruence.
Qed.

Lemma migrated_state m now s x body :
  objects (put_object (new_bucket m) (marker_key m x) "1" now
             (put_object (new_bucket m) (state_key m x) body now s))
    !! (new_bucket m, state_key m x)
  = Some {| Body := body; LastModified := now |}
  /\ objects (put_object (new_bucket m) (marker_key m x) "1" now
                (put_object (new_bucket m) (state_key m x) body now s))
       !! (new_bucket m, marker_key m x)
     = Some {| Body := "1"; LastModified := now |}.
Proof.
  simpl. split.
  - rewrite lookup_insert_ne, lookup_insert_eq; [done|].
    intros [= H]. by apply marker_is_no_state_key in H.
  - by rewrite lookup_insert_eq.
Qed.

Lemma run_copies m now e legacy envs : forall s,
  e ∈ envs ->
  old_bucket m <> new_bucket m ->
  objects s !! (new_bucket m, marker_key m e) = None ->
  objects s !! (old_bucket m, legacy_key m e) = Some legacy ->
  let s' := foldl (migrate_environment m now) s envs in
  objects s' !! (new_bucket m, state_key m e)
    = Some {| Body := Body legacy; LastModified := now |}
  /\ objects s' !! (new_bucket m, marker_key m e)
     = Some {| Body := "1"; LastModified := now |}.
Proof.
  induction envs as [|x envs IH]; intros s Hin Hbuckets Hmarker Hlegacy;
    [by apply elem_of_nil in Hin|].
  simpl. destruct (decide (x = e)) as [->|Hne].
  - unfold migrate_environment at 2 4. rewrite Hmarker, Hlegacy.
    destruct (migrated_state m now s e (Body legacy)) as [Hstate Hmark].
    destruct (run_keeps_migrated m now e envs
                (put_object (new_bucket m) (marker_key m e) "1" now
                   (put_object (new_bucket m) (state_key m e) (Body legacy)
                               now s)))
      as (Hs & Hm & _); [by rewrite Hmark|].
    by rewrite Hs, Hm.
  - apply elem_of_cons in Hin as [-> | Hin]; [done|].
    destruct (migrate_environment_cases m now s x)
      as [-> | (_ & other & ->)]; [by apply IH|].
    apply IH; [done | done | |].
    + destruct (migrated_elsewhere m now s x (Body other) (marker_key m e))
        as [Hobj _].
      { apply marker_is_no_state_key. }
      { intros H. by apply marker_key_inj in H. }
      by rewrite Hobj.
    + by rewrite migrated_old_bucket.
Qed.

(** A run of [migrate_state] copies the state of every environment of
    its list that has a legacy object and no marker yet: afterwards the
    destination holds the body of the legacy object and the marker holds
    ["1"], whatever other environments the run has migrated before or
    after. *)
Theorem migrate_state_copies
    (m : migration) (now : Z) (s : object_store) (e : string)
    (legacy : s3_object) :
  e ∈ environments m ->
  old_bucket m <> new_bucket m ->
  objects s !! (new_bucket m, marker_key m e) = None ->
  objects s !! (old_bucket m, legacy_key m e) = Some legacy ->
  objects (migrate_state m now s) !! (new_bucket m, state_key m e)
    = Some {| Body := Body legacy; LastModified := now |}
  /\ objects (migrate_state m now s) !! (new_bucket m, marker_key m e)
     = Some {| Body := "1"; LastModified := now |}.
Proof.
  intros Hin Hbuckets Hmarker Hlegacy.
  by apply (run_copies m now e legacy (environments m) s).
Qed.

Lemma migrate_state_copies_witness :
  objects (migrate_state example_migration 1 legacy_store)
    !! ("backend-s3-bucket", state_key example_migration "qa")
    = Some {| Body := "qa state"; LastModified := 1 |}
  /\ objects (migrate_state example_migration 1 legacy_store)
       !! ("backend-s3-bucket", marker_key example_migration "qa")
     = Some {| Body := "1"; LastModified := 1 |}.
Proof.
  apply (migrate_state_copies example_migration 1 legacy_store "qa"
           {| Body := "qa state"; LastModified := 0 |}).
  - apply list_elem_of_In. simpl. auto.
  - discriminate.
  - vm_compute. reflexivity.
  - vm_compute. reflexivity.
Defined.

End StateMore.
